(** * SeekPro: a shallow embedding of [seekpro.py]

    The driver of the Seek Thermal Pro camera: the control-message
    handshake, the bulk-read frame assembler, the dead-pixel discovery of
    the constructor, the calibration state machine of [get_image] and the
    median interpolation of dead pixels.

    Conventions of the embedding.
    - Python exceptions are the [Raise] outcomes of an error monad.
    - The USB device is a scripted transport: a queue of packets the bulk
      IN endpoint will deliver, the control writes it will not acknowledge
      in full and the log of the control writes received so far.
    - [array.array('B')] buffers are [list byte]; NumPy [uint16] arrays are
      lists of rows of [Z] samples, with the wrap-around of [uint16]
      arithmetic written out ([np.frombuffer] reads samples in the byte
      order of the host, little-endian here).
    - Python indices are [Z]; negative indices and slice clipping follow
      Python. *)

From Stdlib Require Import ZArith Lia.
From Stdlib Require Import Strings.Byte.
From stdpp Require Import base tactics option list sorting strings gmap.

Open Scope Z_scope.

(** ** Exceptions and the error monad *)

Inductive exn : Set :=
  | IOError | AssertionError | USBError | IndexError
  | TypeError | ValueError | AttributeError.

Inductive result (A : Type) : Type :=
  | Ok (a : A)
  | Raise (e : exn).
Arguments Ok {A} a.
Arguments Raise {A} e.

Global Instance exn_eq_dec : EqDecision exn.
Proof. solve_decision. Defined.

Global Instance result_eq_dec {A} `{EqDecision A} : EqDecision (result A).
Proof. solve_decision. Defined.

Global Instance byte_eq_dec : EqDecision byte := Byte.byte_eq_dec.

Global Instance result_ret : MRet result := λ A a, Ok a.
Global Instance result_bind : MBind result := λ A B f m,
  match m with Ok a => f a | Raise e => Raise e end.

(** ** Python sequences *)

Definition len {A} (l : list A) : Z := Z.of_nat (length l).

(** [l[i]]: a negative index counts from the end, an index out of range
    raises [IndexError]. *)
Definition getitem {A} (l : list A) (i : Z) : result A :=
  let k := if i <? 0 then i + len l else i in
  if (0 <=? k) && (k <? len l)
  then match l !! Z.to_nat k with Some x => Ok x | None => Raise IndexError end
  else Raise IndexError.

(** A slice bound, as [slice.indices] normalises it for a sequence of
    [n] items. *)
Definition slice_bound (n i : Z) : nat :=
  Z.to_nat (if i <? 0 then Z.max (i + n) 0 else Z.min i n).

(** [l[lo:hi]]: clipped to the sequence, never an error. *)
Definition slice {A} (lo hi : Z) (l : list A) : list A :=
  let a := slice_bound (len l) lo in
  let b := slice_bound (len l) hi in
  take (b - a) (drop a l).

(** ** NumPy arrays of [uint16] *)

Abbreviation ndarray := (list (list Z)).

Definition int_of_byte (b : byte) : Z := Z.of_N (Byte.to_N b).

Definition u16_le (lo hi : byte) : Z := int_of_byte lo + 256 * int_of_byte hi.

(** [np.frombuffer(buf, dtype=np.uint16)] *)
Fixpoint frombuffer_u16 (buf : list byte) : result (list Z) :=
  match buf with
  | [] => Ok []
  | [_] => Raise ValueError
  | lo :: hi :: rest => t ← frombuffer_u16 rest; Ok (u16_le lo hi :: t)
  end.

Fixpoint rows_of (h w : nat) (flat : list Z) : list (list Z) :=
  match h with
  | O => []
  | S h' => take w flat :: rows_of h' w (drop w flat)
  end.

(** [flat.reshape(h, w)] *)
Definition reshape (flat : list Z) (h w : Z) : result ndarray :=
  if len flat =? h * w
  then Ok (rows_of (Z.to_nat h) (Z.to_nat w) flat)
  else Raise ValueError.

(** The wrap-around of [uint16] subtraction. *)
Definition sub_u16 (a b : Z) : Z := (a - b) mod 65536.

(** [a - k] for a [uint16] array and a Python int that fits [uint16]: the
    result keeps the dtype [uint16]. *)
Definition sub_scalar (a : ndarray) (k : Z) : ndarray :=
  (λ row : list Z, (λ x, sub_u16 x k) <$> row) <$> a.

(** [a - b] for two [uint16] arrays.  Both operands of the program have
    the same shape; differing shapes raise [ValueError] (broadcasting of
    unit dimensions is not modelled). *)
Definition sub_arrays (a b : ndarray) : result ndarray :=
  if bool_decide (length <$> a = length <$> b)
  then Ok (zip_with (zip_with sub_u16) a b)
  else Raise ValueError.

(** ** The constants of the module *)

Definition READ_CHIP_ID : Z := 54.
Definition START_GET_IMAGE_TRANSFER : Z := 83.
Definition GET_OPERATION_MODE : Z := 61.
Definition GET_IMAGE_PROCESSING_MODE : Z := 63.
Definition GET_FIRMWARE_INFO : Z := 78.
Definition GET_FACTORY_SETTINGS : Z := 88.
Definition SET_OPERATION_MODE : Z := 60.
Definition SET_IMAGE_PROCESSING_MODE : Z := 62.
Definition SET_FIRMWARE_INFO_FEATURES : Z := 85.
Definition SET_FACTORY_SETTINGS_FEATURES : Z := 86.

Definition WIDTH : Z := 320.
Definition HEIGHT : Z := 240.
Definition RAW_WIDTH : Z := 342.
Definition RAW_HEIGHT : Z := 260.

(** ** The USB device *)

Record ControlRequest : Type := mkControlRequest {
  bmRequestType : Z;
  bRequest : Z;
  wValue : Z;
  wIndex : Z;
  payload : list byte }.

Global Instance ControlRequest_eq_dec : EqDecision ControlRequest.
Proof. solve_decision. Defined.

Record Device : Type := mkDevice {
  (** the script of the device's answers: the entries for a control
      write, in their order, are what [ctrl_transfer] returns the
      successive times that write is sent, a number of bytes or [None]
      for a USB error; a write with no entry left is acknowledged in
      full *)
  ctrl_faults : list (ControlRequest * option Z);
  (** the control writes received so far, oldest first *)
  ctrl_log : list ControlRequest;
  (** the packets endpoint 0x81 will deliver, in order *)
  bulk_in : list (list byte) }.

Global Instance Device_eq_dec : EqDecision Device.
Proof. solve_decision. Defined.

(** The answer to the write [rq] of a device that has received the
    writes [log]: the entry of the script for this sending of [rq], the
    earlier entries for [rq] having answered its earlier sendings; a
    write sent more often than the script has entries for it is
    acknowledged in full.  So the same write can be acknowledged at one
    time and refused at another. *)
Definition answer (faults : list (ControlRequest * option Z))
    (log : list ControlRequest) (rq : ControlRequest) : option Z :=
  match filter (λ e, e.1 = rq) faults
          !! length (filter (λ r, r = rq) log) with
  | Some e => e.2
  | None => Some (len (payload rq))
  end.

(** What [ctrl_transfer] returns for a write, now. *)
Definition ctrl_ack (d : Device) (rq : ControlRequest) : option Z :=
  answer (ctrl_faults d) (ctrl_log d) rq.

Definition set_bulk_in (d : Device) (q : list (list byte)) : Device :=
  mkDevice (ctrl_faults d) (ctrl_log d) q.

Definition ctrl_transfer (d : Device) (rq : ControlRequest) : result (Z * Device) :=
  match ctrl_ack d rq with
  | None => Raise USBError
  | Some n => Ok (n, mkDevice (ctrl_faults d) (ctrl_log d ++ [rq]) (bulk_in d))
  end.

(** [dev.read(0x81, size, timeout)]: one bulk transfer.  An empty queue is
    a timeout, a packet larger than [size] an overflow; both are USB
    errors. *)
Definition dev_read (d : Device) (size : Z) : result (list byte * Device) :=
  match bulk_in d with
  | [] => Raise USBError
  | pkt :: rest =>
      if len pkt <=? size then Ok (pkt, set_bulk_in d rest) else Raise USBError
  end.

(** [send_msg(bRequest, data)], with the default [wValue=0], [wIndex=0],
    [bmRequestType=0x41] every call site uses. *)
Definition send_msg (d : Device) (request : Z) (data : list byte) : result Device :=
  '(n, d) ← ctrl_transfer d (mkControlRequest 0x41 request 0 0 data);
  if n =? len data then Ok d else Raise AssertionError.

(** ** [SeekPro.grab] *)

(** The loop [while remaining > 512: ret += self.dev.read(0x81, 13680, 1000)],
    by recursion on the packets still queued at the endpoint. *)
Fixpoint read_until (toread : Z) (ret : list byte) (queue : list (list byte))
  : result (list byte * list (list byte)) :=
  if toread - len ret >? 512 then
    match queue with
    | [] => Raise USBError
    | pkt :: rest =>
        if len pkt <=? 13680 then read_until toread (ret ++ pkt) rest
        else Raise USBError
    end
  else Ok (ret, queue).

(** The request and the reads of [grab]: the buffer accumulated when the
    loop exits, and the device after it. *)
Definition grab_read (d : Device) : result (list byte * Device) :=
  d ← send_msg d START_GET_IMAGE_TRANSFER [x58; x5b; x01; x00];
  let toread := 2 * RAW_WIDTH * RAW_HEIGHT in
  '(ret, d) ← dev_read d 13680;
  '(ret, queue) ← read_until toread ret (bulk_in d);
  Ok (ret, set_bulk_in d queue).

(** What [grab] makes of the accumulated buffer. *)
Definition grab_result (ret : list byte) : result (Z * option ndarray) :=
  status ← getitem ret 4;
  if len ret =? RAW_HEIGHT * RAW_WIDTH * 2 then
    flat ← frombuffer_u16 ret;
    img ← reshape flat RAW_HEIGHT RAW_WIDTH;
    Ok (int_of_byte status, Some img)
  else Ok (int_of_byte status, None).

Definition grab (d : Device) : result (Z * option ndarray * Device) :=
  '(ret, d) ← grab_read d;
  '(status, img) ← grab_result ret;
  Ok (status, img, d).

(** ** [SeekPro.crop] *)

(** A Python value that is an array or [None] is an [option ndarray];
    subscripting [None] raises [TypeError]. *)
Definition crop (raw_img : option ndarray) : result ndarray :=
  match raw_img with
  | None => Raise TypeError
  | Some a => Ok (slice 1 (1 + WIDTH) <$> slice 4 (4 + HEIGHT) a)
  end.

(** ** [SeekPro.get_dead_pix_list] *)

(** [np.where(img < t)], zipped into a list: the coordinates of the
    samples below [t], in row-major order. *)
Definition where_lt (img : ndarray) (t : Z) : list (Z * Z) :=
  concat (imap (λ r row,
    omap id (imap (λ c v,
      if v <? t then Some (Z.of_nat r, Z.of_nat c) else None) row)) img).

(** [np.frombuffer] over an array of [uint16] reads the array's own
    samples back, flattened in C order; over [None] it raises
    [TypeError]. *)
Definition get_dead_pix_list (data : option ndarray) : result (list (Z * Z)) :=
  match data with
  | None => Raise TypeError
  | Some a =>
      raw ← reshape (concat a) RAW_HEIGHT RAW_WIDTH;
      img ← crop (Some raw);
      Ok (where_lt img 100)
  end.

(** ** [SeekPro.correct_dead_pix] *)

(** The result of [np.median]: NaN for an empty array, otherwise the
    middle sample or the mean of the two middle ones.  The mean of two
    [uint16] samples is a multiple of one half far below 2^53, so the
    double is exact and is kept as twice its value. *)
Inductive float64 : Set :=
  | NaN
  | Halves (twice : Z).

Fixpoint insert_sorted (x : Z) (l : list Z) : list Z :=
  match l with
  | [] => [x]
  | y :: t => if x <=? y then x :: l else y :: insert_sorted x t
  end.

Definition sort (l : list Z) : list Z := foldr insert_sorted [] l.

Definition np_median (l : list Z) : float64 :=
  let s := sort l in
  let n := length l in
  match n with
  | O => NaN
  | _ =>
      if Nat.even n
      then Halves (s !!! (n / 2 - 1)%nat + s !!! (n / 2)%nat)
      else Halves (2 * s !!! (n / 2)%nat)
  end.

(** Storing a double into a [uint16] array truncates it toward zero; a
    median of [uint16] samples lies in the range of [uint16], so no
    wrap-around applies.  A NaN is stored as 0, NumPy only warning of an
    invalid value in the cast, so the store itself raises nothing; a
    NaN arises from an empty window only, which no pixel inside the
    array has. *)
Definition to_u16 (v : float64) : result Z :=
  match v with
  | NaN => Ok 0
  | Halves t => Ok (Z.quot t 2)
  end.

(** An index into an axis of [n] items. *)
Definition norm_index (n i : Z) : result nat :=
  let k := if i <? 0 then i + n else i in
  if (0 <=? k) && (k <? n) then Ok (Z.to_nat k) else Raise IndexError.

Definition ncols (img : ndarray) : Z :=
  match img with
  | [] => 0
  | row :: _ => len row
  end.

(** [img[i, j] = v] *)
Definition setitem2 (img : ndarray) (i j : Z) (v : float64) : result ndarray :=
  r ← norm_index (len img) i;
  c ← norm_index (ncols img) j;
  x ← to_u16 v;
  Ok (alter (<[c := x]>) r img).

(** [img[max(0,i-1):i+2, max(0,j-1):j+2]] *)
Definition window (img : ndarray) (i j : Z) : ndarray :=
  slice (Z.max 0 (j - 1)) (j + 2) <$> slice (Z.max 0 (i - 1)) (i + 2) img.

(** One turn of the loop of [correct_dead_pix], on the value of the
    array. *)
Definition correct_pixel (img : ndarray) (p : Z * Z) : result ndarray :=
  let '(i, j) := p in
  setitem2 img i j (np_median (concat (window img i j))).
Arguments correct_pixel : simpl never.

(** Arrays are objects: a store maps references to array values. *)
Abbreviation store := (gmap nat ndarray).

Definition deref (σ : store) (a : nat) : result ndarray :=
  match σ !! a with
  | Some img => Ok img
  | None => Raise TypeError
  end.

(** The loop [for i,j in self.dead_pixels: img[i,j] = np.median(...)] on
    the array object [a]. *)
Fixpoint correct_pixels (dead : list (Z * Z)) (a : nat) (σ : store)
  : result store :=
  match dead with
  | [] => Ok σ
  | p :: rest =>
      img ← deref σ a;
      img' ← correct_pixel img p;
      correct_pixels rest a (<[a := img']> σ)
  end.

(** An attribute that was never assigned raises [AttributeError]. *)
Definition attr {A} (field : option A) : result A :=
  match field with
  | Some v => Ok v
  | None => Raise AttributeError
  end.

Definition correct_dead_pix (dead_pixels : option (list (Z * Z)))
    (img : nat) (σ : store) : result (nat * store) :=
  dead ← attr dead_pixels;
  σ ← correct_pixels dead img σ;
  Ok (img, σ).

(** ** [SeekPro.init] *)

(** [range(lo, hi, step)] for a positive step. *)
Definition py_range (lo hi step : Z) : list Z :=
  (λ k, lo + step * k) <$> seqZ 0 ((hi - lo + step - 1) / step).

(** [bytes([...])] *)
Definition bytes_of (l : list Z) : result (list byte) :=
  mapM (λ x,
    if (0 <=? x) && (x <? 256)
    then match Byte.of_N (Z.to_N x) with
         | Some b => Ok b
         | None => Raise ValueError
         end
    else Raise ValueError) l.

Fixpoint for_each {A S} (xs : list A) (body : A → S → result S) (s : S)
  : result S :=
  match xs with
  | [] => Ok s
  | x :: rest => s ← body x s; for_each rest body s
  end.

Definition init (d : Device) : result Device :=
  d ← send_msg d SET_OPERATION_MODE [x00; x00];
  d ← send_msg d SET_FACTORY_SETTINGS_FEATURES [x06; x00; x08; x00; x00; x00];
  d ← send_msg d SET_FIRMWARE_INFO_FEATURES [x17; x00];
  d ← send_msg d SET_FACTORY_SETTINGS_FEATURES [x01; x00; x00; x06; x00; x00];
  d ← for_each (py_range 0 10 1) (λ i,
         for_each (py_range 0 256 32) (λ j d,
           ji ← bytes_of [j; i];
           send_msg d SET_FACTORY_SETTINGS_FEATURES
             ([x20; x00] ++ ji ++ [x00; x00]))) d;
  d ← send_msg d SET_FIRMWARE_INFO_FEATURES [x15; x00];
  d ← send_msg d SET_IMAGE_PROCESSING_MODE [x08; x00];
  send_msg d SET_OPERATION_MODE [x01; x00].

(** ** [SeekPro.deinit] *)

Definition deinit (d : Device) : result Device :=
  for_each (py_range 0 3 1) (λ _ d, send_msg d 0x3C [x00; x00]) d.

(** ** The session object *)

Record SeekPro : Type := mkSeekPro {
  dev : Device;
  calib : option ndarray;
  (** [None] while the attribute is not assigned *)
  dead_pixels : option (list (Z * Z)) }.

Global Instance SeekPro_eq_dec : EqDecision SeekPro.
Proof. solve_decision. Defined.

Definition set_dev (s : SeekPro) (d : Device) : SeekPro :=
  mkSeekPro d (calib s) (dead_pixels s).

Definition set_calib (s : SeekPro) (c : ndarray) : SeekPro :=
  mkSeekPro (dev s) (Some c) (dead_pixels s).

(** ** [SeekPro.__init__] *)

Definition warning : string := "Could not get the dead pixels frame!".

(** The loop [for i in range(5)] of the constructor, with its two
    [break]s; the result is the attribute [dead_pixels] (unassigned if
    the loop ran out), the device and what was printed. *)
Fixpoint discover (indices : list Z) (d : Device) (out : list string)
  : result (option (list (Z * Z)) * Device * list string) :=
  match indices with
  | [] => Ok (None, d, out)
  | i :: rest =>
      if i =? 4 then Ok (Some [], d, out ++ [warning])
      else
        d ← init d;
        '(status, ret, d) ← grab d;
        if status =? 4 then
          dp ← get_dead_pix_list ret;
          Ok (Some dp, d, out)
        else discover rest d out
  end.

(** [found] is what [usb.core.find] returns; [set_configuration] is taken
    to succeed. *)
Definition __init__ (found : option Device) : result (SeekPro * list string) :=
  match found with
  | None => Raise IOError
  | Some d =>
      '(dp, d, out) ← discover (py_range 0 5 1) d [];
      Ok (mkSeekPro d None dp, out)
  end.

(** ** [SeekPro.get_image] *)

(** One turn of [while True]: either an image is returned or the loop
    goes on ([None]) with the updated session.  The difference
    [self.crop(img) - self.calib] is a fresh array object, the only one
    of the store [correct_dead_pix] runs on; what is returned is the
    array behind the reference [correct_dead_pix] returns. *)
Definition get_image_iter (s : SeekPro) : result (option ndarray * SeekPro) :=
  '(status, img, d) ← grab (dev s);
  let s := set_dev s d in
  if status =? 1 then
    c ← crop img;
    Ok (None, set_calib s (sub_scalar c 1600))
  else if status =? 3 then
    match calib s with
    | Some cal =>
        c ← crop img;
        diff ← sub_arrays c cal;
        '(a, σ) ← correct_dead_pix (dead_pixels s) 0%nat {[ 0%nat := diff ]};
        out ← deref σ a;
        Ok (Some out, s)
    | None => Ok (None, s)
    end
  else Ok (None, s).

(** The loop itself; [None] when [fuel] turns were not enough. *)
Fixpoint get_image_loop (fuel : nat) (s : SeekPro)
  : option (result (ndarray * SeekPro)) :=
  match fuel with
  | O => None
  | S fuel =>
      match get_image_iter s with
      | Raise e => Some (Raise e)
      | Ok (Some img, s) => Some (Ok (img, s))
      | Ok (None, s) => get_image_loop fuel s
      end
  end.

(** Every turn takes at least one packet from the endpoint, so one turn
    per queued packet and one more always suffice. *)
Definition get_image (s : SeekPro) : option (result (ndarray * SeekPro)) :=
  get_image_loop (S (length (bulk_in (dev s)))) s.

(** * Notions for the statements

    What follows is not part of [seekpro.py]: the shapes and samples the
    statements speak of, the neighbourhood and the synthetic frames of
    the specification, and the loops read as functions on values. *)

(** The start request of [grab]. *)
Definition start_request : ControlRequest :=
  mkControlRequest 0x41 START_GET_IMAGE_TRANSFER 0 0 [x58; x5b; x01; x00].

(** The write of [deinit]. *)
Definition reset_request : ControlRequest :=
  mkControlRequest 0x41 SET_OPERATION_MODE 0 0 [x00; x00].

(** ** Shapes and samples *)

Section Shapes.
Local Open Scope nat_scope.

(** The sample at row [r], column [c]. *)
Definition pix (img : ndarray) (r c : nat) : option Z :=
  img !! r ≫= (.!! c).

(** An array of [h] rows and [w] columns. *)
Definition rect (h w : nat) (img : ndarray) : Prop :=
  length img = h ∧ Forall (λ row, length row = w) img.

End Shapes.

(** The sample at row [r], column [c] of an array that has one. *)
Definition sample (img : ndarray) (r c : Z) : Z :=
  default 0 (pix img (Z.to_nat r) (Z.to_nat c)).

(** A coordinate inside an array of [h] rows and [w] columns. *)
Definition inside (h w : nat) (p : Z * Z) : Prop :=
  (0 ≤ p.1 < Z.of_nat h) ∧ (0 ≤ p.2 < Z.of_nat w).

(** The neighbourhood of the specification: the rectangle
    [row-1, row+2) x [col-1, col+2) intersected with the bounds of an
    array of [h] rows and [w] columns, in row-major order. *)
Definition clipped_neighborhood (h w : Z) (i j : Z) : list (Z * Z) :=
  let r0 := Z.max 0 (i - 1) in
  let r1 := Z.min h (i + 2) in
  let c0 := Z.max 0 (j - 1) in
  let c1 := Z.min w (j + 2) in
  concat ((λ r, (λ c, (r, c)) <$> seqZ c0 (c1 - c0)) <$> seqZ r0 (r1 - r0)).

(** Two coordinates each in the 3x3 window of the other. *)
Definition adjacent (p q : Z * Z) : Prop :=
  Z.abs (p.1 - q.1) ≤ 1 ∧ Z.abs (p.2 - q.2) ≤ 1.

Global Instance inside_dec h w p : Decision (inside h w p).
Proof. unfold inside. apply _. Defined.

Global Instance adjacent_dec p q : Decision (adjacent p q).
Proof. unfold adjacent. apply _. Defined.

(** The loop of [correct_dead_pix] on the value of the array. *)
Fixpoint dead_pix_pass (dead : list (Z * Z)) (img : ndarray) : result ndarray :=
  match dead with
  | [] => Ok img
  | p :: rest => img' ← correct_pixel img p; dead_pix_pass rest img'
  end.

(** The value [img[i, j] = np.median(...)] stores for a window [l]. *)
Definition median_value (l : list Z) : Z :=
  match np_median l with
  | Halves t => Z.quot t 2
  | NaN => 0
  end.

(** [img] with the sample at row [r], column [c] replaced by [v]. *)
Definition upd (img : ndarray) (r c : nat) (v : Z) : ndarray :=
  alter (<[c := v]>) r img.

(** The number of items of [l] that satisfy [p]. *)
Fixpoint countb (p : Z → bool) (l : list Z) : nat :=
  match l with
  | [] => 0%nat
  | x :: t => ((if p x then 1 else 0) + countb p t)%nat
  end.

(** The correction as the specification words it: the sample at [p]
    replaced by the median of the samples at the coordinates of the
    clipped neighbourhood of [p], in an image of [h] rows and [w]
    columns. *)
Definition clipped_median_step (h w : nat) (img : ndarray) (p : Z * Z)
  : ndarray :=
  upd img (Z.to_nat p.1) (Z.to_nat p.2)
    (median_value
       ((λ q, sample img q.1 q.2) <$>
          clipped_neighborhood (Z.of_nat h) (Z.of_nat w) p.1 p.2)).

(** [m] has at most [k] items of [l] below it and at most [k] above. *)
Definition balanced (k : nat) (m : Z) (l : list Z) : Prop :=
  (countb (λ x, (x <? m)%Z) l ≤ k)%nat ∧
  (countb (λ x, (m <? x)%Z) l ≤ k)%nat.

(** One correction of a pixel inside the array, as a total function. *)
Definition step (img : ndarray) (p : Z * Z) : ndarray :=
  upd img (Z.to_nat p.1) (Z.to_nat p.2)
    (median_value (concat (window img p.1 p.2))).

(** A session whose calibration reference, if any, and whose dead
    pixels fit the 240x320 image. *)
Definition ready (s : SeekPro) : Prop :=
  match calib s with
  | Some cal => rect 240 320 cal
  | None => True
  end ∧
  match dead_pixels s with
  | Some dead => Forall (inside 240 320) dead
  | None => False
  end.

Global Instance rect_dec h w img : Decision (rect h w img).
Proof. unfold rect. apply _. Defined.

Global Instance ready_dec s : Decision (ready s).
Proof.
  unfold ready. destruct (calib s), (dead_pixels s); apply _.
Defined.

(** The turns of the loop of [get_image] that deliver nothing: from a
    session, the status and frame each turn grabbed, and the session they
    lead to. *)
Inductive turns : SeekPro → list (Z * option ndarray) → SeekPro → Prop :=
  | turns_nil s : turns s [] s
  | turns_cons s status img d s1 obs s2 :
      grab (dev s) = Ok (status, img, d) →
      get_image_iter s = Ok (None, s1) →
      turns s1 obs s2 →
      turns s ((status, img) :: obs) s2.

(** A raw frame that carries the pattern [P]: [top] rows above it,
    [bottom] rows below, and [left] and [right] border samples around
    each of its rows. *)
Definition inverse_crop (top bottom : ndarray) (left right : list (list Z))
    (P : ndarray) : ndarray :=
  top ++ zip_with (λ l pr, l ++ pr) left (zip_with (λ p r, p ++ r) P right)
      ++ bottom.

(** The samples of [P] offset by those of [K], as [uint16] holds them. *)
Definition add_u16 (P K : ndarray) : ndarray :=
  zip_with (zip_with (λ p k, (p + k) mod 65536)) P K.

(** An array whose samples are in the range of [uint16]. *)
Definition is_u16 (a : ndarray) : Prop :=
  Forall (Forall (λ x, 0 ≤ x < 65536)) a.

(** One round of the discovery loop: [self.init()] then [self.grab()]. *)
Definition attempt (d : Device) : result (Z * option ndarray * Device) :=
  init d ≫= grab.

(** The device after [n] rounds that each returned a status other than
    4; [None] if one of them raised or returned status 4. *)
Fixpoint failed_attempts (n : nat) (d : Device) : option Device :=
  match n with
  | O => Some d
  | S n =>
      match attempt d with
      | Ok (status, _, d') =>
          if status =? 4 then None else failed_attempts n d'
      | Raise _ => None
      end
  end.

(** The device after it has received the control writes [l]. *)
Definition logged (d : Device) (l : list ControlRequest) : Device :=
  mkDevice (ctrl_faults d) (ctrl_log d ++ l) (bulk_in d).

(** A control write the device acknowledges in full. *)
Definition acked (d : Device) (rq : ControlRequest) : Prop :=
  ctrl_ack d rq = Some (len (payload rq)).

Global Instance acked_dec d rq : Decision (acked d rq).
Proof. unfold acked. apply _. Defined.

(** What [send_msg] raises for a write the device does not acknowledge in
    full. *)
Definition refusal (d : Device) (rq : ControlRequest) : exn :=
  match ctrl_ack d rq with
  | None => USBError
  | Some _ => AssertionError
  end.

(** The writes [l] sent one after the other with [send_msg]. *)
Fixpoint send_all (l : list ControlRequest) (d : Device) : result Device :=
  match l with
  | [] => Ok d
  | rq :: rest => d ← send_msg d (bRequest rq) (payload rq); send_all rest d
  end.

(** The first of the writes [l] that the device does not acknowledge in
    full. *)
Fixpoint first_refused (d : Device) (l : list ControlRequest)
  : option ControlRequest :=
  match l with
  | [] => None
  | rq :: rest => if decide (acked d rq) then first_refused d rest else Some rq
  end.

(** Row-major order of coordinates: by row, then by column. *)
Definition row_major (p q : Z * Z) : Prop :=
  p.1 < q.1 ∨ (p.1 = q.1 ∧ p.2 < q.2).

(** ** Scripted devices and frames for the examples *)

Module Mock.

(** A device that acknowledges every control write in full. *)
Definition device (queue : list (list byte)) : Device :=
  mkDevice [] [] queue.

(** A packet of [n] bytes (n even) repeating the sample [hi:lo]. *)
Definition packet (n : Z) (lo hi : byte) : list byte :=
  concat (replicate (Z.to_nat (n / 2)) [lo; hi]).

(** The packets of one frame whose samples all are [hi:lo], with the
    given status byte, the last packet short by [missing] bytes. *)
Definition frame (status lo hi : byte) (missing : Z) : list (list byte) :=
  <[4%nat := status]> (packet 13680 lo hi)
    :: replicate 11 (packet 13680 lo hi) ++ [packet (13680 - missing) lo hi].

(** Overwrite the sample that [crop] maps to row [r], column [c]. *)
Definition poke (r c : Z) (lo hi : byte) (pkts : list (list byte))
  : list (list byte) :=
  let off := 2 * ((r + 4) * RAW_WIDTH + (c + 1)) in
  let k := Z.to_nat (off / 13680) in
  let o := Z.to_nat (off mod 13680) in
  alter (λ p, <[o := lo]> (<[S o := hi]> p)) k pkts.

(** The array all of whose samples are [v]. *)
Definition uniform (h w : Z) (v : Z) : ndarray :=
  replicate (Z.to_nat h) (replicate (Z.to_nat w) v).

(** The control writes of the handshake, as the specification lists
    them. *)
Definition write (request : Z) (data : list byte) : ControlRequest :=
  mkControlRequest 0x41 request 0 0 data.

Definition byte_of (x : Z) : byte := default x00 (Byte.of_N (Z.to_N x)).

Definition handshake : list ControlRequest :=
  [write SET_OPERATION_MODE [x00; x00];
   write SET_FACTORY_SETTINGS_FEATURES [x06; x00; x08; x00; x00; x00];
   write SET_FIRMWARE_INFO_FEATURES [x17; x00];
   write SET_FACTORY_SETTINGS_FEATURES [x01; x00; x00; x06; x00; x00]]
  ++ concat ((λ i, (λ j,
       write SET_FACTORY_SETTINGS_FEATURES
         [x20; x00; byte_of j; byte_of i; x00; x00])
       <$> [0; 32; 64; 96; 128; 160; 192; 224]) <$> seqZ 0 10)
  ++ [write SET_FIRMWARE_INFO_FEATURES [x15; x00];
      write SET_IMAGE_PROCESSING_MODE [x08; x00];
      write SET_OPERATION_MODE [x01; x00]].

(** The control writes a device has received after [n] rounds of
    [init] and [grab]. *)
Definition rounds (n : nat) : list ControlRequest :=
  concat (replicate n (handshake ++ [start_request])).

(** The packets of a frame of samples 10000 with the given status byte
    and the samples 5 and 7 at the two ends of the cropped image, and the
    grid [grab] makes of them. *)
Definition marked_frame (status : byte) : list (list byte) :=
  poke 0 0 x05 x00 (poke 239 319 x07 x00 (frame status x10 x27 0)).

Definition marked_grid (status : Z) : ndarray :=
  <[0%nat := <[2%nat := 9984 + status]> (replicate 342 10000)]>
    (<[4%nat := <[1%nat := 5]> (replicate 342 10000)]>
       (<[243%nat := <[320%nat := 7]> (replicate 342 10000)]>
          (uniform 260 342 10000))).

(** A 240x320 array of tens whose first two samples are zero. *)
Definition corner_image : ndarray :=
  <[0%nat := 0 :: 0 :: replicate 318 10]> (uniform 240 320 10).

End Mock.

(** * Properties *)

(** ** The error monad *)

Ltac bind_inv H :=
  lazymatch type of H with
  | (?m ≫= _) = Ok _ =>
      let E := fresh "E" in
      destruct m as [?|?] eqn:E; simpl in H; [|discriminate H]
  end.

Lemma bind_Ok_l {A B} (a : A) (f : A → result B) : Ok a ≫= f = f a.
Proof. reflexivity. Qed.

Lemma bind_Raise_l {A B} (e : exn) (f : A → result B) :
  Raise e ≫= f = Raise e.
Proof. reflexivity. Qed.

(** Reduce the binds whose left operand is known, without unfolding
    anything else. *)
Ltac step_bind :=
  rewrite ?bind_Ok_l, ?bind_Raise_l; cbv beta iota.

(** Settle a closed decidable proposition by running its decision
    procedure. *)
Ltac by_compute :=
  lazymatch goal with
  | |- @eq ?A ?x ?y =>
      let dec := constr:(_ : EqDecision A) in
      refine (@bool_decide_eq_true_1 (x = y) (dec x y) _);
      vm_compute; reflexivity
  | |- ?P => apply (bool_decide_eq_true_1 P); vm_compute; reflexivity
  end.

Lemma toread_eq : 2 * RAW_WIDTH * RAW_HEIGHT = 177840.
Proof. reflexivity. Qed.

Lemma frame_size_eq : RAW_HEIGHT * RAW_WIDTH * 2 = 177840.
Proof. reflexivity. Qed.

(** ** Sequences *)

Lemma len_app {A} (l k : list A) : len (l ++ k) = len l + len k.
Proof. unfold len. rewrite length_app. lia. Qed.


Lemma getitem_nonneg {A} (l : list A) (i : Z) :
  0 ≤ i < len l → ∃ x, l !! Z.to_nat i = Some x ∧ getitem l i = Ok x.
Proof.
  intros Hi. unfold getitem.
  destruct (i <? 0) eqn:E; [apply Z.ltb_lt in E; lia|].
  destruct (0 <=? i) eqn:E1; [|apply Z.leb_gt in E1; lia].
  destruct (i <? len l) eqn:E2; [|apply Z.ltb_ge in E2; lia].
  simpl. destruct (l !! Z.to_nat i) as [x|] eqn:Hx.
  - exists x. auto.
  - apply lookup_ge_None in Hx. unfold len in Hi. lia.
Qed.

(** ** The read loop of [grab] *)

Lemma read_until_Ok toread queue : ∀ ret ret' queue',
  read_until toread ret queue = Ok (ret', queue') →
  toread - len ret' ≤ 512 ∧
  ∃ taken, queue = taken ++ queue' ∧ ret' = ret ++ concat taken.
Proof.
  induction queue as [|pkt rest IH]; intros ret ret' queue' H; simpl in H.
  - destruct (toread - len ret >? 512) eqn:E; [discriminate|].
    injection H as <- <-. split; [lia|].
    exists []. simpl. by rewrite app_nil_r.
  - destruct (toread - len ret >? 512) eqn:E.
    + destruct (len pkt <=? 13680); [|discriminate].
      apply IH in H as (Hexit & taken & -> & ->).
      split; [done|]. exists (pkt :: taken). simpl. by rewrite app_assoc.
    + injection H as <- <-. split; [lia|].
      exists []. simpl. by rewrite app_nil_r.
Qed.



Lemma send_msg_Ok d request data d' :
  send_msg d request data = Ok d' →
  ctrl_ack d (mkControlRequest 0x41 request 0 0 data) = Some (len data) ∧
  d' = mkDevice (ctrl_faults d)
         (ctrl_log d ++ [mkControlRequest 0x41 request 0 0 data]) (bulk_in d).
Proof.
  unfold send_msg, ctrl_transfer. intros H.
  destruct (ctrl_ack d _) as [n|]; simpl in H; [|discriminate].
  destruct (n =? len data) eqn:E; [|discriminate].
  apply Z.eqb_eq in E. subst n. injection H as <-. done.
Qed.

Lemma send_msg_acked d request data :
  ctrl_ack d (mkControlRequest 0x41 request 0 0 data) = Some (len data) →
  send_msg d request data =
    Ok (mkDevice (ctrl_faults d)
          (ctrl_log d ++ [mkControlRequest 0x41 request 0 0 data]) (bulk_in d)).
Proof.
  unfold send_msg, ctrl_transfer. intros ->. simpl. by rewrite Z.eqb_refl.
Qed.

Lemma send_msg_exn d request data e :
  send_msg d request data = Raise e → e = USBError ∨ e = AssertionError.
Proof.
  unfold send_msg, ctrl_transfer.
  destruct (ctrl_ack d _) as [n|]; simpl; [|intros [= <-]; auto].
  destruct (n =? len data); [discriminate|intros [= <-]; auto].
Qed.

(** What [grab_read] returns is the concatenation of the packets it took
    from the queue, and it leaves at most 512 bytes missing. *)
Lemma grab_read_Ok d ret d' :
  grab_read d = Ok (ret, d') →
  177840 - len ret ≤ 512 ∧
  ctrl_ack d start_request = Some 4 ∧
  ∃ taken, bulk_in d = taken ++ bulk_in d' ∧ ret = concat taken ∧
    d' = mkDevice (ctrl_faults d) (ctrl_log d ++ [start_request]) (bulk_in d').
Proof.
  unfold grab_read. intros H. rewrite toread_eq in H.
  bind_inv H. apply send_msg_Ok in E as [Hack ->].
  unfold dev_read in H. simpl in H.
  destruct (bulk_in d) as [|pkt rest] eqn:Hq; [discriminate|].
  destruct (len pkt <=? 13680); [|discriminate]. simpl in H.
  bind_inv H. destruct a as [ret0 queue0]. injection H as <- <-.
  apply read_until_Ok in E as (Hexit & taken & -> & ->).
  split; [done|]. split; [done|].
  exists (pkt :: taken). done.
Qed.

Lemma grab_read_exn d e :
  grab_read d = Raise e → e = USBError ∨ e = AssertionError.
Proof.
  unfold grab_read. intros H.
  destruct (send_msg d _ _) as [d1|e1] eqn:E; simpl in H.
  - left. unfold dev_read in H.
    destruct (bulk_in d1) as [|pkt rest]; [by injection H|].
    destruct (len pkt <=? 13680); [|by injection H]. simpl in H.
    destruct (read_until _ _ _) as [[ret q]|e2] eqn:E2; simpl in H; [done|].
    injection H as <-. clear E.
    revert E2. generalize pkt. generalize (2 * RAW_WIDTH * RAW_HEIGHT).
    induction rest as [|p r IH]; intros t ret E2; simpl in E2.
    + destruct (t - len ret >? 512); congruence.
    + destruct (t - len ret >? 512); [|done].
      destruct (len p <=? 13680); [eauto|congruence].
  - injection H as <-. by eapply send_msg_exn.
Qed.

(** ** Arrays: shapes and samples *)

Section Arrays.
Local Open Scope nat_scope.

Lemma rect_row h w img r row :
  rect h w img → img !! r = Some row → length row = w.
Proof.
  intros [_ Hrows] Hr. rewrite Forall_forall in Hrows.
  apply Hrows. by eapply list_elem_of_lookup_2.
Qed.

Lemma rect_pix h w img r c :
  rect h w img → r < h → c < w → is_Some (pix img r c).
Proof.
  intros Hrect Hr Hc. unfold pix.
  destruct (img !! r) as [row|] eqn:E.
  - simpl. apply lookup_lt_is_Some. by rewrite (rect_row _ _ _ _ _ Hrect E).
  - apply lookup_ge_None in E. destruct Hrect as [Hh _]. lia.
Qed.

Lemma rect_ncols h w img : rect h w img → 0 < h → ncols img = Z.of_nat w.
Proof.
  intros [Hh Hrows] Hpos. destruct img as [|row rest]; simpl in *; [lia|].
  apply Forall_cons in Hrows as [Hrow _]. unfold len. by rewrite Hrow.
Qed.

Lemma frombuffer_u16_Ok : ∀ n buf flat,
  length buf ≤ n →
  frombuffer_u16 buf = Ok flat →
  length buf = 2 * length flat ∧
  ∀ k lo hi, buf !! (2 * k) = Some lo → buf !! (2 * k + 1) = Some hi →
             flat !! k = Some (u16_le lo hi).
Proof.
  induction n as [|n IH]; intros buf flat Hn H.
  - destruct buf; [|simpl in Hn; lia]. injection H as <-.
    split; [done|]. intros k lo hi Hlo. done.
  - destruct buf as [|lo [|hi rest]]; simpl in H.
    + injection H as <-. split; [done|]. intros k lo hi Hlo. done.
    + discriminate.
    + bind_inv H. injection H as <-.
      apply IH in E as [Hlen Hsamples]; [|simpl in Hn; lia].
      split; [simpl; lia|].
      intros [|k] lo' hi' Hlo Hhi.
      * simpl in *. congruence.
      * replace (2 * S k) with (S (S (2 * k))) in Hlo by lia.
        replace (2 * S k + 1) with (S (S (2 * k + 1))) in Hhi by lia.
        simpl in *. by apply Hsamples.
Qed.

Lemma frombuffer_u16_even : ∀ n buf,
  length buf = 2 * n → ∃ flat, frombuffer_u16 buf = Ok flat.
Proof.
  induction n as [|n IH]; intros buf Hlen.
  - destruct buf; [|done]. by exists [].
  - destruct buf as [|lo [|hi rest]]; simpl in Hlen; [lia|lia|].
    destruct (IH rest) as [flat Hflat]; [lia|].
    exists (u16_le lo hi :: flat). simpl. by rewrite Hflat.
Qed.

Lemma rows_of_length h w flat : length (rows_of h w flat) = h.
Proof. revert flat. induction h; intros; simpl; auto. Qed.

Lemma rows_of_lookup h w : ∀ flat r,
  r < h → rows_of h w flat !! r = Some (take w (drop (r * w) flat)).
Proof.
  induction h as [|h IH]; intros flat r Hr; [lia|].
  destruct r as [|r]; simpl; [done|].
  rewrite IH by lia. by rewrite drop_drop.
Qed.

Lemma rows_of_rect h w flat :
  length flat = h * w → rect h w (rows_of h w flat).
Proof.
  intros Hlen. split; [apply rows_of_length|].
  apply Forall_forall. intros row Hrow.
  apply list_elem_of_lookup in Hrow as [r Hr].
  assert (r < h) as Hlt.
  { apply lookup_lt_Some in Hr. by rewrite rows_of_length in Hr. }
  rewrite rows_of_lookup in Hr by done. injection Hr as <-.
  rewrite length_take, length_drop. nia.
Qed.

Lemma rows_of_pix h w flat r c :
  r < h → c < w → pix (rows_of h w flat) r c = flat !! (r * w + c).
Proof.
  intros Hr Hc. unfold pix. rewrite rows_of_lookup by done. simpl.
  rewrite lookup_take_lt by done. by rewrite lookup_drop.
Qed.

(** A slice with bounds inside the sequence. *)
Lemma slice_inside {A} (l : list A) (lo hi : nat) :
  lo ≤ hi → hi ≤ length l →
  slice (Z.of_nat lo) (Z.of_nat hi) l = take (hi - lo) (drop lo l).
Proof.
  intros Hlo Hhi. unfold slice, slice_bound, len.
  destruct (Z.of_nat lo <? 0)%Z eqn:E1; [apply Z.ltb_lt in E1; lia|].
  destruct (Z.of_nat hi <? 0)%Z eqn:E2; [apply Z.ltb_lt in E2; lia|].
  rewrite !Z.min_l by lia. by rewrite !Nat2Z.id.
Qed.

Lemma slice_lookup {A} (l : list A) (lo hi k : nat) :
  lo ≤ hi → hi ≤ length l → k < hi - lo →
  slice (Z.of_nat lo) (Z.of_nat hi) l !! k = l !! (lo + k).
Proof.
  intros Hlo Hhi Hk. rewrite slice_inside by done.
  rewrite lookup_take_lt by done. by rewrite lookup_drop.
Qed.

Lemma slice_length {A} (l : list A) (lo hi : nat) :
  lo ≤ hi → hi ≤ length l →
  length (slice (Z.of_nat lo) (Z.of_nat hi) l) = hi - lo.
Proof.
  intros Hlo Hhi. rewrite slice_inside by done.
  rewrite length_take, length_drop. lia.
Qed.

End Arrays.

(** ** [crop] *)

Lemma crop_slices (raw : ndarray) :
  crop (Some raw) =
    Ok (slice (Z.of_nat 1) (Z.of_nat 321) <$>
          slice (Z.of_nat 4) (Z.of_nat 244) raw).
Proof. reflexivity. Qed.

Lemma crop_rect (raw : ndarray) :
  rect 260 342 raw →
  ∃ img, crop (Some raw) = Ok img ∧ rect 240 320 img ∧
    ∀ r c, (r < 240)%nat → (c < 320)%nat →
      pix img r c = pix raw (r + 4) (c + 1).
Proof.
  intros Hrect. eexists. split; [apply crop_slices|].
  pose proof Hrect as [Hh Hrows].
  split; [split|].
  - rewrite length_fmap, slice_length; lia.
  - apply Forall_forall. intros row Hrow.
    apply list_elem_of_fmap in Hrow as (row' & -> & Hrow').
    apply list_elem_of_lookup in Hrow' as [k Hk].
    assert (k < 244 - 4)%nat as Hlt.
    { apply lookup_lt_Some in Hk. rewrite slice_length in Hk; lia. }
    rewrite slice_lookup in Hk by lia.
    rewrite slice_length; [done|lia|].
    rewrite (rect_row _ _ _ _ _ Hrect Hk). lia.
  - intros r c Hr Hc. unfold pix.
    rewrite list_lookup_fmap, slice_lookup by lia.
    replace (4 + r)%nat with (r + 4)%nat by lia.
    destruct (raw !! (r + 4)%nat) as [row|] eqn:E; simpl; [|done].
    rewrite slice_lookup; [f_equal; lia|lia| |lia].
    rewrite (rect_row _ _ _ _ _ Hrect E). lia.
Qed.

(** ** [grab]: what becomes of the accumulated buffer *)

Lemma grab_result_full (ret : list byte) :
  len ret = 177840 →
  ∃ status flat,
    getitem ret 4 = Ok status ∧ frombuffer_u16 ret = Ok flat ∧
    rect 260 342 (rows_of 260 342 flat) ∧
    grab_result ret = Ok (int_of_byte status, Some (rows_of 260 342 flat)).
Proof.
  intros Hlen.
  destruct (getitem_nonneg ret 4) as (status & _ & Hst); [lia|].
  destruct (frombuffer_u16_even (Z.to_nat 88920) ret) as [flat Hflat].
  { unfold len in Hlen. lia. }
  pose proof (frombuffer_u16_Ok _ _ _ (le_n _) Hflat) as [Hl _].
  exists status, flat. split; [done|]. split; [done|].
  split.
  { apply rows_of_rect. unfold len in Hlen. lia. }
  unfold grab_result. rewrite Hst. step_bind.
  rewrite frame_size_eq.
  destruct (len ret =? 177840) eqn:E; [|apply Z.eqb_neq in E; lia].
  rewrite Hflat. step_bind. unfold reshape.
  destruct (len flat =? RAW_HEIGHT * RAW_WIDTH) eqn:E1; [done|].
  apply Z.eqb_neq in E1. unfold len, RAW_HEIGHT, RAW_WIDTH in *. lia.
Qed.

Lemma grab_result_partial (ret : list byte) :
  5 ≤ len ret → len ret ≠ 177840 →
  ∃ status,
    getitem ret 4 = Ok status ∧ grab_result ret = Ok (int_of_byte status, None).
Proof.
  intros Hlen Hne.
  destruct (getitem_nonneg ret 4) as (status & _ & Hst); [lia|].
  exists status. split; [done|].
  unfold grab_result. rewrite Hst. step_bind. rewrite frame_size_eq.
  destruct (len ret =? 177840) eqn:E; [apply Z.eqb_eq in E; lia|done].
Qed.

Lemma grab_from_read d ret d' :
  grab_read d = Ok (ret, d') →
  ∃ status, getitem ret 4 = Ok status ∧
    (len ret = 177840 →
       ∃ flat, frombuffer_u16 ret = Ok flat ∧
         rect 260 342 (rows_of 260 342 flat) ∧
         grab d = Ok (int_of_byte status, Some (rows_of 260 342 flat), d')) ∧
    (len ret ≠ 177840 → grab d = Ok (int_of_byte status, None, d')).
Proof.
  intros Hread. pose proof Hread as (Hexit & _)%grab_read_Ok.
  destruct (getitem_nonneg ret 4) as (status & _ & Hst); [lia|].
  exists status. split; [done|]. unfold grab. rewrite Hread. step_bind. split.
  - intros Hlen.
    destruct (grab_result_full ret Hlen) as (st & flat & Hst' & Hflat & Hr & ->).
    exists flat. step_bind. split; [done|]. split; [done|]. congruence.
  - intros Hne.
    destruct (grab_result_partial ret) as (st & Hst' & ->); [lia|done|].
    step_bind. congruence.
Qed.

Lemma grab_exn d e : grab d = Raise e → e = USBError ∨ e = AssertionError.
Proof.
  intros H. destruct (grab_read d) as [[ret d']|e'] eqn:Hread.
  - destruct (grab_from_read _ _ _ Hread) as (st & _ & Hfull & Hpart).
    destruct (decide (len ret = 177840)) as [Heq|Hne].
    + destruct (Hfull Heq) as (flat & _ & _ & Hg). congruence.
    + rewrite (Hpart Hne) in H. discriminate.
  - unfold grab in H. rewrite Hread in H. injection H as <-.
    by eapply grab_read_exn.
Qed.

Lemma grab_Ok d status img d' :
  grab d = Ok (status, img, d') →
  ∃ ret, grab_read d = Ok (ret, d') ∧
    match img with
    | Some a => len ret = 177840 ∧ rect 260 342 a
    | None => len ret ≠ 177840
    end.
Proof.
  intros H. destruct (grab_read d) as [[ret d1]|e'] eqn:Hread.
  - destruct (grab_from_read _ _ _ Hread) as (st & _ & Hfull & Hpart).
    exists ret. destruct (decide (len ret = 177840)) as [Heq|Hne].
    + destruct (Hfull Heq) as (flat & _ & Hrect & Hg).
      revert Hrect Hg. generalize (rows_of 260 342 flat). intros a Hrect Hg.
      rewrite Hg in H. injection H as <- <- <-.
      split; [reflexivity|]. split; assumption.
    + rewrite (Hpart Hne) in H. injection H as <- <- <-.
      split; [reflexivity|assumption].
  - unfold grab in H. rewrite Hread in H. discriminate.
Qed.

(** Every [grab] that returns has taken at least one packet. *)
Lemma grab_consumes d status img d' :
  grab d = Ok (status, img, d') →
  (length (bulk_in d') < length (bulk_in d))%nat.
Proof.
  intros (ret & Hread & _)%grab_Ok.
  pose proof Hread as (Hexit & _ & taken & Hq & -> & _)%grab_read_Ok.
  rewrite Hq, length_app. destruct taken; simpl in *; [|lia].
  unfold len in Hexit. simpl in Hexit. lia.
Qed.

(** C9: whenever the read loop of grab() exits normally, the accumulated
    buffer holds at least 174960 - 512 = 174448 bytes (indeed at least
    2*342*260 - 512 = 177328, the bound the loop condition gives), so the
    status byte at index 4 is read in bounds; grab() never raises
    IndexError although it has no explicit length guard. *)
Theorem grab_status_in_bounds (d : Device) :
  grab d ≠ Raise IndexError ∧
  ∀ ret d', grab_read d = Ok (ret, d') →
    174448 ≤ len ret ∧
    2 * RAW_WIDTH * RAW_HEIGHT - 512 ≤ len ret ∧
    ∃ status, getitem ret 4 = Ok status.
Proof.
  split.
  - intros H. apply grab_exn in H as [H|H]; discriminate.
  - intros ret d' Hread.
    pose proof Hread as (Hexit & _)%grab_read_Ok.
    rewrite toread_eq. split; [lia|]. split; [lia|].
    destruct (getitem_nonneg ret 4) as (status & _ & Hst); [lia|eauto].
Qed.

Lemma grab_status_in_bounds_witness :
  174448 ≤ len (concat (Mock.frame x03 x10 x27 200)) ∧
  2 * RAW_WIDTH * RAW_HEIGHT - 512 ≤ len (concat (Mock.frame x03 x10 x27 200)) ∧
  ∃ status, getitem (concat (Mock.frame x03 x10 x27 200)) 4 = Ok status.
Proof.
  refine (proj2 (grab_status_in_bounds
                   (Mock.device (Mock.frame x03 x10 x27 200)))
            (concat (Mock.frame x03 x10 x27 200))
            (mkDevice [] [start_request] []) _).
  by_compute.
Defined.




(** C4, as the code has it: a raw frame holds 2*342*260 = 177840 bytes.
    For every buffer of exactly 177840 bytes, viewed as a 260x342 grid of
    little-endian 16-bit samples, crop yields a grid of exactly 240 rows
    by 320 columns whose sample at row r, column c is the source sample at
    row r+4, column c+1: source rows 4 (inclusive) to 244 (exclusive) and
    columns 1 (inclusive) to 321 (exclusive). *)
Theorem crop_exact (buf : list byte) :
  len buf = 2 * RAW_WIDTH * RAW_HEIGHT →
  ∃ flat raw img,
    frombuffer_u16 buf = Ok flat ∧
    reshape flat RAW_HEIGHT RAW_WIDTH = Ok raw ∧
    rect 260 342 raw ∧
    crop (Some raw) = Ok img ∧
    rect 240 320 img ∧
    ∀ r c, (r < 240)%nat → (c < 320)%nat →
      pix img r c = pix raw (r + 4) (c + 1) ∧
      ∃ lo hi,
        buf !! (2 * ((r + 4) * 342 + (c + 1)))%nat = Some lo ∧
        buf !! (2 * ((r + 4) * 342 + (c + 1)) + 1)%nat = Some hi ∧
        pix img r c = Some (u16_le lo hi).
Proof.
  rewrite toread_eq. intros Hlen.
  destruct (frombuffer_u16_even (Z.to_nat 88920) buf) as [flat Hflat].
  { unfold len in Hlen. lia. }
  pose proof (frombuffer_u16_Ok _ _ _ (le_n _) Hflat) as [Hl Hsamples].
  assert (length flat = 260 * 342)%nat as Hflen.
  { unfold len in Hlen. lia. }
  pose proof (rows_of_rect _ _ _ Hflen) as Hrect.
  assert (reshape flat RAW_HEIGHT RAW_WIDTH = Ok (rows_of 260 342 flat)) as Hr.
  { unfold reshape.
    destruct (len flat =? RAW_HEIGHT * RAW_WIDTH) eqn:E; [done|].
    apply Z.eqb_neq in E. unfold len, RAW_HEIGHT, RAW_WIDTH in E. lia. }
  revert Hrect Hr.
  pose proof (λ r c, rows_of_pix 260 342 flat r c) as Hpix. revert Hpix.
  generalize (rows_of 260 342 flat). intros raw Hpix Hrect Hr.
  destruct (crop_rect raw Hrect) as (img & Hcrop & Hrect' & Hcp).
  exists flat, raw, img. repeat (split; [assumption|]).
  intros r c Hlt_r Hlt_c. split; [by apply Hcp|].
  destruct (lookup_lt_is_Some_2 buf (2 * ((r + 4) * 342 + (c + 1)))%nat)
    as [lo Hlo]; [lia|].
  destruct (lookup_lt_is_Some_2 buf (2 * ((r + 4) * 342 + (c + 1)) + 1)%nat)
    as [hi Hhi]; [lia|].
  exists lo, hi. split; [done|]. split; [done|].
  rewrite Hcp, Hpix by lia. by apply Hsamples.
Qed.

Lemma crop_exact_witness :
  ∃ flat raw img,
    frombuffer_u16 (concat (Mock.frame x03 x10 x27 0)) = Ok flat ∧
    reshape flat RAW_HEIGHT RAW_WIDTH = Ok raw ∧
    crop (Some raw) = Ok img ∧
    rect 240 320 img.
Proof.
  destruct (crop_exact (concat (Mock.frame x03 x10 x27 0)))
    as (flat & raw & img & Hflat & Hraw & _ & Hcrop & Hrect & _);
    [by_compute|].
  exists flat, raw, img. auto.
Defined.

(** C4 as stated fails on the code: a buffer of 174960 bytes holds 87480
    samples, which is not 260*342 = 88920, so it has no view as a 260x342
    grid and there is nothing to crop. *)
Lemma crop_exact_counterexample :
  len (replicate (Z.to_nat 174960) x00) = 174960 ∧
  frombuffer_u16 (replicate (Z.to_nat 174960) x00) =
    Ok (replicate (Z.to_nat 87480) 0) ∧
  reshape (replicate (Z.to_nat 87480) 0) RAW_HEIGHT RAW_WIDTH =
    Raise ValueError.
Proof.
  split; [by_compute|]. split; by_compute.
Qed.

(** ** The window of a dead pixel *)

Lemma fmap_concat {A B} (f : A → B) (ls : list (list A)) :
  f <$> concat ls = concat ((λ l : list A, f <$> l) <$> ls).
Proof.
  induction ls as [|l ls IH]; simpl; [done|].
  by rewrite fmap_app, IH.
Qed.

(** A run of a sequence, read through the indices of the run. *)
Lemma take_drop_seqZ {A B} (l : list A) (a n : nat) (g : A → B) (f : Z → B) :
  (a + n ≤ length l)%nat →
  (∀ k x, (k < n)%nat → l !! (a + k)%nat = Some x →
          g x = f (Z.of_nat a + Z.of_nat k)) →
  g <$> take n (drop a l) = f <$> seqZ (Z.of_nat a) (Z.of_nat n).
Proof.
  intros Hlen Hgf. apply list_eq. intros k.
  rewrite !list_lookup_fmap.
  destruct (decide (k < n)%nat) as [Hk|Hk].
  - rewrite lookup_take_lt, lookup_drop by done.
    rewrite lookup_seqZ_lt by lia.
    destruct (lookup_lt_is_Some_2 l (a + k)%nat) as [x Hx]; [lia|].
    rewrite Hx. simpl. f_equal. by apply Hgf.
  - rewrite lookup_take_ge by lia. by rewrite lookup_seqZ_ge by lia.
Qed.

Lemma slice_window {A} (l : list A) (i : Z) :
  0 ≤ i < len l →
  let a := Z.to_nat (Z.max 0 (i - 1)) in
  let n := Z.to_nat (Z.min (len l) (i + 2) - Z.max 0 (i - 1)) in
  slice (Z.max 0 (i - 1)) (i + 2) l = take n (drop a l) ∧
  (a + n ≤ length l)%nat.
Proof.
  intros Hi a n. unfold slice, slice_bound. subst a n.
  destruct (Z.max 0 (i - 1) <? 0) eqn:E1; [apply Z.ltb_lt in E1; lia|].
  destruct (i + 2 <? 0) eqn:E2; [apply Z.ltb_lt in E2; lia|].
  split; [|unfold len in *; lia].
  f_equal; [|f_equal]; unfold len in *; lia.
Qed.

(** The window the code takes is the clipped neighbourhood of the
    specification. *)
Lemma window_clipped (img : ndarray) (h w : nat) (i j : Z) :
  rect h w img → inside h w (i, j) →
  concat (window img i j) =
    (λ p, sample img p.1 p.2) <$>
      clipped_neighborhood (Z.of_nat h) (Z.of_nat w) i j.
Proof.
  intros Hrect [Hi Hj]. simpl in Hi, Hj. pose proof Hrect as [Hh Hrows].
  unfold window, clipped_neighborhood.
  rewrite fmap_concat, <- list_fmap_compose. f_equal.
  destruct (slice_window img i) as [-> Hfit]; [unfold len; lia|].
  unfold len. rewrite Hh.
  replace (Z.max 0 (i - 1)) with (Z.of_nat (Z.to_nat (Z.max 0 (i - 1))))
    at 3 by lia.
  replace (Z.min (Z.of_nat h) (i + 2) - Z.max 0 (i - 1))
    with (Z.of_nat (Z.to_nat (Z.min (Z.of_nat h) (i + 2) - Z.max 0 (i - 1)))) at 2
    by lia.
  apply take_drop_seqZ; [unfold len in Hfit; lia|].
  intros k row Hk Hrow. simpl.
  pose proof (rect_row _ _ _ _ _ Hrect Hrow) as Hw.
  destruct (slice_window row j) as [-> Hfit']; [unfold len; lia|].
  rewrite <- list_fmap_compose. unfold len. rewrite Hw.
  rewrite <- (list_fmap_id (take _ (drop _ row))).
  replace (Z.max 0 (j - 1)) with (Z.of_nat (Z.to_nat (Z.max 0 (j - 1))))
    at 3 by lia.
  replace (Z.min (Z.of_nat w) (j + 2) - Z.max 0 (j - 1))
    with (Z.of_nat (Z.to_nat (Z.min (Z.of_nat w) (j + 2) - Z.max 0 (j - 1)))) at 2
    by lia.
  apply take_drop_seqZ; [unfold len in Hfit'; lia|].
  intros m x Hm Hx. simpl. unfold sample, pix.
  rewrite !Z2Nat.inj_add, !Nat2Z.id by lia.
  rewrite Hrow. simpl. by rewrite Hx.
Qed.

Lemma elem_of_concat {A} (x : A) (ls : list (list A)) :
  x ∈ concat ls ↔ ∃ l, l ∈ ls ∧ x ∈ l.
Proof.
  rewrite list_elem_of_In, in_concat. split.
  - intros (l & Hl & Hx). exists l. by rewrite !list_elem_of_In.
  - intros (l & Hl & Hx). exists l. by rewrite <- !list_elem_of_In.
Qed.

Lemma clipped_neighborhood_spec (h w i j r c : Z) :
  (r, c) ∈ clipped_neighborhood h w i j ↔
  (Z.max 0 (i - 1) ≤ r < Z.min h (i + 2)) ∧
  (Z.max 0 (j - 1) ≤ c < Z.min w (j + 2)).
Proof.
  unfold clipped_neighborhood. rewrite elem_of_concat. split.
  - intros (l & Hl & Hrc).
    apply list_elem_of_fmap in Hl as (r' & -> & Hr').
    apply list_elem_of_fmap in Hrc as (c' & [= -> ->] & Hc').
    apply elem_of_seqZ in Hr'. apply elem_of_seqZ in Hc'. lia.
  - intros [Hr Hc].
    exists ((λ c, (r, c)) <$> seqZ (Z.max 0 (j - 1))
              (Z.min w (j + 2) - Z.max 0 (j - 1))).
    split.
    + apply list_elem_of_fmap. exists r. split; [done|].
      apply elem_of_seqZ. lia.
    + apply list_elem_of_fmap. exists c. split; [done|].
      apply elem_of_seqZ. lia.
Qed.

Lemma clipped_neighborhood_inside (h w : nat) (i j : Z) :
  Forall (inside h w) (clipped_neighborhood (Z.of_nat h) (Z.of_nat w) i j).
Proof.
  apply Forall_forall. intros [r c] Hrc.
  apply clipped_neighborhood_spec in Hrc. unfold inside. simpl. lia.
Qed.

Lemma clipped_neighborhood_self (h w : nat) (i j : Z) :
  inside h w (i, j) →
  (i, j) ∈ clipped_neighborhood (Z.of_nat h) (Z.of_nat w) i j.
Proof.
  intros [Hi Hj]. simpl in *. apply clipped_neighborhood_spec. lia.
Qed.

Lemma length_concat_fmap {A B} (f : A → list B) (l : list A) (n : nat) :
  (∀ x, length (f x) = n) → length (concat (f <$> l)) = (length l * n)%nat.
Proof.
  intros Hf. induction l as [|x l IH]; [done|].
  rewrite fmap_cons. cbn [concat]. rewrite length_app, Hf, IH.
  simpl. lia.
Qed.

(** Away from the border the neighbourhood has all its nine samples. *)
Lemma clipped_neighborhood_full (h w i j : Z) :
  1 ≤ i < h - 1 → 1 ≤ j < w - 1 →
  length (clipped_neighborhood h w i j) = 9%nat.
Proof.
  intros Hi Hj. unfold clipped_neighborhood.
  rewrite (length_concat_fmap _ _ 3).
  - rewrite length_seqZ. lia.
  - intros r. rewrite length_fmap, length_seqZ. lia.
Qed.

(** ** Storing a sample *)

Lemma upd_rect h w img r c v : rect h w img → rect h w (upd img r c v).
Proof.
  intros [Hh Hrows]. unfold upd. split; [by rewrite length_alter|].
  apply Forall_forall. intros row Hrow.
  apply list_elem_of_lookup in Hrow as [k Hk].
  rewrite Forall_forall in Hrows.
  destruct (decide (r = k)) as [->|Hne].
  - rewrite list_lookup_alter_eq in Hk.
    destruct (img !! k) as [row'|] eqn:E; [|done].
    injection Hk as <-. rewrite length_insert.
    apply Hrows. by eapply list_elem_of_lookup_2.
  - rewrite list_lookup_alter_ne in Hk by done.
    apply Hrows. by eapply list_elem_of_lookup_2.
Qed.

Lemma pix_upd h w img r c v r' c' :
  rect h w img → (r < h)%nat → (c < w)%nat →
  pix (upd img r c v) r' c' =
    if decide (r' = r ∧ c' = c) then Some v else pix img r' c'.
Proof.
  intros Hrect Hr Hc. unfold pix, upd.
  destruct (lookup_lt_is_Some_2 img r) as [row Hrow];
    [destruct Hrect; lia|].
  pose proof (rect_row _ _ _ _ _ Hrect Hrow) as Hw.
  destruct (decide (r' = r)) as [->|Hne].
  - rewrite list_lookup_alter_eq, Hrow. simpl.
    destruct (decide (c' = c)) as [->|Hnc].
    + rewrite list_lookup_insert_eq by lia.
      by rewrite decide_True.
    + rewrite list_lookup_insert_ne by done.
      rewrite decide_False; [done|]. intros [_ ?]. done.
  - rewrite list_lookup_alter_ne by done.
    rewrite decide_False; [done|]. intros [? _]. done.
Qed.

Lemma sample_upd h w img i j v r c :
  rect h w img → inside h w (i, j) → 0 ≤ r → 0 ≤ c →
  sample (upd img (Z.to_nat i) (Z.to_nat j) v) r c =
    if decide ((r, c) = (i, j)) then v else sample img r c.
Proof.
  intros Hrect [Hi Hj] Hr Hc. simpl in *. unfold sample.
  rewrite (pix_upd h w) by (done || lia).
  destruct (decide ((r, c) = (i, j))) as [[= -> ->]|Hne].
  - by rewrite decide_True.
  - rewrite decide_False; [done|].
    intros [Hr' Hc']. apply Hne. f_equal; lia.
Qed.

(** ** One dead pixel *)

Lemma np_median_nonempty (l : list Z) :
  l ≠ [] → ∃ t, np_median l = Halves t ∧ median_value l = Z.quot t 2.
Proof.
  intros Hne. unfold median_value, np_median.
  destruct (length l) eqn:E; [by destruct l|].
  destruct (Nat.even (S n)); eauto.
Qed.

Lemma window_nonempty (img : ndarray) (h w : nat) (i j : Z) :
  rect h w img → inside h w (i, j) → concat (window img i j) ≠ [].
Proof.
  intros Hrect Hin. rewrite (window_clipped _ h w) by done.
  pose proof (clipped_neighborhood_self _ _ _ _ Hin) as Hself.
  destruct (clipped_neighborhood _ _ i j); [|done].
  by apply elem_of_nil in Hself.
Qed.

Lemma correct_pixel_inside (img : ndarray) (h w : nat) (i j : Z) :
  rect h w img → inside h w (i, j) →
  correct_pixel img (i, j) =
    Ok (upd img (Z.to_nat i) (Z.to_nat j)
          (median_value (concat (window img i j)))).
Proof.
  intros Hrect Hin. pose proof Hin as [Hi Hj]. simpl in Hi, Hj.
  pose proof Hrect as [Hh _].
  unfold correct_pixel, setitem2, norm_index.
  rewrite (rect_ncols h w) by (done || lia). unfold len. rewrite Hh.
  destruct (i <? 0) eqn:E1; [apply Z.ltb_lt in E1; lia|].
  destruct (j <? 0) eqn:E2; [apply Z.ltb_lt in E2; lia|].
  destruct (0 <=? i) eqn:E3; [|apply Z.leb_gt in E3; lia].
  destruct (i <? Z.of_nat h) eqn:E4; [|apply Z.ltb_ge in E4; lia].
  destruct (0 <=? j) eqn:E5; [|apply Z.leb_gt in E5; lia].
  destruct (j <? Z.of_nat w) eqn:E6; [|apply Z.ltb_ge in E6; lia].
  simpl.
  destruct (np_median_nonempty (concat (window img i j)))
    as (t & Hm & Hv); [by eapply window_nonempty|].
  rewrite Hm. simpl. unfold upd. by rewrite Hv.
Qed.

(** ** The loop over the dead pixels *)

Lemma dead_pix_pass_inside (h w : nat) (dead : list (Z * Z)) : ∀ img,
  rect h w img → Forall (inside h w) dead →
  ∃ img', dead_pix_pass dead img = Ok img' ∧ rect h w img'.
Proof.
  induction dead as [|[i j] rest IH]; intros img Hrect Hin; simpl.
  - eauto.
  - apply Forall_cons in Hin as [Hp Hrest].
    rewrite (correct_pixel_inside _ h w) by done. step_bind.
    apply IH; [by apply upd_rect|done].
Qed.


(** The loop on the array object is the loop on its value, written back
    to the same reference. *)
Lemma correct_pixels_pass (dead : list (Z * Z)) (a : nat) : ∀ (σ : store) img,
  σ !! a = Some img →
  correct_pixels dead a σ =
    img' ← dead_pix_pass dead img; Ok (<[a := img']> σ).
Proof.
  induction dead as [|p rest IH]; intros σ img Ha; simpl.
  - by rewrite insert_id.
  - unfold deref. rewrite Ha. step_bind.
    destruct (correct_pixel img p) as [img'|e]; simpl; [|done].
    rewrite (IH _ img') by apply lookup_insert_eq.
    destruct (dead_pix_pass rest img') as [img''|e]; simpl; [|done].
    by rewrite insert_insert_eq.
Qed.

(** A pass changes no sample outside the list. *)
Lemma dead_pix_pass_outside (h w : nat) (dead : list (Z * Z)) : ∀ img img',
  rect h w img → Forall (inside h w) dead →
  dead_pix_pass dead img = Ok img' →
  ∀ r c : nat, (Z.of_nat r, Z.of_nat c) ∉ dead → pix img' r c = pix img r c.
Proof.
  induction dead as [|[i j] rest IH]; intros img img' Hrect Hin Hpass r c Hrc;
    simpl in Hpass.
  - by injection Hpass as <-.
  - apply Forall_cons in Hin as [Hp Hrest].
    rewrite (correct_pixel_inside _ h w) in Hpass by done.
    rewrite bind_Ok_l in Hpass.
    apply not_elem_of_cons in Hrc as [Hne Hrc].
    rewrite (IH _ _ (upd_rect _ _ _ _ _ _ Hrect) Hrest Hpass r c Hrc).
    destruct Hp as [Hi Hj]. simpl in Hi, Hj.
    rewrite (pix_upd h w) by (done || lia).
    rewrite decide_False; [done|].
    intros [-> ->]. apply Hne. f_equal; lia.
Qed.

(** ** The median *)

Lemma countb_app p l k : countb p (l ++ k) = (countb p l + countb p k)%nat.
Proof. induction l as [|x l IH]; simpl; [done|]. rewrite IH. lia. Qed.

Lemma countb_le_length p l : (countb p l ≤ length l)%nat.
Proof. induction l as [|x l IH]; simpl; [done|]. destruct (p x); lia. Qed.

Lemma countb_none p l : Forall (λ x, p x = false) l → countb p l = 0%nat.
Proof.
  induction 1 as [|x l Hx _ IH]; simpl; [done|]. by rewrite Hx, IH.
Qed.

Lemma countb_mono p q l :
  (∀ x, p x = true → q x = true) → (countb p l ≤ countb q l)%nat.
Proof.
  intros Hpq. induction l as [|x l IH]; simpl; [done|].
  destruct (p x) eqn:E; [rewrite (Hpq _ E); lia|].
  destruct (q x); lia.
Qed.

Lemma countb_split p l :
  (countb p l + countb (λ x, negb (p x)) l = length l)%nat.
Proof.
  induction l as [|x l IH]; simpl; [done|]. destruct (p x); simpl; lia.
Qed.

Lemma countb_Permutation p l k : l ≡ₚ k → countb p l = countb p k.
Proof.
  induction 1 as [|x l k _ IH|x y l|l k j _ IH1 _ IH2]; simpl;
    [done|by rewrite IH|lia|congruence].
Qed.

Lemma insert_sorted_Permutation x l : insert_sorted x l ≡ₚ x :: l.
Proof.
  induction l as [|y l IH]; simpl; [done|].
  destruct (x <=? y); [done|]. rewrite IH. apply Permutation_swap.
Qed.

Lemma sort_Permutation l : sort l ≡ₚ l.
Proof.
  induction l as [|x l IH]; simpl; [done|].
  rewrite insert_sorted_Permutation. by rewrite IH.
Qed.

Lemma insert_sorted_sorted x l :
  StronglySorted Z.le l → StronglySorted Z.le (insert_sorted x l).
Proof.
  induction l as [|y l IH]; intros Hs; simpl.
  - repeat constructor.
  - apply StronglySorted_cons in Hs as [Hy Hl].
    destruct (x <=? y) eqn:E.
    + apply Z.leb_le in E. apply StronglySorted_cons. split.
      * apply Forall_cons. split; [done|].
        eapply Forall_impl; [exact Hy|]. simpl. intros. lia.
      * by apply StronglySorted_cons.
    + apply Z.leb_gt in E. apply StronglySorted_cons. split; [|auto].
      rewrite insert_sorted_Permutation. apply Forall_cons. split; [lia|done].
Qed.

Lemma sort_sorted l : StronglySorted Z.le (sort l).
Proof.
  induction l as [|x l IH]; simpl; [constructor|].
  by apply insert_sorted_sorted.
Qed.

(** The middle item of a sorted list of odd length is balanced. *)
Lemma sorted_middle_balanced (s : list Z) (k : nat) (m : Z) :
  StronglySorted Z.le s → length s = (2 * k + 1)%nat → s !! k = Some m →
  balanced k m s.
Proof.
  intros Hs Hlen Hm.
  rewrite <- (take_drop_middle s k m Hm) in Hs.
  apply StronglySorted_app in Hs as (Hle & _ & Hs2).
  apply StronglySorted_cons in Hs2 as [Hge _].
  assert (Forall (λ x, x ≤ m) (take k s)) as Hbelow.
  { apply Forall_forall. intros x Hx. apply (Hle x m Hx). by left. }
  unfold balanced. rewrite <- (take_drop_middle s k m Hm).
  rewrite !countb_app. simpl.
  rewrite Z.ltb_irrefl.
  rewrite (countb_none (λ x, x <? m) (drop (S k) s)).
  2:{ eapply Forall_impl; [exact Hge|]. simpl. intros x Hx.
      apply Z.ltb_ge. lia. }
  rewrite (countb_none (λ x, m <? x) (take k s)).
  2:{ eapply Forall_impl; [exact Hbelow|]. simpl. intros x Hx.
      apply Z.ltb_ge. lia. }
  pose proof (countb_le_length (λ x, x <? m) (take k s)).
  pose proof (countb_le_length (λ x, m <? x) (drop (S k) s)).
  rewrite length_take in *. rewrite length_drop in *. lia.
Qed.

Lemma balanced_Permutation k m l l' :
  l ≡ₚ l' → balanced k m l → balanced k m l'.
Proof.
  intros Hp [H1 H2]. unfold balanced.
  by rewrite <- !(countb_Permutation _ _ _ Hp).
Qed.

(** For a list of odd length [np.median] is the one balanced value. *)
Lemma np_median_odd (l : list Z) (k : nat) :
  length l = (2 * k + 1)%nat →
  ∃ m, np_median l = Halves (2 * m) ∧ median_value l = m ∧ balanced k m l.
Proof.
  intros Hlen.
  assert (length (sort l) = (2 * k + 1)%nat) as Hslen.
  { by rewrite (Permutation_length (sort_Permutation l)). }
  destruct (lookup_lt_is_Some_2 (sort l) k) as [m Hm]; [lia|].
  assert (np_median l = Halves (2 * m)) as Hmed.
  { assert (Nat.even (2 * k + 1) = false) as Hev.
    { rewrite Nat.add_1_r, Nat.even_succ, Nat.odd_mul. reflexivity. }
    assert (((2 * k + 1) / 2)%nat = k) as Hdiv.
    { symmetry. apply (Nat.div_unique _ 2 k 1); lia. }
    unfold np_median. rewrite Hlen, Hev, Hdiv.
    rewrite (list_lookup_total_correct _ _ _ Hm).
    destruct (2 * k + 1)%nat eqn:E; [lia|done]. }
  exists m. split; [done|]. split.
  - unfold median_value. rewrite Hmed. by rewrite Z.mul_comm, Z.quot_mul.
  - eapply balanced_Permutation; [apply sort_Permutation|].
    by apply sorted_middle_balanced; [apply sort_sorted| |].
Qed.

Lemma balanced_unique (l : list Z) (k : nat) (m m' : Z) :
  length l = (2 * k + 1)%nat → balanced k m l → balanced k m' l → m = m'.
Proof.
  assert (∀ a b, a < b → balanced k a l → balanced k b l →
                 length l = (2 * k + 1)%nat → False) as Hlt.
  { intros a b Hab [_ Ha] [Hb _] Hlen.
    pose proof (countb_split (λ x, a <? x) l) as Hsplit.
    pose proof (countb_mono (λ x, negb (a <? x)) (λ x, x <? b) l) as Hmono.
    assert (countb (λ x, negb (a <? x)%Z) l ≤ countb (λ x, (x <? b)%Z) l)%nat.
    { apply Hmono. intros x Hx. apply negb_true_iff, Z.ltb_ge in Hx.
      apply Z.ltb_lt. lia. }
    lia. }
  intros Hlen Hm Hm'.
  destruct (Z.lt_trichotomy m m') as [H|[H|H]]; [|done|];
    exfalso; eauto.
Qed.

(** Replacing items of a list of odd length by its median keeps the
    median. *)
Lemma median_value_replace {A} (f g : A → Z) (L : list A) (k : nat) :
  length L = (2 * k + 1)%nat →
  (∀ x, x ∈ L → g x = f x ∨ g x = median_value (f <$> L)) →
  median_value (g <$> L) = median_value (f <$> L).
Proof.
  intros Hlen Hg.
  destruct (np_median_odd (f <$> L) k) as (m & _ & Hm & Hbal);
    [by rewrite length_fmap|].
  destruct (np_median_odd (g <$> L) k) as (m' & _ & Hm' & Hbal');
    [by rewrite length_fmap|].
  rewrite Hm, Hm'. rewrite Hm in Hg.
  apply (balanced_unique (g <$> L) k); [by rewrite length_fmap|done|].
  destruct Hbal as [Hlo Hhi]. clear Hlen Hbal' Hm Hm'.
  assert ((countb (λ x, (x <? m)%Z) (g <$> L)
             ≤ countb (λ x, (x <? m)%Z) (f <$> L))%nat
          ∧ (countb (λ x, (m <? x)%Z) (g <$> L)
             ≤ countb (λ x, (m <? x)%Z) (f <$> L))%nat)
    as [H1 H2]; [|split; lia].
  clear Hlo Hhi. induction L as [|x L IH]; [done|].
  rewrite !fmap_cons. cbn [countb].
  destruct IH as [IH1 IH2].
  { intros y Hy. apply Hg. by right. }
  destruct (Hg x) as [->| ->]; [by left| |].
  - split; lia.
  - rewrite Z.ltb_irrefl. split; lia.
Qed.

(** ** Corrections as total functions on arrays of a known shape *)

Lemma step_rect h w img p : rect h w img → rect h w (step img p).
Proof. apply upd_rect. Qed.

Lemma correct_pixel_step (img : ndarray) (h w : nat) (p : Z * Z) :
  rect h w img → inside h w p → correct_pixel img p = Ok (step img p).
Proof. destruct p as [i j]. apply correct_pixel_inside. Qed.

Lemma fold_step_rect h w dead : ∀ img,
  rect h w img → rect h w (fold_left step dead img).
Proof.
  induction dead as [|p rest IH]; intros img Hrect; simpl; [done|].
  by apply IH, step_rect.
Qed.

Lemma dead_pix_pass_fold (h w : nat) (dead : list (Z * Z)) : ∀ img,
  rect h w img → Forall (inside h w) dead →
  dead_pix_pass dead img = Ok (fold_left step dead img).
Proof.
  induction dead as [|p rest IH]; intros img Hrect Hin; simpl; [done|].
  apply Forall_cons in Hin as [Hp Hrest].
  rewrite (correct_pixel_step _ h w) by done. step_bind.
  apply IH; [by apply step_rect|done].
Qed.

(** A correction does not reach the windows of pixels that are not
    adjacent to it. *)
Lemma window_upd_far (img : ndarray) (h w : nat) (p q : Z * Z) (v : Z) :
  rect h w img → inside h w p → inside h w q → ¬ adjacent p q →
  concat (window (upd img (Z.to_nat p.1) (Z.to_nat p.2) v) q.1 q.2) =
    concat (window img q.1 q.2).
Proof.
  intros Hrect Hp Hq Hfar. destruct p as [i j], q as [i' j']. simpl.
  rewrite !(window_clipped _ h w) by (done || by apply upd_rect).
  apply Forall_fmap_ext, Forall_forall. intros [r c] Hrc. simpl.
  apply clipped_neighborhood_spec in Hrc.
  rewrite (sample_upd h w) by (done || lia).
  rewrite decide_False; [done|].
  intros [= -> ->]. apply Hfar. unfold adjacent. simpl. lia.
Qed.

(** Correcting an inner pixel a second time stores the same value. *)
Lemma window_upd_self (img : ndarray) (h w : nat) (i j : Z) :
  rect h w img → 1 ≤ i < Z.of_nat h - 1 → 1 ≤ j < Z.of_nat w - 1 →
  median_value
    (concat (window (upd img (Z.to_nat i) (Z.to_nat j)
                       (median_value (concat (window img i j)))) i j)) =
    median_value (concat (window img i j)).
Proof.
  intros Hrect Hi Hj.
  assert (inside h w (i, j)) as Hin by (unfold inside; simpl; lia).
  rewrite !(window_clipped _ h w) by (done || by apply upd_rect).
  apply (median_value_replace _ _ _ 4).
  - by apply clipped_neighborhood_full.
  - intros [r c] Hrc. simpl. apply clipped_neighborhood_spec in Hrc.
    rewrite (sample_upd h w) by (done || lia).
    destruct (decide ((r, c) = (i, j))); [by right|by left].
Qed.

Lemma upd_upd_eq img r c v v' : upd (upd img r c v) r c v' = upd img r c v'.
Proof.
  unfold upd. rewrite list_alter_alter_eq.
  apply list_alter_ext; [|done]. intros row _. simpl.
  apply list_insert_insert_eq.
Qed.

Lemma upd_comm img r c v r' c' v' :
  (r, c) ≠ (r', c') →
  upd (upd img r c v) r' c' v' = upd (upd img r' c' v') r c v.
Proof.
  intros Hne. unfold upd. destruct (decide (r = r')) as [->|Hr].
  - rewrite !list_alter_alter_eq.
    apply list_alter_ext; [|done]. intros row _. simpl.
    apply list_insert_insert_ne. congruence.
  - by apply list_alter_alter_ne.
Qed.

Lemma step_step_same (img : ndarray) (h w : nat) (p : Z * Z) :
  rect h w img →
  1 ≤ p.1 < Z.of_nat h - 1 → 1 ≤ p.2 < Z.of_nat w - 1 →
  step (step img p) p = step img p.
Proof.
  intros Hrect Hi Hj. destruct p as [i j]. unfold step. simpl in *.
  rewrite (window_upd_self _ h w) by done.
  apply upd_upd_eq.
Qed.

Lemma step_comm (img : ndarray) (h w : nat) (p q : Z * Z) :
  rect h w img → inside h w p → inside h w q → ¬ adjacent p q →
  step (step img p) q = step (step img q) p.
Proof.
  intros Hrect Hp Hq Hfar. unfold step.
  rewrite (window_upd_far _ h w p q) by done.
  rewrite (window_upd_far _ h w q p); try done.
  - apply upd_comm. intros [= H1 H2]. apply Hfar.
    destruct Hp as [Hp1 Hp2], Hq as [Hq1 Hq2]. unfold adjacent. lia.
  - intros [H1 H2]. apply Hfar. unfold adjacent. lia.
Qed.

Lemma fold_step_comm (h w : nat) (p : Z * Z) (dead : list (Z * Z)) : ∀ img,
  rect h w img → inside h w p → Forall (inside h w) dead →
  Forall (λ q, ¬ adjacent p q) dead →
  step (fold_left step dead img) p = fold_left step dead (step img p).
Proof.
  induction dead as [|q rest IH]; intros img Hrect Hp Hin Hfar; simpl; [done|].
  apply Forall_cons in Hin as [Hq Hrest].
  apply Forall_cons in Hfar as [Hpq Hfar].
  rewrite IH by (done || by apply step_rect).
  f_equal. symmetry. by apply (step_comm _ h w).
Qed.

(** A second pass over inner dead pixels none of which is adjacent to
    another changes nothing. *)
Lemma fold_step_idempotent (h w : nat) (dead : list (Z * Z)) : ∀ img,
  rect h w img →
  Forall (λ p, 1 ≤ p.1 < Z.of_nat h - 1 ∧ 1 ≤ p.2 < Z.of_nat w - 1) dead →
  NoDup dead →
  (∀ p q, p ∈ dead → q ∈ dead → p ≠ q → ¬ adjacent p q) →
  fold_left step dead (fold_left step dead img) = fold_left step dead img.
Proof.
  induction dead as [|p rest IH]; intros img Hrect Hinner Hnd Hfar; simpl;
    [done|].
  apply Forall_cons in Hinner as [[Hp1 Hp2] Hrest].
  apply NoDup_cons in Hnd as [Hp Hnd].
  assert (inside h w p) as Hin by (unfold inside; lia).
  assert (Forall (inside h w) rest) as Hin_rest.
  { eapply Forall_impl; [exact Hrest|]. simpl. intros q Hq.
    unfold inside. lia. }
  rewrite (fold_step_comm h w); try done.
  - rewrite (step_step_same _ h w) by done.
    apply IH; try done; [by apply step_rect|].
    intros q q' Hq Hq'. apply Hfar; by right.
  - by apply step_rect.
  - apply Forall_forall. intros q Hq. apply Hfar; [by left|by right|].
    intros ->. done.
Qed.

(** The median is the middle of the sorted samples, or the mean of the
    two middle ones, truncated. *)
Lemma median_value_sorted (l : list Z) :
  l ≠ [] →
  ∃ s, s ≡ₚ l ∧ StronglySorted Z.le s ∧
    median_value l =
      Z.quot (s !!! ((length s - 1) / 2)%nat + s !!! (length s / 2)%nat) 2.
Proof.
  intros Hne. exists (sort l). split; [apply sort_Permutation|].
  split; [apply sort_sorted|].
  rewrite (Permutation_length (sort_Permutation l)).
  unfold median_value, np_median.
  destruct (length l) as [|n] eqn:Hlen; [by destruct l|].
  generalize (sort l). intros s.
  pose proof (Nat.div_mod_eq (S n) 2) as Hd.
  pose proof (Nat.mod_upper_bound (S n) 2) as Hm.
  pose proof (Nat.div_mod_eq (S n - 1) 2) as Hd'.
  pose proof (Nat.mod_upper_bound (S n - 1) 2) as Hm'.
  destruct (Nat.even (S n)) eqn:Hev.
  - apply Nat.even_spec in Hev as [k Hk].
    replace ((S n - 1) / 2)%nat with (S n / 2 - 1)%nat by lia. done.
  - assert (Nat.odd (S n) = true) as Hodd.
    { by rewrite <- Nat.negb_even, Hev. }
    apply Nat.odd_spec in Hodd as [k Hk].
    replace ((S n - 1) / 2)%nat with (S n / 2)%nat by lia.
    f_equal. lia.
Qed.

Lemma step_clipped (img : ndarray) (h w : nat) (p : Z * Z) :
  rect h w img → inside h w p → step img p = clipped_median_step h w img p.
Proof.
  intros Hrect Hin. destruct p as [i j].
  unfold step, clipped_median_step. cbn [fst snd].
  by rewrite (window_clipped img h w).
Qed.

Lemma fold_step_clipped (h w : nat) (dead : list (Z * Z)) : ∀ img,
  rect h w img → Forall (inside h w) dead →
  fold_left step dead img = fold_left (clipped_median_step h w) dead img.
Proof.
  induction dead as [|p dead IH]; intros img Hrect Hin; [done|].
  apply Forall_cons in Hin as [Hp Hin]. cbn [fold_left].
  rewrite <- (step_clipped img h w) by done.
  apply IH; [by apply step_rect|done].
Qed.

(** C7: for every dead-pixel coordinate inside the image, corners and
    edges included, the window correct_dead_pix takes is the neighbourhood
    [row-1, row+2) x [col-1, col+2) intersected with the image bounds:
    every coordinate read lies inside the image and holds a sample (no
    wrap-around, no padding).  The correction raises no error and uses
    that neighbourhood: it stores at the coordinate the median of the
    samples of the clipped neighbourhood (the middle of these samples
    sorted, or the truncated mean of the two middle ones) and leaves
    every other sample as it was; and the whole loop is these
    corrections one after the other on the array. *)
Theorem dead_pixel_window_clipped (img : ndarray) (h w : nat) :
  rect h w img →
  (∀ i j, inside h w (i, j) →
     concat (window img i j) =
       (λ p, sample img p.1 p.2) <$>
         clipped_neighborhood (Z.of_nat h) (Z.of_nat w) i j ∧
     Forall (λ p, inside h w p ∧
                  pix img (Z.to_nat p.1) (Z.to_nat p.2) =
                    Some (sample img p.1 p.2))
       (clipped_neighborhood (Z.of_nat h) (Z.of_nat w) i j) ∧
     ∃ img', correct_pixel img (i, j) = Ok img' ∧ rect h w img' ∧
       img' = clipped_median_step h w img (i, j) ∧
       (∀ r c : nat,
          pix img' r c =
            if decide (r = Z.to_nat i ∧ c = Z.to_nat j)
            then Some (median_value
                         ((λ p, sample img p.1 p.2) <$>
                            clipped_neighborhood (Z.of_nat h) (Z.of_nat w)
                              i j))
            else pix img r c) ∧
       ∃ s,
         s ≡ₚ (λ p, sample img p.1 p.2) <$>
                clipped_neighborhood (Z.of_nat h) (Z.of_nat w) i j ∧
         StronglySorted Z.le s ∧
         median_value
           ((λ p, sample img p.1 p.2) <$>
              clipped_neighborhood (Z.of_nat h) (Z.of_nat w) i j) =
           Z.quot (s !!! ((length s - 1) / 2)%nat
                   + s !!! (length s / 2)%nat) 2) ∧
  (∀ dead a (σ : store),
     σ !! a = Some img → Forall (inside h w) dead →
     ∃ σ', correct_dead_pix (Some dead) a σ = Ok (a, σ') ∧
       σ' = <[a := fold_left (clipped_median_step h w) dead img]> σ).
Proof.
  intros Hrect. split.
  - intros i j Hin. split; [by apply window_clipped|]. split.
    + pose proof (clipped_neighborhood_inside h w i j) as Hall.
      rewrite Forall_forall in Hall. apply Forall_forall.
      intros [r c] Hrc. specialize (Hall _ Hrc). split; [done|].
      destruct Hall as [Hr Hc]. simpl in *. unfold sample.
      destruct (rect_pix h w img (Z.to_nat r) (Z.to_nat c)) as [v ->];
        [done|lia|lia|done].
    + rewrite (correct_pixel_step _ h w) by done.
      rewrite (step_clipped img h w) by done.
      eexists. split; [done|].
      split; [unfold clipped_median_step; by apply upd_rect|].
      split; [done|]. split.
      * intros r c. unfold clipped_median_step. cbn [fst snd].
        destruct Hin as [Hi Hj]. cbn [fst snd] in Hi, Hj.
        apply (pix_upd h w); [done|lia|lia].
      * apply median_value_sorted.
        rewrite <- (window_clipped img h w) by done.
        by apply (window_nonempty img h w).
  - intros dead a σ Ha Hin. unfold correct_dead_pix. simpl.
    rewrite (correct_pixels_pass _ _ _ img) by done.
    rewrite (dead_pix_pass_fold h w) by done.
    rewrite (fold_step_clipped h w) by done.
    simpl. eauto.
Qed.

(** The four corners of an image of sevens: each window has four
    samples, and the corrected array is that of the corrections by
    clipped neighbourhood. *)
Lemma dead_pixel_window_clipped_witness :
  concat (window (Mock.uniform 240 320 7) 0 0) = [7; 7; 7; 7] ∧
  concat (window (Mock.uniform 240 320 7) 239 319) = [7; 7; 7; 7] ∧
  ∃ σ', correct_dead_pix (Some [(0, 0); (0, 319); (239, 0); (239, 319)])
          0%nat {[ 0%nat := Mock.uniform 240 320 7 ]} = Ok (0%nat, σ') ∧
    σ' = <[0%nat := fold_left (clipped_median_step 240 320)
                      [(0, 0); (0, 319); (239, 0); (239, 319)]
                      (Mock.uniform 240 320 7)]>
           {[ 0%nat := Mock.uniform 240 320 7 ]}.
Proof.
  assert (rect 240 320 (Mock.uniform 240 320 7)) as Hrect
    by (unfold rect; by_compute).
  destruct (dead_pixel_window_clipped _ _ _ Hrect) as [Hwin Hloop].
  split; [|split].
  - destruct (Hwin 0 0) as (-> & _ & _); [unfold inside; simpl; lia|].
    by_compute.
  - destruct (Hwin 239 319) as (-> & _ & _); [unfold inside; simpl; lia|].
    by_compute.
  - apply Hloop; [apply lookup_singleton_eq|].
    repeat (apply Forall_cons; split; [unfold inside; simpl; lia|]).
    apply Forall_nil_2.
Defined.

(** A correction at a corner whose window is not uniform: the clipped
    neighbourhood of (0,0) holds 0, 0, 10, 10 and the corner becomes 5,
    the other samples staying as they were. *)
Example corner_correction :
  correct_pixel Mock.corner_image (0, 0) =
    Ok (upd Mock.corner_image 0 0 5) ∧
  clipped_median_step 240 320 Mock.corner_image (0, 0) =
    upd Mock.corner_image 0 0 5 ∧
  clipped_neighborhood 240 320 0 0 = [(0, 0); (0, 1); (1, 0); (1, 1)].
Proof. split; [by_compute|]. split; by_compute. Qed.

(** C6, as the code has it: for every image and every dead-pixel list
    inside it, an application of correct_dead_pix changes no pixel outside
    the list; and when the listed pixels are distinct, none adjacent to
    another (stable neighbourhoods) and none on the border of the image
    (so each window has all nine samples), applying it a second time to
    the already-corrected array recomputes every listed pixel to the
    identical value and leaves the array as it is. *)
Theorem correct_dead_pix_idempotent (img : ndarray) (h w : nat)
    (dead : list (Z * Z)) (a : nat) (σ : store) :
  rect h w img → σ !! a = Some img → Forall (inside h w) dead →
  ∃ img1,
    correct_dead_pix (Some dead) a σ = Ok (a, <[a := img1]> σ) ∧
    rect h w img1 ∧
    (∀ r c : nat,
       (Z.of_nat r, Z.of_nat c) ∉ dead → pix img1 r c = pix img r c) ∧
    (Forall (λ p, 1 ≤ p.1 < Z.of_nat h - 1 ∧ 1 ≤ p.2 < Z.of_nat w - 1) dead →
     NoDup dead →
     Forall (λ p, Forall (λ q, p = q ∨ ¬ adjacent p q) dead) dead →
     correct_dead_pix (Some dead) a (<[a := img1]> σ) =
       Ok (a, <[a := img1]> σ)).
Proof.
  intros Hrect Ha Hin. exists (fold_left step dead img).
  pose proof (dead_pix_pass_fold h w dead img Hrect Hin) as Hpass.
  pose proof (fold_step_rect h w dead img Hrect) as Hrect1.
  split; [|split; [done|split]].
  - unfold correct_dead_pix. simpl.
    rewrite (correct_pixels_pass _ _ _ img), Hpass by done. done.
  - by apply (dead_pix_pass_outside h w dead img).
  - intros Hinner Hnd Hfar. unfold correct_dead_pix. simpl.
    rewrite (correct_pixels_pass _ _ _ (fold_left step dead img))
      by apply lookup_insert_eq.
    rewrite (dead_pix_pass_fold h w) by done.
    rewrite (fold_step_idempotent h w) by
      (try done; intros p q Hp Hq Hne;
       rewrite Forall_forall in Hfar; specialize (Hfar p Hp);
       rewrite Forall_forall in Hfar; destruct (Hfar q Hq); done).
    simpl. by rewrite insert_insert_eq.
Qed.

Lemma correct_dead_pix_idempotent_witness :
  ∃ img1,
    correct_dead_pix (Some [(1, 1); (3, 3)]) 0%nat
      {[ 0%nat := [[9; 1; 5; 2; 2]; [3; 0; 7; 1; 8]; [4; 6; 2; 9; 3];
                   [5; 5; 1; 0; 6]; [7; 2; 8; 4; 1]] ]} =
      Ok (0%nat, {[ 0%nat := img1 ]}) ∧
    correct_dead_pix (Some [(1, 1); (3, 3)]) 0%nat {[ 0%nat := img1 ]} =
      Ok (0%nat, {[ 0%nat := img1 ]}).
Proof.
  destruct (correct_dead_pix_idempotent
              [[9; 1; 5; 2; 2]; [3; 0; 7; 1; 8]; [4; 6; 2; 9; 3];
               [5; 5; 1; 0; 6]; [7; 2; 8; 4; 1]] 5 5 [(1, 1); (3, 3)] 0%nat
              {[ 0%nat := [[9; 1; 5; 2; 2]; [3; 0; 7; 1; 8]; [4; 6; 2; 9; 3];
                           [5; 5; 1; 0; 6]; [7; 2; 8; 4; 1]] ]})
    as (img1 & Hfirst & _ & _ & Hsecond).
  - unfold rect. by_compute.
  - apply lookup_singleton_eq.
  - by_compute.
  - exists img1. rewrite insert_singleton_eq in Hfirst, Hsecond.
    split; [exact Hfirst|]. apply Hsecond; by_compute.
Defined.

(** C6 as stated fails on the code: the window of a corner pixel has four
    samples, the median of an even number of samples is the mean of the
    two middle ones, and the mean moves when the pixel's own value does.
    With the single dead pixel (0,0), whose neighbours stay as they are,
    the first pass stores 5 and the second pass 7. *)
Lemma correct_dead_pix_idempotent_counterexample :
  rect 240 320 Mock.corner_image ∧
  correct_dead_pix (Some [(0, 0)]) 0%nat {[ 0%nat := Mock.corner_image ]} =
    Ok (0%nat, {[ 0%nat := upd Mock.corner_image 0 0 5 ]}) ∧
  correct_dead_pix (Some [(0, 0)]) 0%nat
      {[ 0%nat := upd Mock.corner_image 0 0 5 ]} =
    Ok (0%nat, {[ 0%nat := upd Mock.corner_image 0 0 7 ]}) ∧
  upd Mock.corner_image 0 0 7 ≠ upd Mock.corner_image 0 0 5.
Proof.
  split; [unfold rect; by_compute|].
  split; [by_compute|]. split; by_compute.
Qed.



(** ** Arithmetic on arrays *)

Lemma rect_lengths h w (a : ndarray) : rect h w a → length <$> a = replicate h w.
Proof.
  intros [<- Hrows]. induction Hrows as [|row a Hrow _ IH]; [done|].
  rewrite fmap_cons. cbn [length replicate]. by rewrite Hrow, IH.
Qed.

Lemma sub_scalar_rect h w a k : rect h w a → rect h w (sub_scalar a k).
Proof.
  intros [Hh Hrows]. unfold sub_scalar. split; [by rewrite length_fmap|].
  apply Forall_fmap. eapply Forall_impl; [exact Hrows|].
  simpl. intros row Hrow. by rewrite length_fmap.
Qed.

Lemma zip_rows_rect {f : Z → Z → Z} h w (a b : ndarray) :
  rect h w a → rect h w b → rect h w (zip_with (zip_with f) a b).
Proof.
  intros [Ha Hra] [Hb Hrb]. split.
  - rewrite length_zip_with. lia.
  - apply Forall_forall. intros row Hrow.
    apply list_elem_of_lookup in Hrow as [k Hk].
    apply lookup_zip_with_Some in Hk as (ra & rb & -> & Hka & Hkb).
    rewrite Forall_forall in Hra, Hrb.
    rewrite length_zip_with.
    rewrite (Hra ra), (Hrb rb) by (by eapply list_elem_of_lookup_2). lia.
Qed.

Lemma sub_arrays_rect h w (a b : ndarray) :
  rect h w a → rect h w b →
  sub_arrays a b = Ok (zip_with (zip_with sub_u16) a b) ∧
  rect h w (zip_with (zip_with sub_u16) a b).
Proof.
  intros Ha Hb. split; [|by apply zip_rows_rect].
  unfold sub_arrays.
  rewrite (rect_lengths h w a), (rect_lengths h w b) by done.
  by rewrite bool_decide_eq_true_2.
Qed.

(** ** One turn of [get_image] *)

Lemma get_image_iter_calibration s f d' :
  grab (dev s) = Ok (1, Some f, d') →
  ∃ c, crop (Some f) = Ok c ∧ rect 240 320 c ∧
    get_image_iter s = Ok (None, set_calib (set_dev s d') (sub_scalar c 1600)).
Proof.
  intros Hgrab. pose proof Hgrab as (ret & _ & _ & Hrect)%grab_Ok.
  destruct (crop_rect f Hrect) as (c & Hcrop & Hrc & _).
  exists c. split; [done|]. split; [done|].
  unfold get_image_iter. rewrite Hgrab. step_bind.
  change (1 =? 1) with true. cbv beta iota zeta.
  rewrite Hcrop. by step_bind.
Qed.

Lemma get_image_iter_uncalibrated s img d' :
  calib s = None → grab (dev s) = Ok (3, img, d') →
  get_image_iter s = Ok (None, set_dev s d').
Proof.
  intros Hcal Hgrab. unfold get_image_iter. rewrite Hgrab. step_bind.
  change (3 =? 1) with false. change (3 =? 3) with true.
  cbv beta iota zeta. unfold set_dev at 1. cbn [calib]. by rewrite Hcal.
Qed.

Lemma get_image_iter_other s status img d' :
  status ≠ 1 → status ≠ 3 → grab (dev s) = Ok (status, img, d') →
  get_image_iter s = Ok (None, set_dev s d').
Proof.
  intros H1 H3 Hgrab. unfold get_image_iter. rewrite Hgrab. step_bind.
  destruct (status =? 1) eqn:E1; [apply Z.eqb_eq in E1; done|].
  destruct (status =? 3) eqn:E3; [apply Z.eqb_eq in E3; done|].
  done.
Qed.

Lemma get_image_iter_normal s cal dead f d' :
  calib s = Some cal → rect 240 320 cal →
  dead_pixels s = Some dead → Forall (inside 240 320) dead →
  grab (dev s) = Ok (3, Some f, d') →
  ∃ c img,
    crop (Some f) = Ok c ∧
    dead_pix_pass dead (zip_with (zip_with sub_u16) c cal) = Ok img ∧
    rect 240 320 img ∧
    get_image_iter s = Ok (Some img, set_dev s d').
Proof.
  intros Hcal Hrcal Hdead Hin Hgrab.
  pose proof Hgrab as (ret & _ & _ & Hrect)%grab_Ok.
  destruct (crop_rect f Hrect) as (c & Hcrop & Hrc & _).
  destruct (sub_arrays_rect 240 320 c cal Hrc Hrcal) as [Hsub Hrdiff].
  destruct (dead_pix_pass_inside 240 320 dead _ Hrdiff Hin)
    as (img & Hpass & Hrimg).
  exists c, img. split; [done|]. split; [done|]. split; [done|].
  unfold get_image_iter. rewrite Hgrab. step_bind.
  change (3 =? 1) with false. change (3 =? 3) with true.
  cbv beta iota zeta. unfold set_dev at 1. cbn [calib dead_pixels].
  rewrite Hcal, Hcrop. step_bind. rewrite Hsub. step_bind.
  change (dead_pixels (set_dev s d')) with (dead_pixels s).
  unfold correct_dead_pix. rewrite Hdead. cbn [attr]. step_bind.
  rewrite (correct_pixels_pass _ _ _ (zip_with (zip_with sub_u16) c cal))
    by apply lookup_singleton_eq.
  rewrite Hpass. step_bind. unfold deref.
  by rewrite lookup_insert_eq.
Qed.

(** A frame reported absent with status 1, or with status 3 once the
    reference exists, is subscripted all the same. *)
Lemma get_image_iter_absent s d' status :
  grab (dev s) = Ok (status, None, d') →
  status = 1 ∨ (status = 3 ∧ calib s ≠ None) →
  get_image_iter s = Raise TypeError.
Proof.
  intros Hgrab Hst. unfold get_image_iter. rewrite Hgrab. step_bind.
  destruct Hst as [->|[-> Hcal]].
  - done.
  - change (3 =? 1) with false. change (3 =? 3) with true.
    cbv beta iota zeta. unfold set_dev at 1. cbn [calib].
    by destruct (calib s).
Qed.

(** Whatever a turn does, it has grabbed once. *)
Lemma get_image_iter_Ok s o s' :
  get_image_iter s = Ok (o, s') →
  ∃ status img,
    grab (dev s) = Ok (status, img, dev s') ∧
    dead_pixels s' = dead_pixels s ∧
    match o with
    | Some _ => status = 3 ∧ calib s' = calib s ∧ calib s ≠ None
    | None =>
        calib s' = calib s ∨
        ∃ f c, status = 1 ∧ img = Some f ∧ crop (Some f) = Ok c ∧
               rect 240 320 c ∧ calib s' = Some (sub_scalar c 1600)
    end.
Proof.
  unfold get_image_iter. intros H.
  destruct (grab (dev s)) as [[[status img] d']|e] eqn:Hgrab; [|done].
  rewrite bind_Ok_l in H. cbv beta iota zeta in H.
  exists status, img.
  destruct (status =? 1) eqn:E1.
  { apply Z.eqb_eq in E1. subst status.
    destruct img as [f|]; [|done].
    pose proof Hgrab as (ret & _ & _ & Hrect)%grab_Ok.
    destruct (crop_rect f Hrect) as (c & Hcrop & Hrc & _).
    rewrite Hcrop, bind_Ok_l in H. injection H as <- <-.
    split; [done|]. split; [done|]. right. by exists f, c. }
  destruct (status =? 3) eqn:E3.
  - apply Z.eqb_eq in E3. subst status.
    unfold set_dev at 1 in H. cbn [calib] in H.
    destruct (calib s) as [cal|] eqn:Hcal.
    + bind_inv H. bind_inv H. bind_inv H. destruct a1 as [a' σ'].
      bind_inv H. injection H as <- <-. done.
    + injection H as <- <-. split; [done|]. split; [done|]. by left.
  - injection H as <- <-. split; [done|]. split; [done|]. by left.
Qed.

(** ** The loop of [get_image] *)

Lemma get_image_loop_total : ∀ fuel s,
  (length (bulk_in (dev s)) < fuel)%nat → get_image_loop fuel s ≠ None.
Proof.
  induction fuel as [|fuel IH]; intros s Hfuel; [lia|]. simpl.
  destruct (get_image_iter s) as [[[img|] s']|e] eqn:Hiter; [done| |done].
  apply IH.
  apply get_image_iter_Ok in Hiter as (status & img & Hgrab & _).
  apply grab_consumes in Hgrab. lia.
Qed.

Lemma get_image_loop_Ok : ∀ fuel s img s',
  get_image_loop fuel s = Some (Ok (img, s')) →
  ∃ obs s1, turns s obs s1 ∧ get_image_iter s1 = Ok (Some img, s').
Proof.
  induction fuel as [|fuel IH]; intros s img s' H; [done|]. simpl in H.
  destruct (get_image_iter s) as [[[img0|] s0]|e] eqn:Hiter.
  - injection H as <- <-. exists [], s. split; [constructor|done].
  - apply IH in H as (obs & s1 & Hturns & Hlast).
    pose proof Hiter as (status & f & Hgrab & _)%get_image_iter_Ok.
    exists ((status, f) :: obs), s1. split; [|done].
    by eapply turns_cons.
  - done.
Qed.

(** The reference changes only when a calibration frame is seen. *)
Lemma turns_calib s obs s1 :
  turns s obs s1 →
  dead_pixels s1 = dead_pixels s ∧
  (calib s1 = calib s ∨
   ∃ f c, (1, Some f) ∈ obs ∧ crop (Some f) = Ok c ∧ rect 240 320 c ∧
          calib s1 = Some (sub_scalar c 1600)).
Proof.
  induction 1 as [s|s status img d s1 obs s2 Hgrab Hiter _ IH]; [by split; [|left]|].
  destruct IH as [Hdp [IH|(f & c & Hobs & Hcrop & Hrc & Hcal)]].
  - apply get_image_iter_Ok in Hiter
      as (status' & img' & Hgrab' & Hdp' &
          [Hsame|(f & c & -> & -> & Hcrop & Hrc & Hcal)]).
    + split; [congruence|]. left. congruence.
    + split; [congruence|]. right. exists f, c.
      assert (status = 1 ∧ img = Some f) as [-> ->].
      { rewrite Hgrab in Hgrab'. by injection Hgrab'. }
      split; [by left|]. split; [done|]. split; [done|]. congruence.
  - apply get_image_iter_Ok in Hiter as (_ & _ & _ & Hdp' & _).
    split; [congruence|]. right. exists f, c. split; [by right|done].
Qed.

Lemma get_image_iter_ready s o s' :
  ready s → get_image_iter s = Ok (o, s') → ready s'.
Proof.
  intros [Hcal Hdead] (status & img & _ & Hdp & Hcase)%get_image_iter_Ok.
  unfold ready. rewrite Hdp. split; [|done].
  destruct o as [out|].
  - destruct Hcase as (_ & -> & _). done.
  - destruct Hcase as [->|(f & c & _ & _ & _ & Hrc & ->)]; [done|].
    by apply sub_scalar_rect.
Qed.

Lemma turns_ready s obs s1 : turns s obs s1 → ready s → ready s1.
Proof.
  induction 1 as [s|s status img d s1 obs s2 Hgrab Hiter _ IH]; [done|].
  intros Hready. apply IH. by eapply get_image_iter_ready.
Qed.

(** Every turn takes at least one packet from the endpoint. *)
Lemma turns_consumes s obs s1 :
  turns s obs s1 →
  (length obs + length (bulk_in (dev s1)) ≤ length (bulk_in (dev s)))%nat.
Proof.
  induction 1 as [s|s status img d s1 obs s2 Hgrab Hiter _ IH]; [simpl; lia|].
  apply get_image_iter_Ok in Hiter as (status' & img' & Hgrab' & _).
  apply grab_consumes in Hgrab'. cbn [length]. lia.
Qed.

(** Turns that deliver nothing use up one unit of fuel each. *)
Lemma get_image_loop_turns s obs s1 :
  turns s obs s1 →
  ∀ fuel, get_image_loop (length obs + fuel) s = get_image_loop fuel s1.
Proof.
  induction 1 as [s|s status img d s1 obs s2 Hgrab Hiter _ IH];
    intros fuel; [done|].
  cbn [length Nat.add get_image_loop]. rewrite Hiter. apply IH.
Qed.

(** After turns that deliver nothing, a delivering turn makes the loop
    return, whatever fuel is left, and so does [get_image]. *)
Lemma get_image_loop_deliver s obs s1 img s' :
  turns s obs s1 → get_image_iter s1 = Ok (Some img, s') →
  (∀ fuel, (length obs < fuel)%nat →
     get_image_loop fuel s = Some (Ok (img, s'))) ∧
  get_image s = Some (Ok (img, s')).
Proof.
  intros Hturns Hiter.
  assert (∀ fuel, (length obs < fuel)%nat →
            get_image_loop fuel s = Some (Ok (img, s'))) as Hloop.
  { intros fuel Hfuel.
    replace fuel with (length obs + S (fuel - length obs - 1))%nat by lia.
    rewrite (get_image_loop_turns _ _ _ Hturns).
    cbn [get_image_loop]. by rewrite Hiter. }
  split; [done|]. unfold get_image. apply Hloop.
  pose proof (turns_consumes _ _ _ Hturns). lia.
Qed.

(** A complete normal frame grabbed with the reference in place, after
    turns that delivered nothing, is what [get_image] returns. *)
Lemma get_image_loop_normal s obs s1 cal f3 d' :
  ready s → turns s obs s1 → calib s1 = Some cal →
  grab (dev s1) = Ok (3, Some f3, d') →
  ∃ c3 dead img,
    crop (Some f3) = Ok c3 ∧ dead_pixels s = Some dead ∧
    dead_pix_pass dead (zip_with (zip_with sub_u16) c3 cal) = Ok img ∧
    rect 240 320 img ∧
    (∀ fuel, (length obs < fuel)%nat →
       get_image_loop fuel s = Some (Ok (img, set_dev s1 d'))) ∧
    get_image s = Some (Ok (img, set_dev s1 d')).
Proof.
  intros Hready Hturns Hcal Hgrab.
  pose proof (turns_ready _ _ _ Hturns Hready) as [Hrcal Hdead].
  destruct (turns_calib _ _ _ Hturns) as [Hdp _].
  rewrite Hcal in Hrcal.
  destruct (dead_pixels s1) as [dead|] eqn:Hd; [|done].
  destruct (get_image_iter_normal s1 cal dead f3 d')
    as (c3 & img & Hc3 & Hpass & Hrect & Hi); try done.
  exists c3, dead, img. split; [done|]. split; [congruence|].
  split; [done|]. split; [done|].
  by apply (get_image_loop_deliver s obs s1).
Qed.

(** C2: get_image() returns no image before a calibration frame (status
    1) has been seen in the session.  A normal frame (status 3) grabbed
    while the reference is absent is discarded and the loop goes on; a
    calibration frame sets the reference to its crop minus 1600 and
    delivers nothing; once the reference is set, the next normal frame is
    delivered as its crop minus the reference with the dead pixels
    corrected; and whenever get_image() returns from a session without
    reference, the turns before the delivering one have seen a
    calibration frame, whose crop minus 1600 is the reference the
    delivered image was corrected with.  The loop does deliver: after
    any turns that delivered nothing, a normal frame grabbed with the
    reference in place makes the loop, and get_image() itself, return
    that frame corrected; and on the sequence normal frame, calibration
    frame, normal frame from a session without reference, two turns
    deliver nothing and get_image() returns the third frame, cropped,
    minus the reference of the second, with the dead pixels corrected.
    The loop always ends on a scripted device. *)
Theorem get_image_calibrated (s : SeekPro) :
  ready s →
  (∀ img d', calib s = None → grab (dev s) = Ok (3, img, d') →
     get_image_iter s = Ok (None, set_dev s d')) ∧
  (∀ f d', grab (dev s) = Ok (1, Some f, d') →
     ∃ c, crop (Some f) = Ok c ∧
       get_image_iter s =
         Ok (None, set_calib (set_dev s d') (sub_scalar c 1600))) ∧
  (∀ cal f d', calib s = Some cal → grab (dev s) = Ok (3, Some f, d') →
     ∃ c dead img,
       crop (Some f) = Ok c ∧ dead_pixels s = Some dead ∧
       dead_pix_pass dead (zip_with (zip_with sub_u16) c cal) = Ok img ∧
       rect 240 320 img ∧
       get_image_iter s = Ok (Some img, set_dev s d')) ∧
  (∀ fuel img s', calib s = None →
     get_image_loop fuel s = Some (Ok (img, s')) →
     ∃ obs s1 f c f3 c3 dead,
       turns s obs s1 ∧ (1, Some f) ∈ obs ∧ crop (Some f) = Ok c ∧
       calib s1 = Some (sub_scalar c 1600) ∧
       grab (dev s1) = Ok (3, Some f3, dev s') ∧ crop (Some f3) = Ok c3 ∧
       dead_pixels s1 = Some dead ∧
       dead_pix_pass dead
         (zip_with (zip_with sub_u16) c3 (sub_scalar c 1600)) = Ok img ∧
       get_image_iter s1 = Ok (Some img, s') ∧ calib s' = calib s1) ∧
  (∀ obs s1 cal f3 d',
     turns s obs s1 → calib s1 = Some cal →
     grab (dev s1) = Ok (3, Some f3, d') →
     ∃ c3 dead img,
       crop (Some f3) = Ok c3 ∧ dead_pixels s = Some dead ∧
       dead_pix_pass dead (zip_with (zip_with sub_u16) c3 cal) = Ok img ∧
       rect 240 320 img ∧
       (∀ fuel, (length obs < fuel)%nat →
          get_image_loop fuel s = Some (Ok (img, set_dev s1 d'))) ∧
       get_image s = Some (Ok (img, set_dev s1 d'))) ∧
  (∀ f0 d0 f1 d1 f3 d3,
     calib s = None → grab (dev s) = Ok (3, f0, d0) →
     grab d0 = Ok (1, Some f1, d1) → grab d1 = Ok (3, Some f3, d3) →
     ∃ c1 c3 dead img,
       crop (Some f1) = Ok c1 ∧ crop (Some f3) = Ok c3 ∧
       dead_pixels s = Some dead ∧
       dead_pix_pass dead
         (zip_with (zip_with sub_u16) c3 (sub_scalar c1 1600)) = Ok img ∧
       get_image_loop 2 s = None ∧
       get_image_loop 3 s =
         Some (Ok (img, mkSeekPro d3 (Some (sub_scalar c1 1600)) (Some dead))) ∧
       get_image s =
         Some (Ok (img, mkSeekPro d3 (Some (sub_scalar c1 1600)) (Some dead)))) ∧
  get_image s ≠ None.
Proof.
  intros Hready. pose proof Hready as [Hrcal Hdead].
  destruct (dead_pixels s) as [dead|] eqn:Hd; [|done].
  split; [|split; [|split; [|split; [|split; [|split]]]]].
  - intros img d'. apply get_image_iter_uncalibrated.
  - intros f d' Hgrab.
    destruct (get_image_iter_calibration s f d' Hgrab) as (c & Hc & _ & Hi).
    eauto.
  - intros cal f d' Hcal Hgrab. rewrite Hcal in Hrcal.
    destruct (get_image_iter_normal s cal dead f d')
      as (c & img & Hc & Hpass & Hrect & Hi); try done.
    exists c, dead, img. done.
  - intros fuel img s' Hcal Hloop.
    apply get_image_loop_Ok in Hloop as (obs & s1 & Hturns & Hlast).
    pose proof Hlast
      as (st & f' & Hgrab & _ & -> & Hkeep & Hsome)%get_image_iter_Ok.
    destruct (turns_calib _ _ _ Hturns)
      as [Hdp [Hsame|(f & c & Hobs & Hcrop & Hrc & Hc1)]]; [congruence|].
    destruct f' as [f3|].
    2:{ rewrite (get_image_iter_absent s1 (dev s') 3) in Hlast; [done|done|].
        right. done. }
    destruct (get_image_iter_normal s1 (sub_scalar c 1600) dead f3 (dev s'))
      as (c3 & img' & Hc3 & Hpass & _ & Hi); try done.
    { by apply sub_scalar_rect. }
    { congruence. }
    assert (img' = img) as -> by congruence.
    exists obs, s1, f, c, f3, c3, dead. rewrite Hdp. done.
  - intros obs s1 cal f3 d' Hturns Hcal Hgrab.
    destruct (get_image_loop_normal s obs s1 cal f3 d')
      as (c3 & dead' & img & H); try done.
    exists c3, dead', img. by rewrite <- Hd.
  - intros f0 d0 f1 d1 f3 d3 Hcal Hg0 Hg1 Hg3.
    pose proof (get_image_iter_uncalibrated s f0 d0 Hcal Hg0) as Hi0.
    destruct (get_image_iter_calibration (set_dev s d0) f1 d1 Hg1)
      as (c1 & Hc1 & Hrc1 & Hi1).
    assert (turns s [(3, f0); (1, Some f1)]
              (set_calib (set_dev (set_dev s d0) d1) (sub_scalar c1 1600)))
      as Hturns.
    { eapply turns_cons; [exact Hg0|exact Hi0|].
      eapply turns_cons; [exact Hg1|exact Hi1|]. constructor. }
    destruct (get_image_loop_normal s _ _ (sub_scalar c1 1600) f3 d3
                Hready Hturns eq_refl Hg3)
      as (c3 & dead' & img & Hc3 & Hd' & Hpass & _ & Hloop & Hget).
    assert (dead' = dead) as -> by congruence.
    exists c1, c3, dead, img.
    assert (set_dev (set_calib (set_dev (set_dev s d0) d1)
                       (sub_scalar c1 1600)) d3 =
            mkSeekPro d3 (Some (sub_scalar c1 1600)) (Some dead)) as Hs.
    { unfold set_dev, set_calib. cbn [dev calib dead_pixels]. by rewrite Hd. }
    rewrite Hs in Hloop, Hget.
    split; [done|]. split; [done|]. split; [done|]. split; [done|].
    split; [|split; [|done]].
    + cbn [get_image_loop]. rewrite Hi0, Hi1. done.
    + apply Hloop. simpl. lia.
  - apply get_image_loop_total. lia.
Qed.

(** The sequence of the specification: a normal frame before any
    calibration, a calibration frame, a normal frame. *)
Lemma get_image_calibrated_witness :
  (∃ obs s1 f c,
     turns (mkSeekPro
              (Mock.device (Mock.frame x03 x10 x27 0 ++
                            Mock.frame x01 x10 x27 0 ++
                            Mock.frame x03 x20 x27 0))
              None (Some [(0, 0); (5, 5)])) obs s1 ∧
     (1, Some f) ∈ obs ∧ crop (Some f) = Ok c ∧
     calib s1 = Some (sub_scalar c 1600) ∧
     get_image_iter s1 =
       Ok (Some (Mock.uniform 240 320 1616),
           mkSeekPro (mkDevice [] [start_request; start_request; start_request] [])
             (Some (Mock.uniform 240 320 8400)) (Some [(0, 0); (5, 5)]))) ∧
  (∃ c1 img,
     crop (Some (<[0%nat := <[2%nat := 9985]> (replicate 342 10000)]>
                   (Mock.uniform 260 342 10000))) = Ok c1 ∧
     get_image_loop 2
       (mkSeekPro
          (Mock.device (Mock.frame x03 x10 x27 0 ++
                        Mock.frame x01 x10 x27 0 ++
                        Mock.frame x03 x20 x27 0))
          None (Some [(0, 0); (5, 5)])) = None ∧
     get_image
       (mkSeekPro
          (Mock.device (Mock.frame x03 x10 x27 0 ++
                        Mock.frame x01 x10 x27 0 ++
                        Mock.frame x03 x20 x27 0))
          None (Some [(0, 0); (5, 5)])) =
       Some (Ok (img,
                 mkSeekPro
                   (mkDevice [] [start_request; start_request; start_request] [])
                   (Some (sub_scalar c1 1600)) (Some [(0, 0); (5, 5)])))).
Proof.
  destruct (get_image_calibrated
              (mkSeekPro
                 (Mock.device (Mock.frame x03 x10 x27 0 ++
                               Mock.frame x01 x10 x27 0 ++
                               Mock.frame x03 x20 x27 0))
                 None (Some [(0, 0); (5, 5)])))
    as (_ & _ & _ & Hloop & _ & Hseq & _); [by_compute|].
  split.
  - destruct (Hloop 3%nat (Mock.uniform 240 320 1616)
                (mkSeekPro
                   (mkDevice [] [start_request; start_request; start_request] [])
                   (Some (Mock.uniform 240 320 8400)) (Some [(0, 0); (5, 5)])))
      as (obs & s1 & f & c & f3 & c3 & dead &
          H1 & H2 & H3 & H4 & _ & _ & _ & _ & H5 & _);
      [reflexivity|by_compute|].
    exists obs, s1, f, c. exact (conj H1 (conj H2 (conj H3 (conj H4 H5)))).
  - destruct (Hseq
                (Some (<[0%nat := <[2%nat := 9987]> (replicate 342 10000)]>
                         (Mock.uniform 260 342 10000)))
                (mkDevice [] [start_request]
                   (Mock.frame x01 x10 x27 0 ++ Mock.frame x03 x20 x27 0))
                (<[0%nat := <[2%nat := 9985]> (replicate 342 10000)]>
                   (Mock.uniform 260 342 10000))
                (mkDevice [] [start_request; start_request]
                   (Mock.frame x03 x20 x27 0))
                (<[0%nat := <[2%nat := 9987]> (replicate 342 10016)]>
                   (Mock.uniform 260 342 10016))
                (mkDevice [] [start_request; start_request; start_request] []))
      as (c1 & c3 & dead & img & Hc1 & _ & Hd & _ & Hnone & _ & Hget);
      [reflexivity|by_compute|by_compute|by_compute|].
    injection Hd as <-.
    exists c1, img. exact (conj Hc1 (conj Hnone Hget)).
Defined.

(** C3, which the code breaks: a frame whose status is neither 1 nor 3,
    present or absent, is discarded and the loop goes on, and so is a
    status-3 frame while the reference is absent; but a frame reported
    absent with status 1, or with status 3 once the reference exists, is
    passed to crop all the same, and get_image() ends in a TypeError. *)
Theorem get_image_absent_frame (s : SeekPro) (status : Z)
    (img : option ndarray) (d' : Device) :
  grab (dev s) = Ok (status, img, d') →
  (status ≠ 1 → status ≠ 3 → get_image_iter s = Ok (None, set_dev s d')) ∧
  (status = 3 → calib s = None →
     get_image_iter s = Ok (None, set_dev s d')) ∧
  (img = None → status = 1 ∨ (status = 3 ∧ calib s ≠ None) →
     get_image_iter s = Raise TypeError ∧
     ∀ fuel, get_image_loop (S fuel) s = Some (Raise TypeError)).
Proof.
  intros Hgrab. split; [|split].
  - intros H1 H3. by eapply get_image_iter_other.
  - intros -> Hcal. by eapply get_image_iter_uncalibrated.
  - intros -> Hst.
    pose proof (get_image_iter_absent s d' status Hgrab Hst) as Hiter.
    split; [done|]. intros fuel. simpl. by rewrite Hiter.
Qed.

(** A calibration frame short by 200 bytes, at the start of a session. *)
Lemma get_image_absent_frame_witness :
  get_image (mkSeekPro (Mock.device (Mock.frame x01 x10 x27 200))
               None (Some [])) = Some (Raise TypeError).
Proof.
  destruct (get_image_absent_frame
              (mkSeekPro (Mock.device (Mock.frame x01 x10 x27 200))
                 None (Some []))
              1 None (mkDevice [] [start_request] []))
    as (_ & _ & Hraise); [by_compute|].
  unfold get_image. apply Hraise; [done|by left].
Defined.

(** ** Calibration *)

Lemma pix_sub_scalar (a : ndarray) (k : Z) (r c : nat) :
  pix (sub_scalar a k) r c = (λ x, (x - k) mod 65536) <$> pix a r c.
Proof.
  unfold pix, sub_scalar. rewrite list_lookup_fmap.
  destruct (a !! r) as [row|]; simpl; [|done].
  by rewrite list_lookup_fmap.
Qed.

Lemma slice_middle {A} (l p r : list A) (a n : nat) :
  length l = a → length p = n →
  slice (Z.of_nat a) (Z.of_nat (a + n)) (l ++ p ++ r) = p.
Proof.
  intros Hl Hp. rewrite slice_inside; [|lia|rewrite !length_app; lia].
  rewrite drop_app_length' by done.
  apply take_app_length'. lia.
Qed.

Lemma crop_inverse_crop (top bottom : ndarray) (left right : list (list Z))
    (P : ndarray) :
  length top = 4%nat → length left = 240%nat →
  Forall (λ l, length l = 1%nat) left → length right = 240%nat →
  rect 240 320 P →
  crop (Some (inverse_crop top bottom left right P)) = Ok P.
Proof.
  intros Htop Hleft Hone Hright [HP Hrows].
  rewrite crop_slices. f_equal. unfold inverse_crop.
  rewrite (slice_middle top _ bottom 4 240);
    [|done|rewrite !length_zip_with; lia].
  apply list_eq. intros k.
  rewrite list_lookup_fmap, !lookup_zip_with.
  destruct (P !! k) as [p|] eqn:Hp.
  - assert (k < 240)%nat as Hk by (apply lookup_lt_Some in Hp; lia).
    destruct (lookup_lt_is_Some_2 left k) as [l Hl]; [lia|].
    destruct (lookup_lt_is_Some_2 right k) as [r Hr]; [lia|].
    rewrite Hl, Hr. simpl. f_equal.
    rewrite Forall_forall in Hone, Hrows.
    apply (slice_middle l p r 1 320).
    + apply Hone. by eapply list_elem_of_lookup_2.
    + apply Hrows. by eapply list_elem_of_lookup_2.
  - destruct (left !! k); simpl; done.
Qed.

Lemma sub_add_u16 (p k : Z) :
  0 ≤ p < 65536 → sub_u16 ((p + k) mod 65536) k = p.
Proof.
  intros Hp. unfold sub_u16. rewrite Zminus_mod_idemp_l.
  replace (p + k - k) with p by lia. by apply Z.mod_small.
Qed.

Lemma sub_add_rows (P K : ndarray) (h w : nat) :
  rect h w P → rect h w K → is_u16 P →
  zip_with (zip_with sub_u16) (add_u16 P K) K = P.
Proof.
  intros [HP HrP] [HK HrK] Hu. unfold add_u16. apply list_eq. intros i.
  rewrite !lookup_zip_with.
  destruct (P !! i) as [p|] eqn:Hp; simpl; [|done].
  destruct (lookup_lt_is_Some_2 K i) as [k Hk].
  { apply lookup_lt_Some in Hp. lia. }
  rewrite Hk. simpl. f_equal.
  rewrite Forall_forall in HrP, HrK. unfold is_u16 in Hu.
  rewrite Forall_forall in Hu.
  pose proof (HrP p (list_elem_of_lookup_2 _ _ _ Hp)) as Hlp.
  pose proof (HrK k (list_elem_of_lookup_2 _ _ _ Hk)) as Hlk.
  pose proof (Hu p (list_elem_of_lookup_2 _ _ _ Hp)) as Hup.
  apply list_eq. intros j. rewrite !lookup_zip_with.
  destruct (p !! j) as [x|] eqn:Hx; simpl; [|done].
  destruct (lookup_lt_is_Some_2 k j) as [y Hy].
  { apply lookup_lt_Some in Hx. lia. }
  rewrite Hy. simpl. f_equal. apply sub_add_u16.
  rewrite Forall_forall in Hup. apply Hup. by eapply list_elem_of_lookup_2.
Qed.

Lemma add_u16_rect (P K : ndarray) (h w : nat) :
  rect h w P → rect h w K → rect h w (add_u16 P K).
Proof. apply zip_rows_rect. Qed.

Lemma sub_scalar_rows (a : ndarray) (k : Z) (h w : nat) :
  rect h w a →
  sub_scalar a k =
    zip_with (zip_with sub_u16) a (replicate h (replicate w k)).
Proof.
  intros [Ha Hrows]. unfold sub_scalar. apply list_eq. intros i.
  rewrite list_lookup_fmap, lookup_zip_with.
  destruct (a !! i) as [row|] eqn:Hrow; simpl; [|done].
  rewrite lookup_replicate_2 by (apply lookup_lt_Some in Hrow; lia).
  simpl. f_equal. rewrite Forall_forall in Hrows.
  pose proof (Hrows row (list_elem_of_lookup_2 _ _ _ Hrow)) as Hw.
  apply list_eq. intros j. rewrite list_lookup_fmap, lookup_zip_with.
  destruct (row !! j) as [x|] eqn:Hx; simpl; [|done].
  by rewrite lookup_replicate_2 by (apply lookup_lt_Some in Hx; lia).
Qed.

Lemma replicate_rect h w (k : Z) : rect h w (replicate h (replicate w k)).
Proof.
  split; [apply length_replicate|].
  apply Forall_replicate. apply length_replicate.
Qed.

(** C5, as the code has it: the calibration reference stored on a
    status-1 frame is a grid of unsigned 16-bit samples, each the cropped
    sample minus 1600 modulo 65536.  For every raw frame built by
    inverse-cropping a 240x320 pattern of 16-bit samples with arbitrary
    border data, crop returns the pattern exactly; and when the frame
    carries the pattern offset by a calibration grid (or by the constant
    1600), crop followed by the subtraction of that grid (or of 1600)
    reproduces the pattern exactly, the wrap-around of the 16-bit
    arithmetic cancelling out. *)
Theorem calibration_round_trip :
  (∀ s f d', grab (dev s) = Ok (1, Some f, d') →
     ∃ c, crop (Some f) = Ok c ∧
       get_image_iter s =
         Ok (None, set_calib (set_dev s d') (sub_scalar c 1600)) ∧
       ∀ r k, pix (sub_scalar c 1600) r k =
                (λ x, (x - 1600) mod 65536) <$> pix c r k) ∧
  (∀ top bottom left right P K,
     length top = 4%nat → length left = 240%nat →
     Forall (λ l, length l = 1%nat) left → length right = 240%nat →
     rect 240 320 P → rect 240 320 K → is_u16 P →
     crop (Some (inverse_crop top bottom left right P)) = Ok P ∧
     (∃ c, crop (Some (inverse_crop top bottom left right (add_u16 P K)))
             = Ok c ∧
           sub_arrays c K = Ok P) ∧
     (∃ c, crop (Some (inverse_crop top bottom left right
                         (add_u16 P (replicate 240 (replicate 320 1600)))))
             = Ok c ∧
           sub_scalar c 1600 = P)).
Proof.
  split.
  - intros s f d' Hgrab.
    destruct (get_image_iter_calibration s f d' Hgrab) as (c & Hc & _ & Hi).
    exists c. split; [done|]. split; [done|].
    intros r k. apply pix_sub_scalar.
  - intros top bottom left right P K Htop Hleft Hone Hright HP HK Hu.
    split; [by apply crop_inverse_crop|]. split.
    + exists (add_u16 P K). split.
      * apply crop_inverse_crop; try done. by apply add_u16_rect.
      * destruct (sub_arrays_rect 240 320 (add_u16 P K) K) as [-> _];
          [by apply add_u16_rect|done|].
        f_equal. by apply (sub_add_rows P K 240 320).
    + pose proof (replicate_rect 240 320 1600) as Hr.
      exists (add_u16 P (replicate 240 (replicate 320 1600))). split.
      * apply crop_inverse_crop; try done. by apply add_u16_rect.
      * rewrite (sub_scalar_rows _ _ 240 320) by (by apply add_u16_rect).
        by apply (sub_add_rows P _ 240 320).
Qed.

Lemma calibration_round_trip_witness :
  crop (Some (inverse_crop
                (replicate 4 (replicate 342 1))
                (replicate 16 (replicate 342 4))
                (replicate 240 [2]) (replicate 240 (replicate 21 3))
                (Mock.uniform 240 320 100))) =
    Ok (Mock.uniform 240 320 100) ∧
  (∃ c, crop (Some (inverse_crop
                      (replicate 4 (replicate 342 1))
                      (replicate 16 (replicate 342 4))
                      (replicate 240 [2]) (replicate 240 (replicate 21 3))
                      (add_u16 (Mock.uniform 240 320 100)
                         (Mock.uniform 240 320 65000)))) = Ok c ∧
        sub_arrays c (Mock.uniform 240 320 65000) =
          Ok (Mock.uniform 240 320 100)).
Proof.
  destruct calibration_round_trip as [_ Hround].
  destruct (Hround (replicate 4 (replicate 342 1))
              (replicate 16 (replicate 342 4))
              (replicate 240 [2]) (replicate 240 (replicate 21 3))
              (Mock.uniform 240 320 100) (Mock.uniform 240 320 65000))
    as (Hcrop & Hsub & _);
    [by_compute|by_compute|by_compute|by_compute|by_compute|by_compute
    |unfold is_u16; by_compute|].
  exact (conj Hcrop Hsub).
Defined.

(** C5 as stated fails on the code: the reference is not a signed grid.
    A calibration frame whose samples are 100 gives the reference 64036 =
    (100 - 1600) mod 65536 at every pixel, not -1500. *)
Lemma calibration_round_trip_counterexample :
  grab (Mock.device (Mock.frame x01 x64 x00 0)) =
    Ok (1, Some (<[0%nat := <[2%nat := 1]> (replicate 342 100)]>
                   (Mock.uniform 260 342 100)),
        mkDevice [] [start_request] []) ∧
  crop (Some (<[0%nat := <[2%nat := 1]> (replicate 342 100)]>
                (Mock.uniform 260 342 100))) =
    Ok (Mock.uniform 240 320 100) ∧
  get_image_iter (mkSeekPro (Mock.device (Mock.frame x01 x64 x00 0))
                    None (Some [])) =
    Ok (None, mkSeekPro (mkDevice [] [start_request] [])
                (Some (Mock.uniform 240 320 64036)) (Some [])) ∧
  Mock.uniform 240 320 64036 ≠ Mock.uniform 240 320 (100 - 1600).
Proof.
  split; [by_compute|]. split; [by_compute|]. split; by_compute.
Qed.

(** ** Dead-pixel discovery *)

Lemma rows_of_concat (a : ndarray) (w : nat) :
  Forall (λ row, length row = w) a → rows_of (length a) w (concat a) = a.
Proof.
  induction 1 as [|row a Hrow _ IH]; [done|].
  cbn [length rows_of concat].
  rewrite take_app_length', drop_app_length' by done. by rewrite IH.
Qed.

Lemma length_concat_rect h w (a : ndarray) :
  rect h w a → length (concat a) = (h * w)%nat.
Proof.
  intros [<- Hrows]. induction Hrows as [|row a Hrow _ IH]; [done|].
  cbn [length concat]. rewrite length_app, Hrow, IH. lia.
Qed.

Lemma where_lt_spec (img : ndarray) (t r c : Z) :
  (r, c) ∈ where_lt img t ↔
  0 ≤ r ∧ 0 ≤ c ∧ ∃ v, pix img (Z.to_nat r) (Z.to_nat c) = Some v ∧ v < t.
Proof.
  unfold where_lt. rewrite elem_of_concat. split.
  - intros (l & Hl & Hrc).
    apply elem_of_lookup_imap in Hl as (i & row & -> & Hrow).
    apply list_elem_of_omap in Hrc as (o & Ho & Hsome).
    apply elem_of_lookup_imap in Ho as (j & v & -> & Hv).
    destruct (v <? t) eqn:E; [|done]. apply Z.ltb_lt in E.
    injection Hsome as <- <-.
    split; [lia|]. split; [lia|]. exists v. split; [|done].
    unfold pix. rewrite !Nat2Z.id, Hrow. done.
  - intros (Hr & Hc & v & Hpix & Hv). unfold pix in Hpix.
    destruct (img !! Z.to_nat r) as [row|] eqn:Hrow; [|done].
    simpl in Hpix. eexists. split.
    + apply elem_of_lookup_imap. by exists (Z.to_nat r), row.
    + apply list_elem_of_omap. exists (Some (r, c)). split; [|done].
      apply elem_of_lookup_imap. exists (Z.to_nat c), v.
      split; [|done]. apply Z.ltb_lt in Hv. rewrite Hv.
      by rewrite !Z2Nat.id.
Qed.

(** [np.where] lists no coordinate twice. *)
Lemma NoDup_omap_imap (f : nat → Z → option (Z * Z)) (row : list Z) : ∀ k,
  (∀ c v p, f c v = Some p → p.2 = Z.of_nat (k + c)) →
  NoDup (omap id (imap f row)) ∧
  ∀ p, p ∈ omap id (imap f row) → Z.of_nat k ≤ p.2.
Proof.
  revert f. induction row as [|v row IH]; intros f k Hf.
  - split; [constructor|]. intros p Hp. by apply elem_of_nil in Hp.
  - rewrite imap_cons.
    destruct (IH (f ∘ S) (S k)) as [Hnd Hge].
    { intros c v' p Hp. rewrite (Hf _ _ _ Hp). f_equal. lia. }
    cbn [omap list_omap]. destruct (f 0%nat v) as [p0|] eqn:E; simpl.
    + pose proof (Hf _ _ _ E) as Hp0. split.
      * apply NoDup_cons. split; [|done].
        intros Hin. apply Hge in Hin. lia.
      * intros p [->|Hp]%elem_of_cons; [lia|]. apply Hge in Hp. lia.
    + split; [done|]. intros p Hp. apply Hge in Hp. lia.
Qed.

Lemma NoDup_concat_imap (G : nat → list Z → list (Z * Z)) (img : ndarray) :
  ∀ k,
  (∀ r row, NoDup (G r row)) →
  (∀ r row p, p ∈ G r row → p.1 = Z.of_nat (k + r)) →
  NoDup (concat (imap G img)) ∧
  ∀ p, p ∈ concat (imap G img) → Z.of_nat k ≤ p.1.
Proof.
  revert G. induction img as [|row img IH]; intros G k Hnd HG.
  - split; [constructor|]. intros p Hp. by apply elem_of_nil in Hp.
  - rewrite imap_cons. cbn [concat].
    destruct (IH (G ∘ S) (S k)) as [Hnd' Hge].
    { intros r row'. apply Hnd. }
    { intros r row' p Hp. rewrite (HG _ _ _ Hp). f_equal. lia. }
    split.
    + apply NoDup_app. split; [apply Hnd|]. split; [|done].
      intros p Hp Hin. apply HG in Hp. apply Hge in Hin. lia.
    + intros p [Hp|Hp]%elem_of_app; [apply HG in Hp; lia|].
      apply Hge in Hp. lia.
Qed.

Lemma where_lt_NoDup (img : ndarray) (t : Z) : NoDup (where_lt img t).
Proof.
  unfold where_lt. apply (NoDup_concat_imap _ img 0).
  - intros r row. apply (NoDup_omap_imap _ row 0).
    intros c v p Hp. destruct (v <? t); [|done]. by injection Hp as <-.
  - intros r row p Hp.
    apply list_elem_of_omap in Hp as (o & Ho & Hsome).
    apply elem_of_lookup_imap in Ho as (j & v & -> & Hv).
    destruct (v <? t); [|done]. by injection Hsome as <-.
Qed.

Lemma where_lt_inside h w (img : ndarray) t :
  rect h w img → Forall (inside h w) (where_lt img t).
Proof.
  intros Hrect. apply Forall_forall. intros [r c] Hrc.
  apply where_lt_spec in Hrc as (Hr & Hc & v & Hpix & _).
  unfold pix in Hpix.
  destruct (img !! Z.to_nat r) as [row|] eqn:Hrow; [|done].
  simpl in Hpix. pose proof (rect_row _ _ _ _ _ Hrect Hrow) as Hw.
  apply lookup_lt_Some in Hrow, Hpix. destruct Hrect as [Hh _].
  unfold inside. simpl. lia.
Qed.

Lemma get_dead_pix_list_frame (f : ndarray) :
  rect 260 342 f →
  ∃ img, crop (Some f) = Ok img ∧ rect 240 320 img ∧
    get_dead_pix_list (Some f) = Ok (where_lt img 100).
Proof.
  intros Hrect. destruct (crop_rect f Hrect) as (img & Hcrop & Hrimg & _).
  exists img. split; [done|]. split; [done|].
  unfold get_dead_pix_list, reshape.
  pose proof (length_concat_rect _ _ _ Hrect) as Hlen.
  destruct (len (concat f) =? RAW_HEIGHT * RAW_WIDTH) eqn:E.
  - step_bind. change (Z.to_nat RAW_HEIGHT) with 260%nat.
    change (Z.to_nat RAW_WIDTH) with 342%nat.
    destruct Hrect as [Hh Hrows]. rewrite <- Hh at 1.
    rewrite rows_of_concat by done. rewrite Hcrop. by step_bind.
  - apply Z.eqb_neq in E. unfold len, RAW_HEIGHT, RAW_WIDTH in E. lia.
Qed.

Lemma attempt_Ok d status img d' :
  attempt d = Ok (status, img, d') →
  ∃ d1, init d = Ok d1 ∧ grab d1 = Ok (status, img, d').
Proof.
  unfold attempt. intros H. bind_inv H. eauto.
Qed.

Lemma discover_attempt i rest d out :
  i ≠ 4 →
  discover (i :: rest) d out =
    match attempt d with
    | Ok (status, ret, d2) =>
        if status =? 4
        then dp ← get_dead_pix_list ret; Ok (Some dp, d2, out)
        else discover rest d2 out
    | Raise e => Raise e
    end.
Proof.
  intros Hi. cbn [discover].
  destruct (i =? 4) eqn:E; [apply Z.eqb_eq in E; done|].
  unfold attempt. destruct (init d) as [d1|e]; [|done].
  rewrite !bind_Ok_l. by destruct (grab d1) as [[[status ret] d2]|e].
Qed.

Lemma discover_failed : ∀ n indices rest d d1 out,
  length indices = n → Forall (λ i, i ≠ 4) indices →
  failed_attempts n d = Some d1 →
  discover (indices ++ rest) d out = discover rest d1 out.
Proof.
  induction n as [|n IH]; intros indices rest d d1 out Hlen Hne Hfail.
  - destruct indices; [|done]. by injection Hfail as <-.
  - destruct indices as [|i indices]; [done|].
    apply Forall_cons in Hne as [Hi Hne].
    rewrite <- app_comm_cons, discover_attempt by done.
    cbn [failed_attempts] in Hfail.
    destruct (attempt d) as [[[status ret] d2]|e]; [|done].
    destruct (status =? 4); [done|].
    apply IH; [by injection Hlen|done|done].
Qed.

Lemma discover_Ok : ∀ indices d out dp d' out',
  Forall (λ i, i ≠ 4) indices →
  discover (indices ++ [4]) d out = Ok (dp, d', out') →
  ∃ n d1,
    (n ≤ length indices)%nat ∧ failed_attempts n d = Some d1 ∧
    ((n = length indices ∧ dp = Some [] ∧ d' = d1 ∧ out' = out ++ [warning]) ∨
     ((n < length indices)%nat ∧
      ∃ ret l, attempt d1 = Ok (4, ret, d') ∧
               get_dead_pix_list ret = Ok l ∧ dp = Some l ∧ out' = out)).
Proof.
  induction indices as [|i indices IH]; intros d out dp d' out' Hne H.
  - injection H as <- <- <-. exists 0%nat, d.
    split; [done|]. split; [done|]. by left.
  - apply Forall_cons in Hne as [Hi Hne].
    rewrite <- app_comm_cons, discover_attempt in H by done.
    destruct (attempt d) as [[[status ret] d2]|e] eqn:Hatt; [|done].
    destruct (status =? 4) eqn:E.
    + apply Z.eqb_eq in E. subst status. bind_inv H.
      injection H as <- <- <-. exists 0%nat, d.
      split; [simpl; lia|]. split; [done|]. right.
      split; [simpl; lia|]. by exists ret, a.
    + apply IH in H as (n & d1 & Hn & Hfail & Hcases); [|done].
      exists (S n), d1. split; [simpl; lia|]. split.
      { cbn [failed_attempts]. by rewrite Hatt, E. }
      destruct Hcases as [(-> & Hrest)|(Hlt & Hrest)].
      * left. done.
      * right. split; [simpl; lia|done].
Qed.

Lemma range_5 : py_range 0 5 1 = [0; 1; 2; 3; 4].
Proof. reflexivity. Qed.

(** C8, as the code has it: the loop runs over range(5) and its fifth
    pass only gives up, so discovery makes at most 4 rounds of init()
    then grab().  If one of these rounds returns status 4 with a complete
    frame, after rounds that returned other statuses, the dead-pixel list
    is exactly the coordinates of the cropped samples below 100 and
    nothing is printed; if 4 rounds in a row return other statuses, the
    list is empty, the warning is printed and no error is raised; and
    whenever the constructor returns, it has made at most 4 rounds and
    the session is without calibration reference and ready for
    get_image(). *)
Theorem dead_pixel_discovery (d : Device) :
  (∀ n d1 frame d2,
     (n < 4)%nat → failed_attempts n d = Some d1 →
     attempt d1 = Ok (4, Some frame, d2) →
     ∃ img, crop (Some frame) = Ok img ∧
       __init__ (Some d) =
         Ok (mkSeekPro d2 None (Some (where_lt img 100)), []) ∧
       NoDup (where_lt img 100) ∧
       ∀ r c, (r, c) ∈ where_lt img 100 ↔
              0 ≤ r ∧ 0 ≤ c ∧
              ∃ v, pix img (Z.to_nat r) (Z.to_nat c) = Some v ∧ v < 100) ∧
  (∀ d4, failed_attempts 4 d = Some d4 →
     __init__ (Some d) = Ok (mkSeekPro d4 None (Some []), [warning])) ∧
  (∀ s out, __init__ (Some d) = Ok (s, out) →
     ready s ∧ calib s = None ∧
     ∃ n d1, (n ≤ 4)%nat ∧ failed_attempts n d = Some d1 ∧
       ((n = 4%nat ∧ dev s = d1 ∧ dead_pixels s = Some [] ∧
         out = [warning]) ∨
        ((n < 4)%nat ∧
         ∃ frame, attempt d1 = Ok (4, Some frame, dev s) ∧ out = []))).
Proof.
  split; [|split].
  - intros n d1 frame d2 Hn Hfail Hatt.
    pose proof Hatt as (d1' & _ & Hgrab)%attempt_Ok.
    apply grab_Ok in Hgrab as (ret & _ & _ & Hrect).
    destruct (get_dead_pix_list_frame frame Hrect)
      as (img & Hcrop & _ & Hlist).
    exists img. split; [done|].
    split; [|split; [apply where_lt_NoDup|intros r c; apply where_lt_spec]].
    assert (∃ indices i rest,
      [0; 1; 2; 3; 4] = indices ++ i :: rest ∧ length indices = n ∧
      Forall (λ i, i ≠ 4) indices ∧ i ≠ 4) as (ix & i & rest & Heq & Hl & Hne & Hi).
    { destruct n as [|[|[|[|n]]]]; [| | | |lia].
      - exists [], 0, [1; 2; 3; 4]. repeat split; [constructor|lia].
      - exists [0], 1, [2; 3; 4]. repeat split; [|lia].
        repeat constructor; lia.
      - exists [0; 1], 2, [3; 4]. repeat split; [|lia].
        repeat constructor; lia.
      - exists [0; 1; 2], 3, [4]. repeat split; [|lia].
        repeat constructor; lia. }
    unfold __init__. rewrite range_5, Heq.
    rewrite (discover_failed n ix (i :: rest) d d1 []) by done.
    rewrite discover_attempt, Hatt by done.
    change (4 =? 4) with true. cbv iota. rewrite Hlist. by step_bind.
  - intros d4 Hfail. unfold __init__. rewrite range_5.
    change [0; 1; 2; 3; 4] with ([0; 1; 2; 3] ++ [4]).
    rewrite (discover_failed 4 [0; 1; 2; 3] [4] d d4 []);
      [done|done| |done].
    repeat constructor; lia.
  - intros s out H. unfold __init__ in H. rewrite range_5 in H.
    change [0; 1; 2; 3; 4] with ([0; 1; 2; 3] ++ [4]) in H.
    bind_inv H. destruct a as [[dp d'] out0]. injection H as <- <-.
    apply discover_Ok in E as (n & d1 & Hn & Hfail & Hcases);
      [|repeat constructor; lia].
    destruct Hcases as [(-> & -> & -> & ->)|(Hlt & ret & l & Hatt & Hl & -> & ->)].
    + split; [split; [done|constructor]|]. split; [done|].
      exists 4%nat, d1. split; [done|]. split; [done|]. left. done.
    + destruct ret as [frame|]; [|done].
      pose proof Hatt as (d1' & _ & Hgrab)%attempt_Ok.
      apply grab_Ok in Hgrab as (ret & _ & _ & Hrect).
      destruct (get_dead_pix_list_frame frame Hrect)
        as (img & Hcrop & Hrimg & Hlist).
      assert (l = where_lt img 100) as -> by congruence.
      split; [split; [done|by apply (where_lt_inside 240 320)]|].
      split; [done|].
      exists n, d1. split; [simpl in Hn; lia|]. split; [done|]. right.
      split; [simpl in Hlt; lia|]. by exists frame.
Qed.

(** Status 4 on the third round. *)
Lemma dead_pixel_discovery_witness :
  ∃ img, crop (Some (Mock.marked_grid 4)) = Ok img ∧
    __init__ (Some (Mock.device (Mock.frame x03 x10 x27 0 ++
                                 Mock.frame x03 x10 x27 0 ++
                                 Mock.marked_frame x04))) =
      Ok (mkSeekPro (mkDevice [] (Mock.rounds 3) []) None
            (Some (where_lt img 100)), []).
Proof.
  destruct (dead_pixel_discovery
              (Mock.device (Mock.frame x03 x10 x27 0 ++
                            Mock.frame x03 x10 x27 0 ++
                            Mock.marked_frame x04)))
    as (Hfound & _ & _).
  destruct (Hfound 2%nat (mkDevice [] (Mock.rounds 2) (Mock.marked_frame x04))
              (Mock.marked_grid 4) (mkDevice [] (Mock.rounds 3) []))
    as (img & Hcrop & Hinit & _); [lia|by_compute|by_compute|].
  exists img. exact (conj Hcrop Hinit).
Defined.

(** The same session, computed: the two marked samples are found. *)
Example init_third_round :
  __init__ (Some (Mock.device (Mock.frame x03 x10 x27 0 ++
                               Mock.frame x03 x10 x27 0 ++
                               Mock.marked_frame x04))) =
    Ok (mkSeekPro (mkDevice [] (Mock.rounds 3) []) None
          (Some [(0, 0); (239, 319)]), []).
Proof. by_compute. Qed.

(** C8 as stated fails on the code: with a budget of 5 rounds, a device
    whose fifth frame is the dead-pixel map is never asked for it.  After
    four rounds of status 3 the constructor gives up with an empty list,
    although the next round would return status 4 with two samples below
    100. *)
Lemma dead_pixel_discovery_counterexample :
  failed_attempts 4
      (Mock.device (Mock.frame x03 x10 x27 0 ++ Mock.frame x03 x10 x27 0 ++
                    Mock.frame x03 x10 x27 0 ++ Mock.frame x03 x10 x27 0 ++
                    Mock.marked_frame x04)) =
    Some (mkDevice [] (Mock.rounds 4) (Mock.marked_frame x04)) ∧
  attempt (mkDevice [] (Mock.rounds 4) (Mock.marked_frame x04)) =
    Ok (4, Some (Mock.marked_grid 4), mkDevice [] (Mock.rounds 5) []) ∧
  get_dead_pix_list (Some (Mock.marked_grid 4)) = Ok [(0, 0); (239, 319)] ∧
  __init__
      (Some (Mock.device (Mock.frame x03 x10 x27 0 ++ Mock.frame x03 x10 x27 0 ++
                          Mock.frame x03 x10 x27 0 ++ Mock.frame x03 x10 x27 0 ++
                          Mock.marked_frame x04))) =
    Ok (mkSeekPro (mkDevice [] (Mock.rounds 4) (Mock.marked_frame x04))
          None (Some []), [warning]).
Proof.
  split; [by_compute|]. split; [by_compute|]. split; by_compute.
Qed.

(** * Further properties of the driver *)

(** ** The handshake *)

Lemma send_msg_outcome d request data :
  send_msg d request data =
    if decide (acked d (Mock.write request data))
    then Ok (logged d [Mock.write request data])
    else Raise (refusal d (Mock.write request data)).
Proof.
  destruct (decide (acked d (Mock.write request data))) as [Hack|Hack].
  - by apply send_msg_acked.
  - unfold acked, refusal, Mock.write in *. cbn [payload] in Hack.
    unfold send_msg, ctrl_transfer.
    destruct (ctrl_ack d _) as [n|]; [|done].
    rewrite bind_Ok_l. cbv beta iota.
    destruct (n =? len data) eqn:En; [|done].
    apply Z.eqb_eq in En. congruence.
Qed.

Lemma logged_logged d l k : logged (logged d l) k = logged d (l ++ k).
Proof. unfold logged. cbn. by rewrite app_assoc. Qed.

Lemma logged_nil d : logged d [] = d.
Proof. destruct d. unfold logged. cbn. by rewrite app_nil_r. Qed.

(** A write that was not sent in between is answered as before. *)
Lemma ctrl_ack_logged d l rq :
  rq ∉ l → ctrl_ack (logged d l) rq = ctrl_ack d rq.
Proof.
  intros Hrq. unfold ctrl_ack, answer, logged. cbn [ctrl_faults ctrl_log].
  rewrite filter_app.
  assert (filter (λ r, r = rq) l = []) as ->; [|by rewrite app_nil_r].
  induction l as [|r l IH]; [done|].
  apply not_elem_of_cons in Hrq as [Hne Hrq].
  rewrite filter_cons_False by congruence. by apply IH.
Qed.

Lemma acked_logged d l rq : rq ∉ l → acked (logged d l) rq ↔ acked d rq.
Proof. intros Hrq. unfold acked. by rewrite ctrl_ack_logged. Qed.

Lemma refusal_logged d l rq : rq ∉ l → refusal (logged d l) rq = refusal d rq.
Proof. intros Hrq. unfold refusal. by rewrite ctrl_ack_logged. Qed.

Lemma first_refused_logged d l k :
  Forall (λ rq, rq ∉ l) k →
  first_refused (logged d l) k = first_refused d k.
Proof.
  induction 1 as [|rq k Hrq _ IH]; [done|]. cbn [first_refused].
  rewrite IH. destruct (decide (acked d rq)) as [Hack|Hack].
  - rewrite decide_True; [done|]. by apply acked_logged.
  - rewrite decide_False; [done|]. by rewrite acked_logged.
Qed.

Lemma first_refused_elem d l rq : first_refused d l = Some rq → rq ∈ l.
Proof.
  induction l as [|r l IH]; cbn [first_refused]; [done|].
  destruct (decide (acked d r)).
  - intros H. right. by apply IH.
  - intros [= ->]. by left.
Qed.

(** Writes that differ from one another are answered each as the device
    would have answered it at the start. *)
Lemma send_all_outcome (l : list ControlRequest) : ∀ d,
  NoDup l →
  Forall (λ rq, bmRequestType rq = 0x41 ∧ wValue rq = 0 ∧ wIndex rq = 0) l →
  send_all l d =
    match first_refused d l with
    | None => Ok (logged d l)
    | Some rq => Raise (refusal d rq)
    end.
Proof.
  induction l as [|rq rest IH]; intros d Hnd Hl; cbn [send_all first_refused].
  - by rewrite logged_nil.
  - apply NoDup_cons in Hnd as [Hrq Hnd].
    apply Forall_cons in Hl as [(H1 & H2 & H3) Hrest].
    assert (Mock.write (bRequest rq) (payload rq) = rq) as Heq.
    { destruct rq. cbn in *. unfold Mock.write. congruence. }
    rewrite send_msg_outcome, Heq.
    destruct (decide (acked d rq)) as [Hack|Hack]; [|done].
    rewrite bind_Ok_l, IH by done.
    assert (Forall (λ r, r ∉ [rq]) rest) as Hfar.
    { apply Forall_forall. intros r Hr ->%list_elem_of_singleton. done. }
    rewrite first_refused_logged by done.
    destruct (first_refused d rest) as [r|] eqn:E.
    + rewrite refusal_logged; [done|].
      intros ->%list_elem_of_singleton. by apply first_refused_elem in E.
    + by rewrite logged_logged.
Qed.

(** [init] sends the writes of the handshake, one after the other. *)
Lemma init_as_writes (d : Device) : init d = send_all Mock.handshake d.
Proof.
  unfold init.
  replace (py_range 0 10 1) with [0; 1; 2; 3; 4; 5; 6; 7; 8; 9] by reflexivity.
  replace (py_range 0 256 32) with [0; 32; 64; 96; 128; 160; 192; 224]
    by reflexivity.
  let h := eval vm_compute in Mock.handshake in
  change Mock.handshake with h.
  cbn [send_all for_each bRequest payload app].
  repeat match goal with
  | |- context [bytes_of ?l] =>
      let v := eval vm_compute in (bytes_of l) in
      change (bytes_of l) with v
  end.
  rewrite ?bind_Ok_l. cbn [app].
  unfold SET_OPERATION_MODE, SET_FACTORY_SETTINGS_FEATURES,
    SET_FIRMWARE_INFO_FEATURES, SET_IMAGE_PROCESSING_MODE.
  repeat match goal with
  | |- context [send_msg ?dv ?r ?data] =>
      destruct (send_msg dv r data) as [?d|?e];
      [rewrite ?bind_Ok_l; cbv beta; cbn [app]|reflexivity]
  end.
  reflexivity.
Qed.

Lemma first_refused_None d l :
  first_refused d l = None ↔ Forall (acked d) l.
Proof.
  induction l as [|rq l IH]; cbn [first_refused].
  - split; [constructor|done].
  - destruct (decide (acked d rq)) as [Hack|Hack].
    + rewrite IH. split; [by constructor|]. by intros [_ ?]%Forall_cons.
    + split; [done|]. by intros [? _]%Forall_cons.
Qed.

Lemma first_refused_Some d l rq :
  first_refused d l = Some rq →
  ∃ before after, l = before ++ rq :: after ∧
    Forall (acked d) before ∧ ¬ acked d rq.
Proof.
  induction l as [|r l IH]; cbn [first_refused]; [done|].
  destruct (decide (acked d r)) as [Hack|Hack].
  - intros (before & after & -> & Hb & Hn)%IH.
    exists (r :: before), after. split; [done|]. split; [by constructor|done].
  - intros [= ->]. exists [], l. split; [done|]. split; [constructor|done].
Qed.

Lemma handshake_NoDup : NoDup Mock.handshake.
Proof. by_compute. Qed.

Lemma handshake_writes :
  Forall (λ rq, bmRequestType rq = 0x41 ∧ wValue rq = 0 ∧ wIndex rq = 0)
    Mock.handshake.
Proof. by_compute. Qed.

(** X1: init() sends the 87 control writes of the handshake in their
    order and touches nothing but the control pipe.  It returns exactly
    when the device acknowledges every one of them in full, with these 87
    writes logged after the earlier ones; otherwise it stops at the first
    write that is not, raising USBError if the transfer failed and
    AssertionError if the device acknowledged another number of bytes. *)
Theorem init_handshake (d : Device) :
  length Mock.handshake = 87%nat ∧
  init d =
    match first_refused d Mock.handshake with
    | None => Ok (logged d Mock.handshake)
    | Some rq => Raise (refusal d rq)
    end ∧
  (first_refused d Mock.handshake = None ↔ Forall (acked d) Mock.handshake) ∧
  match first_refused d Mock.handshake with
  | None => True
  | Some rq =>
      ∃ before after, Mock.handshake = before ++ rq :: after ∧
        Forall (acked d) before ∧ ¬ acked d rq
  end.
Proof.
  split; [reflexivity|]. split; [|split].
  - rewrite init_as_writes.
    apply send_all_outcome; [apply handshake_NoDup|apply handshake_writes].
  - apply first_refused_None.
  - destruct (first_refused d Mock.handshake) as [rq|] eqn:E; [|done].
    by apply first_refused_Some.
Qed.

(** X2: deinit() sends the operation-mode reset, the write that opens the
    handshake, up to three times, each a transfer of its own that the
    device acknowledges or not at that time.  It returns exactly when
    all three are acknowledged in full, with the three writes logged and
    the bulk queue as it was; otherwise it stops at the first of them
    that is not, raising USBError for a failed transfer and
    AssertionError for another number of bytes.  Each of the three can
    be the one that fails, the earlier ones having succeeded. *)
Theorem deinit_outcome (d : Device) :
  head Mock.handshake = Some reset_request ∧
  deinit d =
    (if decide (acked d reset_request) then
       if decide (acked (logged d [reset_request]) reset_request) then
         if decide (acked (logged d [reset_request; reset_request])
                      reset_request)
         then Ok (logged d [reset_request; reset_request; reset_request])
         else Raise (refusal (logged d [reset_request; reset_request])
                       reset_request)
       else Raise (refusal (logged d [reset_request]) reset_request)
     else Raise (refusal d reset_request)) ∧
  ∀ k : nat, (k < 3)%nat →
    ∃ d0 : Device,
      (∀ i : nat, (i < k)%nat →
         acked (logged d0 (replicate i reset_request)) reset_request) ∧
      ¬ acked (logged d0 (replicate k reset_request)) reset_request ∧
      deinit d0 = Raise USBError.
Proof.
  split; [reflexivity|]. split.
  - unfold deinit. replace (py_range 0 3 1) with [0; 1; 2] by reflexivity.
    cbn [for_each]. change 0x3C with SET_OPERATION_MODE.
    rewrite send_msg_outcome.
    change (Mock.write SET_OPERATION_MODE [x00; x00]) with reset_request.
    destruct (decide (acked d reset_request)) as [H1|H1]; [|done].
    rewrite bind_Ok_l, send_msg_outcome.
    change (Mock.write SET_OPERATION_MODE [x00; x00]) with reset_request.
    destruct (decide (acked (logged d [reset_request]) reset_request))
      as [H2|H2]; [|done].
    rewrite bind_Ok_l, send_msg_outcome, !logged_logged.
    change (Mock.write SET_OPERATION_MODE [x00; x00]) with reset_request.
    cbn [app].
    destruct (decide (acked (logged d [reset_request; reset_request])
                        reset_request)) as [H3|H3]; [|done].
    done.
  - intros k Hk.
    exists (mkDevice (replicate k (reset_request, Some 2)
                        ++ [(reset_request, None)]) [] []).
    destruct k as [|[|[|k]]]; [| | |lia].
    + split; [intros i Hi; lia|]. split; by_compute.
    + split; [|split; by_compute].
      intros [|i] Hi; [by_compute|lia].
    + split; [|split; by_compute].
      intros [|[|i]] Hi; [by_compute|by_compute|lia].
Qed.

(** ** The reads of [grab] *)

Lemma read_until_stop toread ret queue :
  toread - len ret ≤ 512 → read_until toread ret queue = Ok (ret, queue).
Proof.
  intros H. destruct queue; simpl;
    (destruct (toread - len ret >? 512) eqn:E; [lia|done]).
Qed.

Lemma read_until_run toread taken : ∀ ret queue,
  Forall (λ p, len p ≤ 13680) taken →
  (∀ k, (k < length taken)%nat →
        toread - len (ret ++ concat (take k taken)) > 512) →
  read_until toread ret (taken ++ queue) =
    read_until toread (ret ++ concat taken) queue.
Proof.
  induction taken as [|p taken IH]; intros ret queue Hfit Hmore.
  - simpl. by rewrite app_nil_r.
  - apply Forall_cons in Hfit as [Hp Hfit].
    pose proof (Hmore 0%nat) as H0. simpl in H0. rewrite app_nil_r in H0.
    cbn [app read_until concat].
    destruct (toread - len ret >? 512) eqn:E; [|lia].
    destruct (len p <=? 13680) eqn:E1; [|lia].
    rewrite IH, app_assoc; [done|done|].
    intros k Hk. specialize (Hmore (S k)). simpl in Hmore.
    rewrite <- app_assoc. apply Hmore. lia.
Qed.

Lemma read_until_minimal toread queue : ∀ ret ret' queue',
  read_until toread ret queue = Ok (ret', queue') →
  ∃ taken, queue = taken ++ queue' ∧ ret' = ret ++ concat taken ∧
    Forall (λ p, len p ≤ 13680) taken ∧
    (∀ k, (k < length taken)%nat →
          toread - len (ret ++ concat (take k taken)) > 512).
Proof.
  induction queue as [|pkt rest IH]; intros ret ret' queue' H; simpl in H.
  - destruct (toread - len ret >? 512); [done|]. injection H as <- <-.
    exists []. simpl. rewrite app_nil_r. repeat split; [constructor|].
    intros k Hk. lia.
  - destruct (toread - len ret >? 512) eqn:E.
    + destruct (len pkt <=? 13680) eqn:E1; [|done].
      apply IH in H as (taken & -> & -> & Hfit & Hmore).
      exists (pkt :: taken). simpl. rewrite app_assoc.
      repeat split; [constructor; [lia|done]|].
      intros [|k] Hk; simpl.
      * rewrite app_nil_r. lia.
      * rewrite app_assoc. apply Hmore. lia.
    + injection H as <- <-. exists []. simpl. rewrite app_nil_r.
      repeat split; [constructor|]. intros k Hk. lia.
Qed.

(** A run of packets that reaches the threshold, and no shorter one, is
    what the reads of [grab] take. *)
Lemma grab_read_run (d : Device) (taken rest : list (list byte)) :
  acked d start_request →
  taken ≠ [] → bulk_in d = taken ++ rest →
  Forall (λ p, len p ≤ 13680) taken →
  177840 - len (concat taken) ≤ 512 →
  (∀ k, (0 < k < length taken)%nat →
        177840 - len (concat (take k taken)) > 512) →
  grab_read d =
    Ok (concat taken,
        mkDevice (ctrl_faults d) (ctrl_log d ++ [start_request]) rest).
Proof.
  intros Hack Hne Hq Hfits Hexit Hmore.
  destruct taken as [|pkt taken]; [done|].
  apply Forall_cons in Hfits as [Hfit Hfits].
  unfold grab_read. rewrite toread_eq.
  rewrite (send_msg_acked d) by exact Hack.
  rewrite bind_Ok_l. unfold dev_read. cbn [bulk_in]. rewrite Hq.
  cbn [app]. destruct (len pkt <=? 13680) eqn:E; [|lia].
  rewrite bind_Ok_l. cbv beta iota. unfold set_bulk_in.
  cbn [bulk_in ctrl_faults ctrl_log].
  rewrite read_until_run; [|done|].
  - rewrite read_until_stop by exact Hexit. done.
  - intros k Hk. specialize (Hmore (S k)). simpl in Hmore.
    apply Hmore. simpl. lia.
Qed.

(** X3: grab() sends one start request and then reads the shortest run of
    queued packets that brings the buffer within 512 bytes of the frame
    size: it returns from its reads exactly when the start request is
    acknowledged in full and some non-empty run of packets at the head of
    the queue, none larger than the read size, reaches that threshold
    while no shorter run does.  The buffer is that run, the packets after
    it stay queued, and the device has logged the one request. *)
Theorem grab_reads (d : Device) (ret : list byte) (d' : Device) :
  grab_read d = Ok (ret, d') ↔
  acked d start_request ∧
  ∃ taken,
    taken ≠ [] ∧ bulk_in d = taken ++ bulk_in d' ∧ ret = concat taken ∧
    d' = mkDevice (ctrl_faults d) (ctrl_log d ++ [start_request]) (bulk_in d') ∧
    Forall (λ p, len p ≤ 13680) taken ∧
    2 * RAW_WIDTH * RAW_HEIGHT - len ret ≤ 512 ∧
    ∀ k, (0 < k < length taken)%nat →
         2 * RAW_WIDTH * RAW_HEIGHT - len (concat (take k taken)) > 512.
Proof.
  rewrite toread_eq. split.
  - unfold grab_read. intros H. rewrite toread_eq in H.
    bind_inv H. apply send_msg_Ok in E as [Hack ->].
    unfold dev_read in H. simpl in H.
    destruct (bulk_in d) as [|pkt rest] eqn:Hq; [discriminate|].
    destruct (len pkt <=? 13680) eqn:Hfit; [|discriminate]. simpl in H.
    bind_inv H. destruct a as [ret0 queue0]. injection H as <- <-.
    pose proof E as (Hexit & _)%read_until_Ok.
    apply read_until_minimal in E as (taken & -> & -> & Hfits & Hmore).
    split; [done|]. exists (pkt :: taken).
    repeat split; try done.
    + constructor; [lia|done].
    + intros [|k] Hk; [lia|]. simpl. apply Hmore. simpl in Hk. lia.
  - intros (Hack & taken & Hne & Hq & -> & -> & Hfits & Hexit & Hmore).
    by apply grab_read_run.
Qed.

Lemma len_concat_uniform (pkts : list (list byte)) (n : Z) :
  Forall (λ p, len p = n) pkts → len (concat pkts) = Z.of_nat (length pkts) * n.
Proof.
  induction 1 as [|p pkts Hp _ IH]; [done|].
  cbn [concat length]. rewrite len_app, Hp, IH. lia.
Qed.

(** X4: when the start request is acknowledged and the queue begins with 13
    packets of 13680 bytes, grab() takes exactly these 13, whatever they
    hold and whatever follows them, and returns a 260x342 frame with the
    status byte read at index 4 of the first packet; the packets that
    follow stay queued for the next grab(). *)
Theorem grab_thirteen_packets (d : Device) (pkts rest : list (list byte)) :
  acked d start_request →
  bulk_in d = pkts ++ rest → length pkts = 13%nat →
  Forall (λ p, len p = 13680) pkts →
  ∃ status img,
    concat pkts !! 4%nat = Some status ∧ rect 260 342 img ∧
    grab d =
      Ok (int_of_byte status, Some img,
          mkDevice (ctrl_faults d) (ctrl_log d ++ [start_request]) rest).
Proof.
  intros Hack Hq Hlen Hfull.
  assert (grab_read d =
            Ok (concat pkts,
                mkDevice (ctrl_faults d) (ctrl_log d ++ [start_request]) rest))
    as Hread.
  { apply grab_read_run; try done.
    - by destruct pkts.
    - eapply Forall_impl; [exact Hfull|]. simpl. intros. lia.
    - rewrite (len_concat_uniform _ 13680) by done. lia.
    - intros k Hk. rewrite (len_concat_uniform _ 13680).
      + rewrite length_take. lia.
      + by apply Forall_take. }
  assert (len (concat pkts) = 177840) as Htotal.
  { rewrite (len_concat_uniform _ 13680) by done. lia. }
  destruct (grab_from_read _ _ _ Hread) as (status & Hst & Hfullframe & _).
  destruct (Hfullframe Htotal) as (flat & _ & Hrect & Hgrab).
  destruct (getitem_nonneg (concat pkts) 4) as (b & Hb & Hb'); [lia|].
  exists status. revert Hrect Hgrab. generalize (rows_of 260 342 flat).
  intros img Hrect Hgrab. exists img.
  split; [|split; [done|done]].
  change (Z.to_nat 4) with 4%nat in Hb. congruence.
Qed.

Lemma grab_thirteen_packets_witness :
  ∃ status img,
    concat (Mock.marked_frame x03) !! 4%nat = Some status ∧
    rect 260 342 img ∧
    grab (Mock.device (Mock.marked_frame x03 ++ Mock.frame x01 x10 x27 0)) =
      Ok (int_of_byte status, Some img,
          mkDevice [] [start_request] (Mock.frame x01 x10 x27 0)).
Proof.
  apply (grab_thirteen_packets
           (Mock.device (Mock.marked_frame x03 ++ Mock.frame x01 x10 x27 0))
           (Mock.marked_frame x03) (Mock.frame x01 x10 x27 0));
    [reflexivity|reflexivity|reflexivity|by_compute].
Defined.

(** ** The samples of a frame *)

Lemma int_of_byte_range (b : byte) : 0 ≤ int_of_byte b < 256.
Proof.
  unfold int_of_byte. pose proof (Byte.to_N_bounded b). lia.
Qed.

Lemma u16_le_range (lo hi : byte) : 0 ≤ u16_le lo hi < 65536.
Proof.
  unfold u16_le. pose proof (int_of_byte_range lo).
  pose proof (int_of_byte_range hi). lia.
Qed.

Lemma u16_le_low (lo hi : byte) : u16_le lo hi mod 256 = int_of_byte lo.
Proof.
  unfold u16_le. pose proof (int_of_byte_range lo).
  rewrite (Z.mul_comm 256), Z.mod_add by lia. by apply Z.mod_small.
Qed.

Lemma frombuffer_u16_range : ∀ n buf flat,
  (length buf ≤ n)%nat → frombuffer_u16 buf = Ok flat →
  Forall (λ x, 0 ≤ x < 65536) flat.
Proof.
  induction n as [|n IH]; intros buf flat Hn H.
  - destruct buf; [|simpl in Hn; lia]. injection H as <-. constructor.
  - destruct buf as [|lo [|hi rest]]; simpl in H.
    + injection H as <-. constructor.
    + discriminate.
    + bind_inv H. injection H as <-. constructor; [apply u16_le_range|].
      apply (IH rest); [simpl in Hn; lia|done].
Qed.

Lemma rows_of_u16 h w : ∀ flat,
  Forall (λ x, 0 ≤ x < 65536) flat → is_u16 (rows_of h w flat).
Proof.
  induction h as [|h IH]; intros flat Hflat; simpl; [constructor|].
  constructor; [by apply Forall_take|]. apply IH. by apply Forall_drop.
Qed.

(** What [grab] returns with a frame, in terms of the buffer it read. *)
Lemma grab_frame d status img d' :
  grab d = Ok (status, Some img, d') →
  ∃ ret b,
    grab_read d = Ok (ret, d') ∧ len ret = 177840 ∧
    ret !! 4%nat = Some b ∧ status = int_of_byte b ∧
    rect 260 342 img ∧ is_u16 img ∧
    ∀ r c, (r < 260)%nat → (c < 342)%nat →
      ∃ lo hi,
        ret !! (2 * (r * 342 + c))%nat = Some lo ∧
        ret !! (2 * (r * 342 + c) + 1)%nat = Some hi ∧
        pix img r c = Some (u16_le lo hi).
Proof.
  intros Hgrab.
  pose proof Hgrab as (ret & Hread & Hlen & Hrect)%grab_Ok.
  destruct (grab_from_read _ _ _ Hread) as (b & Hb & Hfull & _).
  destruct (Hfull Hlen) as (flat & Hflat & _ & Hg).
  destruct (getitem_nonneg ret 4) as (b' & Hb' & Hb''); [lia|].
  change (Z.to_nat 4) with 4%nat in Hb'.
  assert (b' = b) as -> by congruence.
  pose proof (frombuffer_u16_Ok _ _ _ (le_n _) Hflat) as [Hl Hsamples].
  pose proof (frombuffer_u16_range _ _ _ (le_n _) Hflat) as Hrange.
  pose proof (rows_of_u16 260 342 flat Hrange) as Hu.
  pose proof (λ r c, rows_of_pix 260 342 flat r c) as Hpix.
  revert Hg Hu Hpix. generalize (rows_of 260 342 flat). intros a Hg Hu Hpix.
  rewrite Hg in Hgrab. injection Hgrab as Hst <-.
  exists ret, b. do 6 (split; [done|]).
  intros r c Hr Hc.
  destruct (lookup_lt_is_Some_2 ret (2 * (r * 342 + c))%nat) as [lo Hlo].
  { unfold len in Hlen. lia. }
  destruct (lookup_lt_is_Some_2 ret (2 * (r * 342 + c) + 1)%nat) as [hi Hhi].
  { unfold len in Hlen. lia. }
  exists lo, hi. split; [done|]. split; [done|].
  rewrite Hpix by done. by apply Hsamples.
Qed.

(** X5: a frame returned by grab() is the 177840-byte buffer read as
    260x342 little-endian 16-bit samples, each in the range of uint16; the
    status is the byte at index 4, that is the low byte of the sample at
    row 0, column 2, which lies in the border that crop removes. *)
Theorem grab_frame_samples (d : Device) (status : Z) (img : ndarray)
    (d' : Device) :
  grab d = Ok (status, Some img, d') →
  rect 260 342 img ∧ is_u16 img ∧
  (∃ ret, grab_read d = Ok (ret, d') ∧ len ret = 177840 ∧
     ∀ r c, (r < 260)%nat → (c < 342)%nat →
       ∃ lo hi,
         ret !! (2 * (r * 342 + c))%nat = Some lo ∧
         ret !! (2 * (r * 342 + c) + 1)%nat = Some hi ∧
         pix img r c = Some (u16_le lo hi)) ∧
  (∃ v, pix img 0 2 = Some v ∧ status = v mod 256) ∧
  0 ≤ status < 256.
Proof.
  intros (ret & b & Hread & Hlen & Hb & -> & Hrect & Hu & Hpix)%grab_frame.
  split; [done|]. split; [done|]. split; [|split].
  - exists ret. done.
  - destruct (Hpix 0%nat 2%nat) as (lo & hi & Hlo & _ & Hv); [lia|lia|].
    exists (u16_le lo hi). split; [done|].
    rewrite u16_le_low. simpl in Hlo. congruence.
  - apply int_of_byte_range.
Qed.

Lemma grab_frame_samples_witness :
  ∃ v, pix (Mock.marked_grid 3) 0 2 = Some v ∧ 3 = v mod 256.
Proof.
  destruct (grab_frame_samples (Mock.device (Mock.marked_frame x03)) 3
              (Mock.marked_grid 3) (mkDevice [] [start_request] []))
    as (_ & _ & _ & Hst & _); [by_compute|].
  exact Hst.
Defined.

(** X6: grab() raises nothing but USBError and AssertionError: neither the
    status read nor the reshape can fail.  It raises AssertionError
    exactly when the device acknowledges the start request with a number
    of bytes other than 4. *)
Theorem grab_raises_only (d : Device) :
  match grab d with
  | Ok _ => True
  | Raise e => e = USBError ∨ e = AssertionError
  end ∧
  (grab d = Raise AssertionError ↔
   ∃ n, ctrl_ack d start_request = Some n ∧ n ≠ 4).
Proof.
  split.
  - destruct (grab d) as [r|e] eqn:E; [done|]. by eapply grab_exn.
  - unfold grab, grab_read. change (Mock.write START_GET_IMAGE_TRANSFER
      [x58; x5b; x01; x00]) with start_request.
    rewrite send_msg_outcome.
    change (Mock.write START_GET_IMAGE_TRANSFER [x58; x5b; x01; x00])
      with start_request.
    destruct (decide (acked d start_request)) as [Hack|Hack].
    + split.
      * intros H. exfalso. rewrite bind_Ok_l in H.
        assert (grab (logged d []) = grab d) as Hsame
          by (by rewrite logged_nil).
        destruct (grab_read d) as [[ret d1]|e] eqn:Hread.
        -- destruct (grab_from_read _ _ _ Hread) as (b & _ & Hfull & Hpart).
           unfold grab, grab_read in Hfull, Hpart, Hread.
           rewrite send_msg_outcome in Hfull, Hpart, Hread.
           change (Mock.write START_GET_IMAGE_TRANSFER [x58; x5b; x01; x00])
             with start_request in Hfull, Hpart, Hread.
           rewrite decide_True, bind_Ok_l in Hfull, Hpart, Hread by done.
           destruct (decide (len ret = 177840)) as [Hl|Hl].
           ++ destruct (Hfull Hl) as (flat & _ & _ & Hg). congruence.
           ++ rewrite (Hpart Hl) in H. done.
        -- pose proof Hread as Hread'. unfold grab_read in Hread.
           rewrite send_msg_outcome in Hread.
           change (Mock.write START_GET_IMAGE_TRANSFER [x58; x5b; x01; x00])
             with start_request in Hread.
           rewrite decide_True, bind_Ok_l in Hread by done.
           rewrite Hread in H. rewrite bind_Raise_l in H.
           injection H as ->.
           unfold dev_read in Hread. cbn [logged bulk_in] in Hread.
           destruct (bulk_in d) as [|pkt rest]; [done|].
           destruct (len pkt <=? 13680); [|done].
           rewrite bind_Ok_l in Hread. cbv beta iota in Hread.
           unfold set_bulk_in in Hread. cbn [bulk_in] in Hread.
           destruct (read_until _ pkt rest) as [[r q]|e] eqn:Hloop; [done|].
           rewrite bind_Raise_l in Hread. injection Hread as ->.
           clear -Hloop. revert Hloop. generalize pkt.
           generalize (2 * RAW_WIDTH * RAW_HEIGHT).
           induction rest as [|p r IH]; intros t ret E2; simpl in E2.
           ++ destruct (t - len ret >? 512); congruence.
           ++ destruct (t - len ret >? 512); [|done].
              destruct (len p <=? 13680); [eauto|congruence].
      * intros (n & Hn & Hne). unfold acked in Hack. cbn in Hack.
        rewrite Hn in Hack. injection Hack as ->. done.
    + rewrite !bind_Raise_l. unfold refusal, acked in *. cbn in Hack.
      destruct (ctrl_ack d start_request) as [n|] eqn:E.
      * split; [|done]. intros _. exists n. split; [done|].
        intros ->. by apply Hack.
      * split; [done|]. intros (n & Hn & _). done.
Qed.

(** ** Cropping arrays of any size *)

Lemma slice_nonneg {A} (l : list A) (lo hi : nat) :
  slice (Z.of_nat lo) (Z.of_nat hi) l = take (hi - lo) (drop lo l).
Proof.
  unfold slice, slice_bound, len.
  destruct (Z.of_nat lo <? 0) eqn:E1; [apply Z.ltb_lt in E1; lia|].
  destruct (Z.of_nat hi <? 0) eqn:E2; [apply Z.ltb_lt in E2; lia|].
  destruct (decide (lo ≤ length l)%nat) as [Hlo|Hlo].
  - replace (Z.to_nat (Z.of_nat lo `min` Z.of_nat (length l))) with lo by lia.
    destruct (decide (hi ≤ length l)%nat) as [Hhi|Hhi].
    + by replace (Z.to_nat (Z.of_nat hi `min` Z.of_nat (length l)))
        with hi by lia.
    + replace (Z.to_nat (Z.of_nat hi `min` Z.of_nat (length l)))
        with (length l) by lia.
      rewrite !take_ge; [done| |]; rewrite length_drop; lia.
  - rewrite !drop_ge by lia. by rewrite !take_nil.
Qed.

Lemma crop_take_drop (a : ndarray) :
  crop (Some a) =
    Ok ((λ row : list Z, take 320 (drop 1 row)) <$> take 240 (drop 4 a)).
Proof.
  rewrite crop_slices, (slice_nonneg a 4 244). f_equal.
  apply list_fmap_ext. intros _ row _. apply (slice_nonneg row 1 321).
Qed.

(** X7: crop() never raises on an array, whatever its size: the slice is
    clipped to the array.  An array of h rows and w columns gives the
    rows 4 to 243 and the columns 1 to 320 that it has, that is
    min(h,244)-4 rows (none if h is at most 4) of min(w,321)-1 columns,
    and the sample at row r, column c of the result is the source sample
    at row r+4, column c+1. *)
Theorem crop_clips (a : ndarray) (h w : nat) :
  rect h w a →
  ∃ img, crop (Some a) = Ok img ∧
    rect (h `min` 244 - 4) (w `min` 321 - 1) img ∧
    ∀ r c : nat,
      pix img r c =
        if decide (r < 240 ∧ c < 320)%nat then pix a (r + 4) (c + 1) else None.
Proof.
  intros [Hh Hrows]. eexists. split; [apply crop_take_drop|]. split; [split|].
  - rewrite length_fmap, length_take, length_drop. lia.
  - apply Forall_fmap. apply Forall_take, Forall_drop.
    eapply Forall_impl; [exact Hrows|]. intros row Hrow. simpl in *.
    rewrite length_take, length_drop. lia.
  - intros r c. unfold pix. rewrite list_lookup_fmap.
    destruct (decide (r < 240)%nat) as [Hr|Hr].
    + rewrite lookup_take_lt, lookup_drop by done.
      rewrite (Nat.add_comm 4 r).
      destruct (a !! (r + 4)%nat) as [row|]; simpl;
        [|by destruct (decide _)].
      destruct (decide (c < 320)%nat) as [Hc|Hc].
      * rewrite decide_True by done.
        rewrite lookup_take_lt, lookup_drop by done.
        by rewrite (Nat.add_comm 1 c).
      * rewrite decide_False by lia. apply lookup_take_ge. lia.
    + rewrite decide_False by lia. rewrite lookup_take_ge by lia. done.
Qed.

(** An array of 10 rows and 5 columns is cropped to 6 rows of 4. *)
Lemma crop_clips_witness :
  ∃ img, crop (Some (Mock.uniform 10 5 7)) = Ok img ∧ rect 6 4 img.
Proof.
  destruct (crop_clips (Mock.uniform 10 5 7) 10 5) as (img & Hc & Hr & _);
    [unfold rect; by_compute|].
  exists img. exact (conj Hc Hr).
Defined.

(** ** The range of the corrected samples *)

Lemma sort_length l : length (sort l) = length l.
Proof. by rewrite sort_Permutation. Qed.

Lemma sort_lookup_total_bounds (l : list Z) (lo hi : Z) (k : nat) :
  Forall (λ x, lo ≤ x ≤ hi) l → (k < length l)%nat →
  lo ≤ sort l !!! k ≤ hi.
Proof.
  intros Hall Hk.
  assert (Forall (λ x, lo ≤ x ≤ hi) (sort l)) as Hs.
  { eapply Permutation_Forall; [|exact Hall]. symmetry. apply sort_Permutation. }
  destruct (lookup_lt_is_Some_2 (sort l) k) as [x Hx];
    [by rewrite sort_length|].
  rewrite (list_lookup_total_correct _ _ _ Hx).
  rewrite Forall_forall in Hs. apply Hs. by eapply list_elem_of_lookup_2.
Qed.

(** The median lies between the least and the largest sample. *)
Lemma median_value_bounds (l : list Z) (lo hi : Z) :
  l ≠ [] → 0 ≤ lo → Forall (λ x, lo ≤ x ≤ hi) l →
  lo ≤ median_value l ≤ hi.
Proof.
  intros Hne Hlo Hall. unfold median_value, np_median.
  destruct (length l) as [|n] eqn:Hlen; [by destruct l|].
  rewrite <- Hlen.
  assert (length l / 2 < length l)%nat as Hmid.
  { apply Nat.div_lt; lia. }
  pose proof (sort_lookup_total_bounds l lo hi _ Hall Hmid) as Hb.
  destruct (Nat.even (length l)).
  - assert (length l / 2 - 1 < length l)%nat as Hmid' by lia.
    pose proof (sort_lookup_total_bounds l lo hi _ Hall Hmid') as Ha.
    revert Ha Hb. generalize (sort l !!! (length l / 2 - 1)%nat).
    generalize (sort l !!! (length l / 2)%nat). intros b a Ha Hb.
    rewrite Z.quot_div_nonneg by lia.
    pose proof (Z.div_mod (a + b) 2). pose proof (Z.mod_pos_bound (a + b) 2).
    lia.
  - revert Hb. generalize (sort l !!! (length l / 2)%nat). intros m Hm.
    rewrite Z.mul_comm, Z.quot_mul by lia. done.
Qed.

Lemma slice_Forall {A} (P : A → Prop) (lo hi : Z) (l : list A) :
  Forall P l → Forall P (slice lo hi l).
Proof. intros H. unfold slice. by apply Forall_take, Forall_drop. Qed.

Lemma window_Forall (P : Z → Prop) (img : ndarray) (i j : Z) :
  Forall (Forall P) img → Forall P (concat (window img i j)).
Proof.
  intros H. apply Forall_concat. unfold window. apply Forall_fmap.
  apply slice_Forall. eapply Forall_impl; [exact H|].
  intros row Hrow. by apply slice_Forall.
Qed.

Lemma step_bounds (img : ndarray) (h w : nat) (p : Z * Z) (lo hi : Z) :
  rect h w img → inside h w p → 0 ≤ lo →
  Forall (Forall (λ x, lo ≤ x ≤ hi)) img →
  Forall (Forall (λ x, lo ≤ x ≤ hi)) (step img p).
Proof.
  intros Hrect Hin Hlo Hall. destruct p as [i j]. unfold step, upd.
  apply Forall_alter; [done|]. intros row _ Hrow.
  apply Forall_insert; [done|]. cbn [fst snd].
  apply median_value_bounds; [by eapply window_nonempty|done|].
  by apply window_Forall.
Qed.

Lemma fold_step_bounds (h w : nat) (dead : list (Z * Z)) (lo hi : Z) :
  ∀ img, rect h w img → Forall (inside h w) dead → 0 ≤ lo →
  Forall (Forall (λ x, lo ≤ x ≤ hi)) img →
  Forall (Forall (λ x, lo ≤ x ≤ hi)) (fold_left step dead img).
Proof.
  induction dead as [|p dead IH]; intros img Hrect Hin Hlo Hall; [done|].
  apply Forall_cons in Hin as [Hp Hin]. cbn [fold_left].
  apply IH; [by apply step_rect|done|done|].
  by apply (step_bounds img h w).
Qed.

Lemma is_u16_bounds (a : ndarray) :
  is_u16 a ↔ Forall (Forall (λ x, 0 ≤ x ≤ 65535)) a.
Proof.
  unfold is_u16. split; intros H; (eapply Forall_impl; [exact H|]);
    intros row Hrow; (eapply Forall_impl; [exact Hrow|]);
    intros x Hx; simpl in *; lia.
Qed.

Lemma constant_row (row : list Z) (v : Z) :
  Forall (λ x, v ≤ x ≤ v) row → row = replicate (length row) v.
Proof.
  induction 1 as [|x row Hx _ IH]; [done|].
  cbn [length replicate]. f_equal; [lia|done].
Qed.

Lemma constant_rows (h w : nat) (a : ndarray) (v : Z) :
  rect h w a → Forall (Forall (λ x, v ≤ x ≤ v)) a →
  a = replicate h (replicate w v).
Proof.
  intros [<- Hrows] Hall. induction a as [|row a IH]; [done|].
  apply Forall_cons in Hrows as [Hrow Hrows].
  apply Forall_cons in Hall as [Hvals Hall].
  cbn [length replicate]. f_equal; [|by apply IH].
  rewrite <- Hrow. by apply constant_row.
Qed.

(** X8: correct_dead_pix() never leaves the range of its input: when all
    samples of the image lie between lo and hi (lo not negative), every
    median it computes does and so does every sample of the corrected
    image.  So an image of uint16 samples stays one (the medians are
    stored without wrap-around), and an image all of whose samples are
    equal is left as it is. *)
Theorem correct_dead_pix_range (img : ndarray) (h w : nat)
    (dead : list (Z * Z)) (a : nat) (σ : store) (lo hi : Z) :
  rect h w img → σ !! a = Some img → Forall (inside h w) dead →
  0 ≤ lo → Forall (Forall (λ x, lo ≤ x ≤ hi)) img →
  (∀ i j, inside h w (i, j) →
     lo ≤ median_value (concat (window img i j)) ≤ hi) ∧
  ∃ img1,
    correct_dead_pix (Some dead) a σ = Ok (a, <[a := img1]> σ) ∧
    rect h w img1 ∧
    Forall (Forall (λ x, lo ≤ x ≤ hi)) img1 ∧
    (is_u16 img → is_u16 img1) ∧
    (lo = hi → img1 = img).
Proof.
  intros Hrect Ha Hin Hlo Hall. split.
  { intros i j Hij. apply median_value_bounds;
      [by eapply window_nonempty|done|by apply window_Forall]. }
  exists (fold_left step dead img).
  pose proof (fold_step_rect h w dead img Hrect) as Hrect1.
  pose proof (fold_step_bounds h w dead lo hi img Hrect Hin Hlo Hall) as Hb.
  split; [|split; [done|split; [done|split]]].
  - unfold correct_dead_pix. simpl.
    rewrite (correct_pixels_pass _ _ _ img) by done.
    by rewrite (dead_pix_pass_fold h w) by done.
  - intros Hu. apply is_u16_bounds. apply (fold_step_bounds h w); try done.
    by apply is_u16_bounds.
  - intros ->.
    rewrite (constant_rows h w _ hi Hrect1 Hb).
    symmetry. by apply constant_rows.
Qed.

(** A pixel of the uniform part of an image of tens with two zeros. *)
Lemma correct_dead_pix_range_witness :
  ∃ img1,
    correct_dead_pix (Some [(5, 5)]) 0%nat {[ 0%nat := Mock.corner_image ]} =
      Ok (0%nat, <[0%nat := img1]> {[ 0%nat := Mock.corner_image ]}) ∧
    Forall (Forall (λ x, 0 ≤ x ≤ 10)) img1.
Proof.
  destruct (correct_dead_pix_range Mock.corner_image 240 320 [(5, 5)] 0%nat
              {[ 0%nat := Mock.corner_image ]} 0 10)
    as (_ & img1 & Hc & _ & Hb & _);
    [unfold rect; by_compute|by_compute|by_compute|lia|by_compute|].
  exists img1. exact (conj Hc Hb).
Defined.

(** ** The order of the corrections *)

Lemma fold_step_Permutation (h w : nat) (dead dead' : list (Z * Z)) :
  dead ≡ₚ dead' →
  ∀ img, rect h w img → Forall (inside h w) dead →
  (∀ p q, p ∈ dead → q ∈ dead → p ≠ q → ¬ adjacent p q) →
  fold_left step dead img = fold_left step dead' img.
Proof.
  induction 1 as [|x l l' Hperm IH|x y l|l l' l'' Hp1 IH1 Hp2 IH2];
    intros img Hrect Hin Hfar.
  - done.
  - apply Forall_cons in Hin as [Hx Hin]. cbn [fold_left].
    apply IH; [by apply step_rect|done|].
    intros p q Hp Hq. apply Hfar; by right.
  - apply Forall_cons in Hin as [Hy Hin].
    apply Forall_cons in Hin as [Hx Hin]. cbn [fold_left].
    destruct (decide (x = y)) as [->|Hne]; [done|]. f_equal.
    apply (step_comm img h w); try done.
    apply Hfar; [by left|right; by left|congruence].
  - rewrite IH1 by done. apply IH2; [done|by rewrite <- Hp1|].
    intros p q Hp Hq. apply Hfar; by rewrite Hp1.
Qed.

(** X9: when no two distinct pixels of the dead-pixel list are adjacent
    (each outside the 3x3 window of the other), the order of the list
    does not matter: correct_dead_pix() gives the same array for every
    ordering of the list. *)
Theorem correct_dead_pix_order (img : ndarray) (h w : nat)
    (dead dead' : list (Z * Z)) (a : nat) (σ : store) :
  rect h w img → σ !! a = Some img → Forall (inside h w) dead →
  Forall (λ p, Forall (λ q, p = q ∨ ¬ adjacent p q) dead) dead →
  dead ≡ₚ dead' →
  correct_dead_pix (Some dead') a σ = correct_dead_pix (Some dead) a σ ∧
  ∃ img1, correct_dead_pix (Some dead) a σ = Ok (a, <[a := img1]> σ).
Proof.
  intros Hrect Ha Hin Hfar Hperm.
  assert (Forall (inside h w) dead') as Hin' by (by rewrite <- Hperm).
  unfold correct_dead_pix. simpl.
  rewrite !(correct_pixels_pass _ _ _ img) by done.
  rewrite !(dead_pix_pass_fold h w) by done.
  rewrite <- (fold_step_Permutation h w dead dead'); try done.
  - split; [done|]. by eexists.
  - intros p q Hp Hq Hne. rewrite Forall_forall in Hfar.
    specialize (Hfar p Hp). rewrite Forall_forall in Hfar.
    destruct (Hfar q Hq); done.
Qed.

Lemma correct_dead_pix_order_witness :
  correct_dead_pix (Some [(5, 5); (0, 0)]) 0%nat
      {[ 0%nat := Mock.corner_image ]} =
    correct_dead_pix (Some [(0, 0); (5, 5)]) 0%nat
      {[ 0%nat := Mock.corner_image ]}.
Proof.
  destruct (correct_dead_pix_order Mock.corner_image 240 320
              [(0, 0); (5, 5)] [(5, 5); (0, 0)] 0%nat
              {[ 0%nat := Mock.corner_image ]}) as [Heq _];
    [unfold rect; by_compute|by_compute|by_compute|by_compute
    |apply perm_swap|].
  exact Heq.
Defined.

(** ** The list of dead pixels *)

Lemma sorted_omap_imap (f : nat → Z → option (Z * Z)) (R : Z) (row : list Z) :
  ∀ k,
  (∀ c v p, f c v = Some p → p = (R, Z.of_nat (k + c))) →
  StronglySorted row_major (omap id (imap f row)) ∧
  ∀ p, p ∈ omap id (imap f row) → p.1 = R ∧ Z.of_nat k ≤ p.2.
Proof.
  revert f. induction row as [|v row IH]; intros f k Hf.
  - split; [constructor|]. intros p Hp. by apply elem_of_nil in Hp.
  - rewrite imap_cons.
    destruct (IH (f ∘ S) (S k)) as [Hs Hge].
    { intros c v' p Hp. rewrite (Hf _ _ _ Hp). do 2 f_equal. lia. }
    cbn [omap list_omap]. destruct (f 0%nat v) as [p0|] eqn:E; simpl.
    + pose proof (Hf _ _ _ E) as ->. split.
      * constructor; [done|]. apply Forall_forall. intros p Hp.
        apply Hge in Hp as [Hp1 Hp2]. right. simpl. lia.
      * intros p [->|Hp]%elem_of_cons; [simpl; lia|].
        apply Hge in Hp. lia.
    + split; [done|]. intros p Hp. apply Hge in Hp. lia.
Qed.

Lemma sorted_concat_imap (G : nat → list Z → list (Z * Z)) (img : ndarray) :
  ∀ k,
  (∀ r row, StronglySorted row_major (G r row)) →
  (∀ r row p, p ∈ G r row → p.1 = Z.of_nat (k + r)) →
  StronglySorted row_major (concat (imap G img)) ∧
  ∀ p, p ∈ concat (imap G img) → Z.of_nat k ≤ p.1.
Proof.
  revert G. induction img as [|row img IH]; intros G k Hs HG.
  - split; [constructor|]. intros p Hp. by apply elem_of_nil in Hp.
  - rewrite imap_cons. cbn [concat].
    destruct (IH (G ∘ S) (S k)) as [Hs' Hge].
    { intros r row'. apply Hs. }
    { intros r row' p Hp. rewrite (HG _ _ _ Hp). f_equal. lia. }
    split.
    + apply StronglySorted_app_2; [|apply Hs|done].
      intros p q Hp Hq. apply HG in Hp. apply Hge in Hq. left. lia.
    + intros p [Hp|Hp]%elem_of_app; [apply HG in Hp; lia|].
      apply Hge in Hp. lia.
Qed.

Lemma where_lt_sorted (img : ndarray) (t : Z) :
  StronglySorted row_major (where_lt img t).
Proof.
  unfold where_lt. apply (sorted_concat_imap _ img 0).
  - intros r row. apply (sorted_omap_imap _ (Z.of_nat r) row 0).
    intros c v p Hp. destruct (v <? t); [|done]. by injection Hp as <-.
  - intros r row p Hp.
    apply list_elem_of_omap in Hp as (o & Ho & Hsome).
    apply elem_of_lookup_imap in Ho as (j & v & -> & Hv).
    destruct (v <? t); [|done]. by injection Hsome as <-.
Qed.

(** X10: get_dead_pix_list() accepts an array of any shape that holds
    260*342 = 88920 samples and reads it as 260 rows of 342; with any
    other number of samples it raises ValueError, and on an absent frame
    TypeError.  The list it returns is in row-major order (strictly
    increasing by row, then by column), so correct_dead_pix() sweeps the
    image from top to bottom and from left to right, and all its
    coordinates lie inside the 240x320 image. *)
Theorem get_dead_pix_list_outcome (a : ndarray) (h w : nat) :
  rect h w a →
  get_dead_pix_list None = Raise TypeError ∧
  (Z.of_nat h * Z.of_nat w ≠ 88920 →
     get_dead_pix_list (Some a) = Raise ValueError) ∧
  (Z.of_nat h * Z.of_nat w = 88920 →
     ∃ img, crop (Some (rows_of 260 342 (concat a))) = Ok img ∧
       rect 240 320 img ∧
       get_dead_pix_list (Some a) = Ok (where_lt img 100) ∧
       StronglySorted row_major (where_lt img 100) ∧
       Forall (inside 240 320) (where_lt img 100)).
Proof.
  intros Hrect. split; [done|].
  pose proof (length_concat_rect _ _ _ Hrect) as Hlen.
  unfold get_dead_pix_list, reshape. split.
  - intros Hne.
    destruct (len (concat a) =? RAW_HEIGHT * RAW_WIDTH) eqn:E; [|done].
    apply Z.eqb_eq in E. unfold len, RAW_HEIGHT, RAW_WIDTH in E. lia.
  - intros Heq.
    destruct (len (concat a) =? RAW_HEIGHT * RAW_WIDTH) eqn:E;
      [|apply Z.eqb_neq in E; unfold len, RAW_HEIGHT, RAW_WIDTH in E; lia].
    step_bind. change (Z.to_nat RAW_HEIGHT) with 260%nat.
    change (Z.to_nat RAW_WIDTH) with 342%nat.
    assert (rect 260 342 (rows_of 260 342 (concat a))) as Hraw.
    { apply rows_of_rect. lia. }
    revert Hraw. generalize (rows_of 260 342 (concat a)). intros raw Hraw.
    destruct (crop_rect raw Hraw) as (img & Hcrop & Hrimg & _).
    exists img. split; [done|]. split; [done|]. rewrite Hcrop. step_bind.
    split; [done|]. split; [apply where_lt_sorted|].
    by apply (where_lt_inside 240 320).
Qed.

(** A frame handed over as 342 rows of 260 samples is read as 260 rows
    of 342, an array of 6 samples is refused. *)
Lemma get_dead_pix_list_outcome_witness :
  get_dead_pix_list (Some (Mock.uniform 2 3 0)) = Raise ValueError ∧
  ∃ img, get_dead_pix_list (Some (Mock.uniform 342 260 500)) =
           Ok (where_lt img 100).
Proof.
  split.
  - destruct (get_dead_pix_list_outcome (Mock.uniform 2 3 0) 2 3)
      as (_ & Hbad & _); [unfold rect; by_compute|].
    apply Hbad. lia.
  - destruct (get_dead_pix_list_outcome (Mock.uniform 342 260 500) 342 260)
      as (_ & _ & Hgood); [unfold rect; by_compute|].
    destruct Hgood as (img & _ & _ & Hl & _); [reflexivity|].
    by exists img.
Defined.

(** ** What a call of [get_image] does to the session *)

Lemma zip_with_sub_u16_range (r1 : list Z) : ∀ r2,
  Forall (λ x, 0 ≤ x < 65536) (zip_with sub_u16 r1 r2).
Proof.
  induction r1 as [|x r1 IH]; intros [|y r2]; simpl; constructor; [|apply IH].
  unfold sub_u16. apply Z.mod_pos_bound. lia.
Qed.

Lemma sub_rows_u16 (a : ndarray) : ∀ b,
  is_u16 (zip_with (zip_with sub_u16) a b).
Proof.
  induction a as [|r1 a IH]; intros [|r2 b]; simpl; constructor;
    [apply zip_with_sub_u16_range|apply IH].
Qed.

(** One turn sends one start request and takes packets, at least one,
    from the head of the queue. *)
Lemma get_image_iter_device s o s' :
  get_image_iter s = Ok (o, s') →
  ctrl_log (dev s') = ctrl_log (dev s) ++ [start_request] ∧
  ctrl_faults (dev s') = ctrl_faults (dev s) ∧
  ∃ taken, taken ≠ [] ∧ bulk_in (dev s) = taken ++ bulk_in (dev s').
Proof.
  intros (status & img & Hgrab & _)%get_image_iter_Ok.
  pose proof (grab_consumes _ _ _ _ Hgrab) as Hless.
  apply grab_Ok in Hgrab as (ret & Hread & _).
  apply grab_read_Ok in Hread as (_ & _ & taken & Hq & _ & Hd).
  rewrite Hd at 1 2. cbn [ctrl_log ctrl_faults]. split; [done|].
  split; [done|]. exists taken. split; [|done].
  intros ->. rewrite Hq in Hless. simpl in Hless. lia.
Qed.

Lemma get_image_iter_delivers s img s' :
  ready s → get_image_iter s = Ok (Some img, s') →
  rect 240 320 img ∧ is_u16 img ∧ calib s' ≠ None.
Proof.
  intros [Hcal Hdead] Hiter.
  pose proof Hiter
    as (status & f & Hgrab & _ & -> & Hkeep & Hsome)%get_image_iter_Ok.
  destruct (calib s) as [cal|] eqn:Ecal; [|done].
  destruct (dead_pixels s) as [dead|] eqn:Edead; [|done].
  destruct f as [f|].
  - destruct (get_image_iter_normal s cal dead f (dev s'))
      as (c & out & Hcrop & Hpass & Hrect & Hi); try done.
    rewrite Hiter in Hi. injection Hi as ->.
    split; [done|]. split; [|by rewrite Hkeep].
    pose proof Hgrab as (ret & _ & _ & Hrf)%grab_Ok.
    destruct (crop_rect f Hrf) as (c' & Hc' & Hrc & _).
    assert (c' = c) as -> by congruence.
    destruct (sub_arrays_rect 240 320 c cal Hrc Hcal) as [_ Hrd].
    rewrite (dead_pix_pass_fold 240 320) in Hpass by done.
    injection Hpass as <-. apply is_u16_bounds.
    apply (fold_step_bounds 240 320); [done|done|lia|].
    apply is_u16_bounds. apply sub_rows_u16.
  - rewrite (get_image_iter_absent s (dev s') 3 Hgrab) in Hiter; [done|].
    right. by rewrite Ecal.
Qed.

(** X11: a call of get_image() that returns from a ready session has
    made n turns of its loop, n at least 1: it has sent n start requests
    and no other control write, has taken packets from the head of the
    bulk queue (at least one per turn) and nothing else, has left the
    dead-pixel list as it was, and returns a 240x320 image of uint16
    samples with a calibration reference in place. *)
Theorem get_image_session : ∀ (fuel : nat) (s : SeekPro) (img : ndarray)
    (s' : SeekPro),
  ready s → get_image_loop fuel s = Some (Ok (img, s')) →
  ready s' ∧ calib s' ≠ None ∧ dead_pixels s' = dead_pixels s ∧
  rect 240 320 img ∧ is_u16 img ∧
  ctrl_faults (dev s') = ctrl_faults (dev s) ∧
  ∃ n taken,
    (1 ≤ n ≤ fuel)%nat ∧ (n ≤ length taken)%nat ∧
    ctrl_log (dev s') = ctrl_log (dev s) ++ replicate n start_request ∧
    bulk_in (dev s) = taken ++ bulk_in (dev s').
Proof.
  induction fuel as [|fuel IH]; intros s img s' Hready H; [done|].
  simpl in H.
  destruct (get_image_iter s) as [[[img0|] s0]|e] eqn:Hiter; [| |done].
  - injection H as -> ->.
    pose proof (get_image_iter_ready _ _ _ Hready Hiter) as Hready'.
    pose proof (get_image_iter_delivers _ _ _ Hready Hiter)
      as (Hrect & Hu & Hcal).
    pose proof Hiter as (_ & _ & _ & Hdp & _)%get_image_iter_Ok.
    pose proof (get_image_iter_device _ _ _ Hiter)
      as (Hlog & Hfaults & taken & Hne & Hq).
    do 5 (split; [done|]). split; [done|].
    exists 1%nat, taken. split; [lia|]. split; [|done].
    destruct taken; [done|simpl; lia].
  - pose proof (get_image_iter_ready _ _ _ Hready Hiter) as Hready0.
    pose proof Hiter as (_ & _ & _ & Hdp & _)%get_image_iter_Ok.
    pose proof (get_image_iter_device _ _ _ Hiter)
      as (Hlog & Hfaults & taken & Hne & Hq).
    destruct (IH s0 img s' Hready0 H)
      as (Hready' & Hcal & Hdp' & Hrect & Hu & Hfaults' & n & taken' &
          Hn & Hlen & Hlog' & Hq').
    split; [done|]. split; [done|]. split; [congruence|].
    split; [done|]. split; [done|]. split; [congruence|].
    exists (S n), (taken ++ taken'). split; [lia|]. split.
    + rewrite length_app. destruct taken; [done|simpl; lia].
    + split.
      * rewrite Hlog', Hlog, <- app_assoc. done.
      * rewrite Hq, Hq', app_assoc. done.
Qed.

(** A calibration frame, then a normal frame. *)
Lemma get_image_session_witness :
  ∃ n : nat,
    (1 ≤ n ≤ 2)%nat ∧
    [start_request; start_request] = [] ++ replicate n start_request.
Proof.
  destruct (get_image_session 2
              (mkSeekPro
                 (Mock.device (Mock.frame x01 x10 x27 0 ++
                               Mock.frame x03 x20 x27 0))
                 None (Some [(0, 0); (5, 5)]))
              (Mock.uniform 240 320 1616)
              (mkSeekPro (mkDevice [] [start_request; start_request] [])
                 (Some (Mock.uniform 240 320 8400)) (Some [(0, 0); (5, 5)])))
    as (_ & _ & _ & _ & _ & _ & n & taken & Hn & _ & Hlog & _);
    [by_compute|by_compute|].
  exists n. exact (conj Hn Hlog).
Defined.

(** ** The reference in use *)

Lemma turns_app s obs1 : ∀ obs2 s2,
  turns s (obs1 ++ obs2) s2 → ∃ s1, turns s obs1 s1 ∧ turns s1 obs2 s2.
Proof.
  revert s. induction obs1 as [|o obs1 IH]; intros s obs2 s2 H.
  - exists s. split; [constructor|done].
  - inversion H as [|s0 status img d s1 obs s3 Hgrab Hiter Hrest]; subst.
    apply IH in Hrest as (sm & H1 & H2).
    exists sm. split; [|done]. by eapply turns_cons.
Qed.

Lemma turns_no_calibration s obs s1 :
  turns s obs s1 → Forall (λ o, o.1 ≠ 1) obs → calib s1 = calib s.
Proof.
  induction 1 as [s|s status img d s1 obs s2 Hgrab Hiter _ IH];
    intros Hall; [done|].
  apply Forall_cons in Hall as [Hst Hall]. rewrite IH by done.
  apply get_image_iter_Ok in Hiter
    as (status' & img' & Hgrab' & _ & [Hsame|(f & c & -> & _)]); [done|].
  rewrite Hgrab in Hgrab'. injection Hgrab' as -> _ _. done.
Qed.

(** X12: the calibration reference in use is that of the most recent
    calibration frame: after turns of the loop of get_image() the last
    of which with status 1 grabbed the frame f, the reference is the
    crop of f minus 1600, whatever the frames before it were and
    whatever frames of other statuses came after it, and a delivery
    leaves it in place. *)
Theorem get_image_latest_reference (s : SeekPro)
    (obs1 obs2 : list (Z * option ndarray)) (f : ndarray) (s1 : SeekPro) :
  turns s (obs1 ++ (1, Some f) :: obs2) s1 →
  Forall (λ o, o.1 ≠ 1) obs2 →
  ∃ c, crop (Some f) = Ok c ∧ rect 240 320 c ∧
    calib s1 = Some (sub_scalar c 1600) ∧
    ∀ img s', get_image_iter s1 = Ok (Some img, s') →
              calib s' = Some (sub_scalar c 1600).
Proof.
  intros (sm & _ & Hturns)%turns_app Hall.
  inversion Hturns as [|s0 status img d sx obs s3 Hgrab Hiter Hrest]; subst.
  destruct (get_image_iter_calibration sm f d Hgrab) as (c & Hc & Hrc & Hi).
  rewrite Hi in Hiter. injection Hiter as <-.
  pose proof (turns_no_calibration _ _ _ Hrest Hall) as Hcal.
  cbn [calib set_calib] in Hcal.
  exists c. split; [done|]. split; [done|]. split; [done|].
  intros out s' (_ & _ & _ & _ & _ & Hkeep & _)%get_image_iter_Ok.
  congruence.
Qed.

Lemma get_image_latest_reference_witness :
  ∃ c,
    crop (Some (<[0%nat := <[2%nat := 9985]> (replicate 342 10000)]>
                  (Mock.uniform 260 342 10000))) = Ok c ∧
    rect 240 320 c.
Proof.
  destruct (get_image_latest_reference
              (mkSeekPro (Mock.device (Mock.frame x01 x10 x27 0))
                 None (Some []))
              [] []
              (<[0%nat := <[2%nat := 9985]> (replicate 342 10000)]>
                 (Mock.uniform 260 342 10000))
              (mkSeekPro (mkDevice [] [start_request] [])
                 (Some (Mock.uniform 240 320 8400)) (Some [])))
    as (c & Hc & Hr & _).
  - refine (turns_cons
              (mkSeekPro (Mock.device (Mock.frame x01 x10 x27 0))
                 None (Some []))
              1
              (Some (<[0%nat := <[2%nat := 9985]> (replicate 342 10000)]>
                       (Mock.uniform 260 342 10000)))
              (mkDevice [] [start_request] [])
              (mkSeekPro (mkDevice [] [start_request] [])
                 (Some (Mock.uniform 240 320 8400)) (Some []))
              []
              (mkSeekPro (mkDevice [] [start_request] [])
                 (Some (Mock.uniform 240 320 8400)) (Some []))
              _ _ (turns_nil _)); by_compute.
  - constructor.
  - exists c. exact (conj Hc Hr).
Defined.

(** ** The delivered samples *)

Lemma pix_zip_with (f : Z → Z → Z) (a b : ndarray) (r c : nat) (x y : Z) :
  pix a r c = Some x → pix b r c = Some y →
  pix (zip_with (zip_with f) a b) r c = Some (f x y).
Proof.
  unfold pix. intros Ha Hb. rewrite lookup_zip_with.
  destruct (a !! r) as [ra|]; [|done].
  destruct (b !! r) as [rb|]; [|done]. simpl in *.
  rewrite lookup_zip_with, Ha, Hb. done.
Qed.

(** X13: outside the dead pixels, a delivered sample is the sample of
    the normal frame minus that of the calibration frame plus 1600,
    modulo 65536: with the reference taken from the raw frame G, a
    status-3 frame F is delivered as the image whose sample at row r,
    column c is (F[r+4][c+1] - G[r+4][c+1] + 1600) mod 65536. *)
Theorem get_image_sample (s : SeekPro) (G F cg : ndarray)
    (dead : list (Z * Z)) (d' : Device) :
  rect 260 342 G → crop (Some G) = Ok cg →
  calib s = Some (sub_scalar cg 1600) →
  dead_pixels s = Some dead → Forall (inside 240 320) dead →
  grab (dev s) = Ok (3, Some F, d') →
  ∃ img,
    get_image_iter s = Ok (Some img, set_dev s d') ∧
    ∀ r c : nat, (r < 240)%nat → (c < 320)%nat →
      (Z.of_nat r, Z.of_nat c) ∉ dead →
      ∃ x g,
        pix F (r + 4) (c + 1) = Some x ∧ pix G (r + 4) (c + 1) = Some g ∧
        pix img r c = Some ((x - g + 1600) mod 65536).
Proof.
  intros HG Hcg Hcal Hdead Hin Hgrab.
  destruct (crop_rect G HG) as (cg' & Hcg' & Hrcg & Hpg).
  assert (cg' = cg) as -> by congruence.
  pose proof (sub_scalar_rect 240 320 cg 1600 Hrcg) as Hrcal.
  destruct (get_image_iter_normal s _ dead F d' Hcal Hrcal Hdead Hin Hgrab)
    as (c & img & Hc & Hpass & Hrimg & Hi).
  exists img. split; [done|]. intros r k Hr Hk Hout.
  pose proof Hgrab as (ret & _ & _ & HF)%grab_Ok.
  destruct (crop_rect F HF) as (c' & Hc' & Hrc & Hpf).
  assert (c' = c) as -> by congruence.
  destruct (sub_arrays_rect 240 320 c (sub_scalar cg 1600) Hrc Hrcal)
    as [_ Hrd].
  rewrite (dead_pix_pass_outside 240 320 dead _ img Hrd Hin Hpass r k Hout).
  destruct (rect_pix 240 320 c r k Hrc Hr Hk) as [x Hx].
  destruct (rect_pix 240 320 cg r k Hrcg Hr Hk) as [g Hg].
  exists x, g. rewrite <- Hpf, <- Hpg by done.
  split; [done|]. split; [done|].
  rewrite (pix_zip_with sub_u16 c (sub_scalar cg 1600) r k x
             ((g - 1600) mod 65536)); [|done|by rewrite pix_sub_scalar, Hg].
  f_equal. unfold sub_u16. rewrite Zminus_mod_idemp_r. f_equal. lia.
Qed.

Lemma get_image_sample_witness :
  ∃ img,
    get_image_iter
      (mkSeekPro (Mock.device (Mock.frame x03 x20 x27 0))
         (Some (sub_scalar (Mock.uniform 240 320 10000) 1600))
         (Some [(0, 0)])) =
      Ok (Some img,
          mkSeekPro (mkDevice [] [start_request] [])
            (Some (sub_scalar (Mock.uniform 240 320 10000) 1600))
            (Some [(0, 0)])) ∧
    pix img 7 9 = Some ((10016 - 10000 + 1600) mod 65536).
Proof.
  destruct (get_image_sample
              (mkSeekPro (Mock.device (Mock.frame x03 x20 x27 0))
                 (Some (sub_scalar (Mock.uniform 240 320 10000) 1600))
                 (Some [(0, 0)]))
              (Mock.uniform 260 342 10000)
              (<[0%nat := <[2%nat := 9987]> (replicate 342 10016)]>
                 (Mock.uniform 260 342 10016))
              (Mock.uniform 240 320 10000) [(0, 0)]
              (mkDevice [] [start_request] []))
    as (img & Hi & Hpix);
    [unfold rect; by_compute|by_compute|reflexivity|reflexivity|by_compute
    |by_compute|].
  exists img. split; [exact Hi|].
  destruct (Hpix 7%nat 9%nat) as (x & g & Hx & Hg & Himg);
    [lia|lia|by_compute|].
  assert (x = 10016) as -> by (vm_compute in Hx; congruence).
  assert (g = 10000) as -> by (vm_compute in Hg; congruence).
  exact Himg.
Defined.

(** ** The errors of [get_image] *)

Lemma get_image_iter_Raise s e :
  ready s → get_image_iter s = Raise e →
  (grab (dev s) = Raise e ∧ (e = USBError ∨ e = AssertionError)) ∨
  (e = TypeError ∧
   ∃ status d', grab (dev s) = Ok (status, None, d') ∧
     (status = 1 ∨ (status = 3 ∧ calib s ≠ None))).
Proof.
  intros [Hcal Hdead] H.
  destruct (grab (dev s)) as [[[status img] d']|e0] eqn:Hgrab.
  - right. destruct (decide (status = 1)) as [->|H1].
    { destruct img as [f|].
      - destruct (get_image_iter_calibration s f d' Hgrab) as (c & _ & _ & Hi).
        congruence.
      - rewrite (get_image_iter_absent s d' 1 Hgrab) in H by (by left).
        injection H as <-. split; [done|]. exists 1, d'. split; [done|by left]. }
    destruct (decide (status = 3)) as [->|H3].
    { destruct (calib s) as [cal|] eqn:Ecal.
      - destruct (dead_pixels s) as [dead|] eqn:Edead; [|done].
        destruct img as [f|].
        + destruct (get_image_iter_normal s cal dead f d')
            as (c & img & _ & _ & _ & Hi); try done. congruence.
        + rewrite (get_image_iter_absent s d' 3 Hgrab) in H
            by (right; by rewrite Ecal).
          injection H as <-. split; [done|]. exists 3, d'.
          split; [done|]. right. done.
      - rewrite (get_image_iter_uncalibrated s img d' Ecal Hgrab) in H. done. }
    rewrite (get_image_iter_other s status img d' H1 H3 Hgrab) in H. done.
  - left. unfold get_image_iter in H. rewrite Hgrab, bind_Raise_l in H.
    injection H as <-. split; [done|]. by eapply grab_exn.
Qed.

(** X14: from a ready session get_image() raises nothing but USBError,
    AssertionError and TypeError.  After turns that delivered nothing,
    either grab() raised (USBError for a failed transfer, a timeout on an
    empty queue or an oversized packet, AssertionError for a start
    request acknowledged with another number of bytes), or grab()
    reported an absent frame with status 1, or with status 3 while a
    reference is set, which is the only source of TypeError. *)
Theorem get_image_raises : ∀ (fuel : nat) (s : SeekPro) (e : exn),
  ready s → get_image_loop fuel s = Some (Raise e) →
  ∃ obs s1, turns s obs s1 ∧ get_image_iter s1 = Raise e ∧
    ((grab (dev s1) = Raise e ∧ (e = USBError ∨ e = AssertionError)) ∨
     (e = TypeError ∧
      ∃ status d', grab (dev s1) = Ok (status, None, d') ∧
        (status = 1 ∨ (status = 3 ∧ calib s1 ≠ None)))).
Proof.
  induction fuel as [|fuel IH]; intros s e Hready H; [done|]. simpl in H.
  destruct (get_image_iter s) as [[[img0|] s0]|e0] eqn:Hiter.
  - done.
  - pose proof (get_image_iter_ready _ _ _ Hready Hiter) as Hready0.
    destruct (IH s0 e Hready0 H) as (obs & s1 & Hturns & Hlast).
    pose proof Hiter as (status & f & Hgrab & _)%get_image_iter_Ok.
    exists ((status, f) :: obs), s1. split; [|done]. by eapply turns_cons.
  - injection H as <-. exists [], s. split; [constructor|].
    split; [done|]. by apply get_image_iter_Raise.
Qed.

(** No packet at the endpoint: the first read times out. *)
Lemma get_image_raises_witness :
  ∃ obs s1,
    turns (mkSeekPro (Mock.device []) None (Some [])) obs s1 ∧
    get_image_iter s1 = Raise USBError.
Proof.
  destruct (get_image_raises 1 (mkSeekPro (Mock.device []) None (Some []))
              USBError) as (obs & s1 & Hturns & Hiter & _);
    [by_compute|by_compute|].
  exists obs, s1. exact (conj Hturns Hiter).
Defined.

(** ** The traffic and the errors of the constructor *)

Lemma init_Ok d d1 : init d = Ok d1 → d1 = logged d Mock.handshake.
Proof.
  rewrite init_as_writes,
    send_all_outcome by (apply handshake_NoDup || apply handshake_writes).
  destruct (first_refused d Mock.handshake); [done|]. by intros [= <-].
Qed.



Lemma attempt_device d status img d' :
  attempt d = Ok (status, img, d') →
  ctrl_faults d' = ctrl_faults d ∧
  ctrl_log d' = ctrl_log d ++ Mock.handshake ++ [start_request] ∧
  ∃ taken, taken ≠ [] ∧ bulk_in d = taken ++ bulk_in d'.
Proof.
  intros (d1 & ->%init_Ok & Hgrab)%attempt_Ok.
  pose proof (grab_consumes _ _ _ _ Hgrab) as Hless.
  apply grab_Ok in Hgrab as (ret & Hread & _).
  apply grab_read_Ok in Hread as (_ & _ & taken & Hq & _ & Hd).
  cbn [logged bulk_in ctrl_log ctrl_faults] in *.
  rewrite Hd at 1 2. cbn [ctrl_log ctrl_faults].
  split; [done|]. split; [by rewrite app_assoc|].
  exists taken. split; [|done]. intros ->. rewrite Hq in Hless.
  simpl in Hless. lia.
Qed.

Lemma failed_attempts_device : ∀ n d d1,
  failed_attempts n d = Some d1 →
  ctrl_faults d1 = ctrl_faults d ∧
  ctrl_log d1 = ctrl_log d ++ Mock.rounds n ∧
  ∃ taken, (n ≤ length taken)%nat ∧ bulk_in d = taken ++ bulk_in d1.
Proof.
  induction n as [|n IH]; intros d d1 H.
  - injection H as <-. split; [done|]. split; [by rewrite app_nil_r|].
    by exists [].
  - cbn [failed_attempts] in H.
    destruct (attempt d) as [[[status img] d0]|e] eqn:Hatt; [|done].
    destruct (status =? 4); [done|].
    apply attempt_device in Hatt as (Hf & Hl & taken & Hne & Hq).
    apply IH in H as (Hf' & Hl' & taken' & Hn & Hq').
    split; [congruence|]. split.
    + rewrite Hl', Hl. unfold Mock.rounds. cbn [replicate concat].
      by rewrite <- !app_assoc.
    + exists (taken ++ taken'). split.
      * rewrite length_app. destruct taken; [done|simpl; lia].
      * by rewrite Hq, Hq', app_assoc.
Qed.

Lemma rounds_snoc n :
  Mock.rounds n ++ Mock.handshake ++ [start_request] = Mock.rounds (S n).
Proof.
  unfold Mock.rounds. induction n as [|n IH]; cbn [replicate concat].
  - by rewrite app_nil_r.
  - rewrite <- app_assoc. f_equal. exact IH.
Qed.

(** X15: a constructor that returns has made n rounds, n between 1 and
    4, and its whole traffic is n times the 87 writes of the handshake
    followed by one start request: nothing else is sent, the packets it
    read (at least one per round) are taken from the head of the bulk
    queue, and what remains queued is left for get_image().  The
    warning is printed exactly when no dead-pixel frame was found. *)
Theorem constructor_traffic (d : Device) (s : SeekPro) (out : list string) :
  __init__ (Some d) = Ok (s, out) →
  ∃ (n : nat) (taken : list (list byte)),
    (1 ≤ n ≤ 4)%nat ∧
    ctrl_faults (dev s) = ctrl_faults d ∧
    ctrl_log (dev s) = ctrl_log d ++ Mock.rounds n ∧
    length (Mock.rounds n) = (88 * n)%nat ∧
    bulk_in d = taken ++ bulk_in (dev s) ∧ (n ≤ length taken)%nat ∧
    ((out = [warning] ∧ dead_pixels s = Some [] ∧ n = 4%nat) ∨
     (out = [] ∧ ∃ d1 frame,
        failed_attempts (n - 1) d = Some d1 ∧
        attempt d1 = Ok (4, Some frame, dev s))).
Proof.
  intros H. unfold __init__ in H. rewrite range_5 in H.
  change [0; 1; 2; 3; 4] with ([0; 1; 2; 3] ++ [4]) in H.
  bind_inv H. destruct a as [[dp d'] out0]. injection H as <- <-.
  apply discover_Ok in E as (n & d1 & Hn & Hfail & Hcases);
    [|repeat constructor; lia].
  cbn [length] in Hn, Hcases. cbn [dev dead_pixels].
  assert (∀ k, (k ≤ 4)%nat → length (Mock.rounds k) = (88 * k)%nat) as Hlen.
  { intros k Hk. destruct k as [|[|[|[|[|k]]]]]; [reflexivity..|lia]. }
  pose proof (failed_attempts_device _ _ _ Hfail) as (Hf & Hl & taken & Ht & Hq).
  destruct Hcases as [(-> & -> & -> & ->)|(Hlt & ret & l & Hatt & Hl' & -> & ->)].
  - exists 4%nat, taken. split; [lia|]. split; [done|]. split; [done|].
    split; [by apply Hlen|]. split; [done|]. split; [done|]. by left.
  - destruct ret as [frame|]; [|done].
    pose proof (attempt_device _ _ _ _ Hatt) as (Hf2 & Hl2 & taken2 & Hne & Hq2).
    exists (S n), (taken ++ taken2). split; [lia|]. split; [congruence|].
    split; [by rewrite Hl2, Hl, <- rounds_snoc, <- !app_assoc|].
    split; [apply Hlen; lia|]. split; [by rewrite Hq, Hq2, app_assoc|].
    split; [rewrite length_app; destruct taken2; [done|simpl; lia]|].
    right. split; [done|]. exists d1, frame.
    replace (S n - 1)%nat with n by lia. done.
Qed.

Lemma constructor_traffic_witness :
  ∃ n : nat, (1 ≤ n ≤ 4)%nat ∧ Mock.rounds 3 = [] ++ Mock.rounds n.
Proof.
  destruct (constructor_traffic
              (Mock.device (Mock.frame x03 x10 x27 0 ++
                            Mock.frame x03 x10 x27 0 ++
                            Mock.marked_frame x04))
              (mkSeekPro (mkDevice [] (Mock.rounds 3) []) None
                 (Some [(0, 0); (239, 319)])) [])
    as (n & taken & Hn & _ & Hlog & _); [by_compute|].
  exists n. exact (conj Hn Hlog).
Defined.



